(** * Mortgage CRM pricing engine: a shallow embedding and its properties

    The development follows the Python sources of the repository:

    - [utils/rate_calculator.py]  (module [RateCalculator])
    - [utils/llpa.py]             (module [Llpa])
    - [pages/other_tools.py]      (modules [Amortization],
                                   [Amortization64] and [Enpv])
    - [utils/optimal_threshold.py] (module [Threshold])

    Number model.  Python floats that only go through field operations
    (the LLPA tables, the amortization loop) are modelled as exact
    rationals [Q]; every LLPA table entry is a multiple of 1/8, so the
    table sums are exact in binary64 as well.  Code that needs square
    roots, exponentials, real powers or the Lambert-W function is
    modelled over the reals [R], extended in [Threshold] with the IEEE
    special values (infinities, NaN) and with the difference between
    Python's own float division (which raises [ZeroDivisionError]) and
    numpy's (which yields an infinity or NaN).  The overflow of
    [np.exp] and the NaN of [lambertw] at its branch point are
    modelled; rounding, other overflow and the sign of zero are not.
    The zero-rate amortization is modelled a second time over binary64
    floats (module [Amortization64]), where rounding matters to it. *)

From Stdlib Require Import ZArith QArith Qpower Qround Bool List String Ascii.
From Stdlib Require Import Reals Lra Lqa Lia Psatz.
From Stdlib Require Import ClassicalEpsilon.
From Stdlib Require Import Qabs Sorted Permutation.
From Stdlib Require PrimFloat FloatOps SpecFloat.
Import ListNotations.

(* ================================================================== *)
(** * Python dictionaries with insertion order *)
(* ================================================================== *)

Module PyDict.

(** A [dict] with string keys, kept in insertion order. *)
#[warnings="-notation-for-abbreviation"]
Notation dict V := (list (string * V)).

(** [d.get(k)] / the lookup behind [d[k]]; [None] stands for a missing
    key ([KeyError] for a subscript). *)
Fixpoint get {V : Type} (k : string) (d : dict V) : option V :=
  match d with
  | [] => None
  | (k', v) :: d' => if String.eqb k k' then Some v else get k d'
  end.

(** [d.get(k, default)]. *)
Definition get_default {V : Type} (k : string) (default : V) (d : dict V) : V :=
  match get k d with
  | Some v => v
  | None => default
  end.

(** [d[k] = v]: overwrite in place, or append a new key. *)
Fixpoint set {V : Type} (k : string) (v : V) (d : dict V) : dict V :=
  match d with
  | [] => [(k, v)]
  | (k', v') :: d' =>
      if String.eqb k k' then (k', v) :: d' else (k', v') :: set k v d'
  end.

(** [d.values()]. *)
Definition values {V : Type} (d : dict V) : list V := map snd d.

(** [d[k1][k2]] on a dictionary of dictionaries. *)
Definition get2 {V : Type} (k1 k2 : string) (d : dict (dict V)) : option V :=
  match get k1 d with
  | Some row => get k2 row
  | None => None
  end.

(** [x in [a, b, ...]] on strings. *)
Definition mem (x : string) (l : list string) : bool :=
  existsb (String.eqb x) l.

End PyDict.

(** Python's builtin [sum] over rationals: left to right from [0]. *)
Definition py_sum (l : list Q) : Q := fold_left Qplus l 0%Q.

(** The comparison [a > b] on rationals. *)
Definition Qgt_bool (a b : Q) : bool := negb (Qle_bool a b).

(** The dictionary returned by [get_fha_mip_info] (rate_calculator.py)
    and by [get_fha_mip] (llpa.py): both build the same six keys. *)
Record mip_info := mk_mip_info {
  upfront_mip_rate : Q;
  upfront_mip_amount : Q;
  annual_mip_rate : Q;
  monthly_mip : Q;
  mip_duration : string;
  total_loan_with_ufmip : Q
}.

(* ================================================================== *)
(** * utils/rate_calculator.py *)
(* ================================================================== *)

Module RateCalculator.
Import PyDict.
Local Open Scope string_scope.
Local Open Scope Q_scope.

Definition CONFORMING_LIMIT_2025 : Q := 806500.
Definition HIGH_BALANCE_LIMIT_2025 : Q := 1209750.

Definition get_ltv_bucket (ltv : Q) : string :=
  if Qle_bool ltv 30 then "<=30"
  else if Qle_bool ltv 60 then "30.01-60"
  else if Qle_bool ltv 70 then "60.01-70"
  else if Qle_bool ltv 75 then "70.01-75"
  else if Qle_bool ltv 80 then "75.01-80"
  else if Qle_bool ltv 85 then "80.01-85"
  else if Qle_bool ltv 90 then "85.01-90"
  else if Qle_bool ltv 95 then "90.01-95"
  else ">95".

Definition get_ltv_bucket_cashout (ltv : Q) : string :=
  if Qle_bool ltv 30 then "<=30"
  else if Qle_bool ltv 60 then "30.01-60"
  else if Qle_bool ltv 70 then "60.01-70"
  else if Qle_bool ltv 75 then "70.01-75"
  else "75.01-80".

Definition get_credit_score_bucket (credit_score : Z) : string :=
  if (780 <=? credit_score)%Z then ">=780"
  else if (760 <=? credit_score)%Z then "760-779"
  else if (740 <=? credit_score)%Z then "740-759"
  else if (720 <=? credit_score)%Z then "720-739"
  else if (700 <=? credit_score)%Z then "700-719"
  else if (680 <=? credit_score)%Z then "680-699"
  else if (660 <=? credit_score)%Z then "660-679"
  else if (640 <=? credit_score)%Z then "640-659"
  else "<=639".

(** One row of a table: the nine LTV buckets in order. *)
Definition ltv_row (a b c d e f g h i : Q) : dict Q :=
  [("<=30", a); ("30.01-60", b); ("60.01-70", c); ("70.01-75", d);
   ("75.01-80", e); ("80.01-85", f); ("85.01-90", g); ("90.01-95", h);
   (">95", i)].

Definition PURCHASE_CREDIT_SCORE_LTV : dict (dict Q) :=
  [(">=780",   ltv_row 0.000 0.000 0.000 0.000 0.375 0.375 0.250 0.250 0.125);
   ("760-779", ltv_row 0.000 0.000 0.000 0.250 0.625 0.625 0.500 0.500 0.250);
   ("740-759", ltv_row 0.000 0.000 0.125 0.375 0.875 1.000 0.750 0.625 0.500);
   ("720-739", ltv_row 0.000 0.000 0.250 0.750 1.250 1.250 1.000 0.875 0.750);
   ("700-719", ltv_row 0.000 0.000 0.375 0.875 1.375 1.500 1.250 1.125 0.875);
   ("680-699", ltv_row 0.000 0.000 0.625 1.125 1.750 1.875 1.500 1.375 1.125);
   ("660-679", ltv_row 0.000 0.000 0.750 1.375 1.875 2.125 1.750 1.625 1.250);
   ("640-659", ltv_row 0.000 0.000 1.125 1.500 2.250 2.500 2.000 1.875 1.500);
   ("<=639",   ltv_row 0.000 0.125 1.500 2.125 2.750 2.875 2.625 2.250 1.750)].

Definition LIMITED_CASHOUT_CREDIT_SCORE_LTV : dict (dict Q) :=
  [(">=780",   ltv_row 0.000 0.000 0.000 0.125 0.500 0.625 0.500 0.375 0.375);
   ("760-779", ltv_row 0.000 0.000 0.125 0.375 0.875 1.000 0.750 0.625 0.625);
   ("740-759", ltv_row 0.000 0.000 0.250 0.750 1.125 1.375 1.125 1.000 1.000);
   ("720-739", ltv_row 0.000 0.000 0.500 1.000 1.625 1.750 1.500 1.250 1.250);
   ("700-719", ltv_row 0.000 0.000 0.625 1.250 1.875 2.125 1.750 1.625 1.625);
   ("680-699", ltv_row 0.000 0.000 0.875 1.625 2.250 2.500 2.125 1.750 1.750);
   ("660-679", ltv_row 0.000 0.125 1.125 1.875 2.500 3.000 2.375 2.125 2.125);
   ("640-659", ltv_row 0.000 0.250 1.375 2.125 2.875 3.375 2.875 2.500 2.500);
   ("<=639",   ltv_row 0.000 0.375 1.750 2.500 3.500 3.875 3.625 2.500 2.500)].

Definition PURCHASE_CONDO : dict Q :=
  ltv_row 0.000 0.000 0.125 0.125 0.750 0.750 0.750 0.750 0.750.

Definition PURCHASE_INVESTMENT : dict Q :=
  ltv_row 1.125 1.125 1.625 2.125 3.375 4.125 4.125 4.125 4.125.

Definition PURCHASE_SECOND_HOME : dict Q :=
  ltv_row 1.125 1.125 1.625 2.125 3.375 4.125 4.125 4.125 4.125.

Definition PURCHASE_2_TO_4_UNIT : dict Q :=
  ltv_row 0.000 0.000 0.375 0.375 0.625 0.625 0.625 0.625 0.625.

Definition PURCHASE_HIGH_BALANCE_FIXED : dict Q :=
  ltv_row 0.500 0.500 0.750 0.750 1.000 1.000 1.000 1.000 1.000.

(** [calculate_conventional_llpa]; [None] is a [KeyError] from one of
    the table subscripts.  Both branches of the loan-purpose test
    compute [ltv_bucket] the same way, so it is bound once. *)
Definition calculate_conventional_llpa
  (credit_score : Z) (ltv loan_amount : Q)
  (loan_purpose property_type occupancy : string) : option (dict Q) :=
  let adjustments : dict Q := [] in
  let score_bucket := get_credit_score_bucket credit_score in
  let ltv_bucket := get_ltv_bucket ltv in
  match
    (if loan_purpose =? "Purchase"
     then get2 score_bucket ltv_bucket PURCHASE_CREDIT_SCORE_LTV
     else get2 score_bucket ltv_bucket LIMITED_CASHOUT_CREDIT_SCORE_LTV)
  with
  | None => None
  | Some cs =>
  let adjustments := set "Credit Score / LTV" cs adjustments in
  match
    (if property_type =? "Condo" then get ltv_bucket PURCHASE_CONDO
     else if mem property_type ["2-Unit"; "3-Unit"; "4-Unit"]
          then get ltv_bucket PURCHASE_2_TO_4_UNIT
     else Some 0.0)
  with
  | None => None
  | Some pt =>
  let adjustments := set "Property Type" pt adjustments in
  match
    (if occupancy =? "Investment Property" then get ltv_bucket PURCHASE_INVESTMENT
     else if occupancy =? "Second Home" then get ltv_bucket PURCHASE_SECOND_HOME
     else Some 0.0)
  with
  | None => None
  | Some occ =>
  let adjustments := set "Occupancy" occ adjustments in
  match
    (if Qgt_bool loan_amount CONFORMING_LIMIT_2025
     then get ltv_bucket PURCHASE_HIGH_BALANCE_FIXED
     else Some 0.0)
  with
  | None => None
  | Some hb =>
  let adjustments := set "High Balance" hb adjustments in
  let total_llpa := py_sum (values adjustments) in
  let adjustments := set "Total LLPA" total_llpa adjustments in
  Some adjustments
  end end end end.

(** [str.upper()] on ASCII strings. *)
Definition ascii_upper (c : ascii) : ascii :=
  let n := nat_of_ascii c in
  if (97 <=? n)%nat && (n <=? 122)%nat then ascii_of_nat (n - 32) else c.

Fixpoint upper (s : string) : string :=
  match s with
  | EmptyString => EmptyString
  | String c s' => String (ascii_upper c) (upper s')
  end.

(** The dictionary returned by [calculate_available_rate]. *)
Record available_rate := mk_available_rate {
  base_rate : Q;
  total_llpa : Q;
  state_adjustment : Q;
  final_rate : Q;
  final_rate_decimal : Q;
  adjustments : dict Q;
  loan_type : string;
  note : option string
}.

Definition calculate_available_rate
  (base_rate : Q) (credit_score : Z) (ltv loan_amount : Q)
  (loan_type property_type occupancy : string) (state_adjustment : Q)
  : option available_rate :=
  if upper loan_type =? "FHA" then
    let final_rate := base_rate + state_adjustment in
    Some (mk_available_rate base_rate 0.0 state_adjustment final_rate
            (final_rate / 100) [] "FHA" (Some "FHA does not have LLPAs"))
  else
    match calculate_conventional_llpa credit_score ltv loan_amount
            "Rate/Term Refinance" property_type occupancy with
    | None => None
    | Some adjustments =>
        let total_llpa := get_default "Total LLPA" 0.0 adjustments in
        let final_rate := base_rate + total_llpa + state_adjustment in
        Some (mk_available_rate base_rate total_llpa state_adjustment final_rate
                (final_rate / 100) adjustments "Conventional" None)
    end.

(** ** The pricing grid *)

(** One entry of the list returned by
    [get_available_rates_with_points]. *)
Record rate_row := mk_rate_row {
  rate : Q;
  rate_str : string;
  base_points : Q;
  llpa_points : Q;
  total_points : Q;
  total_cost : Q;
  is_par : bool;
  has_credit : bool;
  has_cost : bool
}.

(** The dictionary returned by [get_par_rate_for_borrower]. *)
Record par_info := mk_par_info {
  borrower_par_rate : Q;
  borrower_par_points : Q;
  grid_par_rate : option Q;
  llpa_adjustment : Q;
  all_rates : list rate_row
}.

(** The dictionary returned by [get_best_rate_for_closing_cost]; the
    keys ['rate'], ['points'] and ['cost'] are the first three fields. *)
Record budget_rate := mk_budget_rate {
  best_rate : Q;
  best_points : Q;
  best_cost : Q;
  within_budget : bool;
  message : string
}.

(** [sorted(..., key=k, reverse=True)] on items paired with their key:
    descending, and items with equal keys keep their order. *)
Fixpoint insert_desc {A : Type} (x : Q * A) (l : list (Q * A)) : list (Q * A) :=
  match l with
  | [] => [x]
  | y :: l' =>
      if Qgt_bool (fst y) (fst x) then y :: insert_desc x l' else x :: l
  end.

Definition sorted_desc {A : Type} (l : list (Q * A)) : list (Q * A) :=
  fold_right insert_desc [] l.

(** [min(x :: l, key=key)]: the first item with the least key. *)
Fixpoint py_min_by {A : Type} (key : A -> Q) (x : A) (l : list A) : A :=
  match l with
  | [] => x
  | y :: l' => py_min_by key (if Qgt_bool (key x) (key y) then y else x) l'
  end.

Section PricingGrid.

(** Python's [float(s)] on a key of the grid; [None] is [ValueError]. *)
Variable float_of_string : string -> option Q.
(** Python's [format(x, '.3f')] and [format(x, ',.0f')], services of
    the runtime. *)
Variable format_3f : Q -> string.
Variable format_comma_0f : Q -> string.

(** The items of the grid with [float(x[0])], the sort key. *)
Fixpoint keyed_items (items : dict Q) : option (list (Q * (string * Q))) :=
  match items with
  | [] => Some []
  | (rate_str, base_points) :: items' =>
      match float_of_string rate_str, keyed_items items' with
      | Some k, Some rest => Some ((k, (rate_str, base_points)) :: rest)
      | _, _ => None
      end
  end.

(** [get_available_rates_with_points]; [grid] is what
    [get_pricing_grid(loan_type)] read from the admin settings, and
    [None] is an exception ([KeyError], or [ValueError] for a grid key
    that is not a number). *)
Definition get_available_rates_with_points
  (grid : dict Q)
  (base_rate : Q) (credit_score : Z) (ltv loan_amount : Q)
  (loan_type property_type occupancy : string) : option (list rate_row) :=
  match grid with
  | [] => Some []
  | _ :: _ =>
  match
    (if upper loan_type =? "CONVENTIONAL" then
       match calculate_conventional_llpa credit_score ltv loan_amount
               "Rate/Term Refinance" property_type occupancy with
       | Some adjustments => Some (get_default "Total LLPA" 0.0 adjustments)
       | None => None
       end
     else Some 0.0)
  with
  | None => None
  | Some llpa_points =>
  match keyed_items grid with
  | None => None
  | Some items =>
      Some (map (fun '(rate, (rate_str, base_points)) =>
                   let total_points := base_points + llpa_points in
                   let total_cost := total_points * loan_amount / 100 in
                   mk_rate_row rate (format_3f rate ++ "%") base_points
                     llpa_points total_points total_cost
                     (Qgt_bool 0.001 (Qabs base_points))
                     (Qgt_bool 0 total_points)
                     (Qgt_bool total_points 0))
                (sorted_desc items))
  end end end.

(** [get_par_rate_for_borrower]; the inner [None] is Python's [None]. *)
Definition get_par_rate_for_borrower
  (grid : dict Q)
  (base_rate : Q) (credit_score : Z) (ltv loan_amount : Q)
  (loan_type property_type occupancy : string) : option (option par_info) :=
  match get_available_rates_with_points grid base_rate credit_score ltv
          loan_amount loan_type property_type occupancy with
  | None => None
  | Some rates =>
      match rates with
      | [] => Some None
      | r :: rates' =>
          let best_rate :=
            py_min_by (fun x => Qabs (total_points x)) r rates' in
          let grid_par := find is_par rates in
          Some (Some (mk_par_info (rate best_rate) (total_points best_rate)
                        (option_map rate grid_par)
                        (llpa_points best_rate) rates))
      end
  end.

(** [get_best_rate_for_closing_cost]. *)
Definition get_best_rate_for_closing_cost
  (grid : dict Q)
  (target_cost base_rate : Q) (credit_score : Z) (ltv loan_amount : Q)
  (loan_type property_type occupancy : string) : option (option budget_rate) :=
  match get_available_rates_with_points grid base_rate credit_score ltv
          loan_amount loan_type property_type occupancy with
  | None => None
  | Some rates =>
      match rates with
      | [] => Some None
      | r0 :: _ =>
          let affordable_rates :=
            filter (fun r => Qle_bool (total_cost r) target_cost) rates in
          match affordable_rates with
          | [] =>
              Some (Some (mk_budget_rate (rate r0) (total_points r0)
                            (total_cost r0) false
                            "No rates available within budget. Showing highest rate (most credit)."))
          | a :: affordable' =>
              let best := py_min_by rate a affordable' in
              Some (Some (mk_budget_rate (rate best) (total_points best)
                            (total_cost best) true
                            ("Best rate within $" ++ format_comma_0f target_cost
                               ++ " budget")))
          end
      end
  end.

End PricingGrid.

(** ** FHA mortgage insurance *)

Definition get_fha_mip_info (ltv loan_amount : Q) (loan_term : Z) : mip_info :=
  let fha_base_limit := 726200 in
  let upfront_mip_rate := 1.75 in
  let upfront_mip_amount := loan_amount * 0.0175 in
  let annual_mip :=
    if (15 <? loan_term)%Z then
      if Qle_bool loan_amount fha_base_limit
      then (if Qle_bool ltv 90 then 0.50 else 0.55)
      else (if Qle_bool ltv 90 then 0.70 else 0.75)
    else
      if Qle_bool loan_amount fha_base_limit
      then (if Qle_bool ltv 90 then 0.15 else 0.40)
      else (if Qle_bool ltv 90 then 0.40 else 0.65) in
  let monthly_mip := (loan_amount * annual_mip / 100) / 12 in
  let mip_duration := if Qle_bool ltv 90 then "11 years" else "Life of loan" in
  mk_mip_info upfront_mip_rate upfront_mip_amount annual_mip monthly_mip
    mip_duration (loan_amount + upfront_mip_amount).

End RateCalculator.

(* ================================================================== *)
(** * utils/llpa.py *)
(* ================================================================== *)

Module Llpa.
Import PyDict.
Local Open Scope string_scope.
Local Open Scope Q_scope.

Definition CONFORMING_LIMIT_2025 : Q := 806500.
Definition HIGH_BALANCE_LIMIT_2025 : Q := 1209750.
Definition FHA_FLOOR_2025 : Q := 498257.
Definition FHA_CEILING_2025 : Q := 1149825.

Definition get_ltv_bucket (ltv : Q) : string :=
  if Qle_bool ltv 30 then "<=30"
  else if Qle_bool ltv 60 then "30.01-60"
  else if Qle_bool ltv 70 then "60.01-70"
  else if Qle_bool ltv 75 then "70.01-75"
  else if Qle_bool ltv 80 then "75.01-80"
  else if Qle_bool ltv 85 then "80.01-85"
  else if Qle_bool ltv 90 then "85.01-90"
  else if Qle_bool ltv 95 then "90.01-95"
  else ">95".

Definition get_ltv_bucket_cashout (ltv : Q) : string :=
  if Qle_bool ltv 30 then "<=30"
  else if Qle_bool ltv 60 then "30.01-60"
  else if Qle_bool ltv 70 then "60.01-70"
  else if Qle_bool ltv 75 then "70.01-75"
  else "75.01-80".

Definition get_credit_score_bucket (credit_score : Z) : string :=
  if (780 <=? credit_score)%Z then ">=780"
  else if (760 <=? credit_score)%Z then "760-779"
  else if (740 <=? credit_score)%Z then "740-759"
  else if (720 <=? credit_score)%Z then "720-739"
  else if (700 <=? credit_score)%Z then "700-719"
  else if (680 <=? credit_score)%Z then "680-699"
  else if (660 <=? credit_score)%Z then "660-679"
  else if (640 <=? credit_score)%Z then "640-659"
  else "<=639".

Definition ltv_row (a b c d e f g h i : Q) : dict Q :=
  [("<=30", a); ("30.01-60", b); ("60.01-70", c); ("70.01-75", d);
   ("75.01-80", e); ("80.01-85", f); ("85.01-90", g); ("90.01-95", h);
   (">95", i)].

(** A row of the cash-out table: five buckets, capped at 80%. *)
Definition cashout_row (a b c d e : Q) : dict Q :=
  [("<=30", a); ("30.01-60", b); ("60.01-70", c); ("70.01-75", d);
   ("75.01-80", e)].

Definition PURCHASE_CREDIT_SCORE_LTV : dict (dict Q) :=
  [(">=780",   ltv_row 0.000 0.000 0.000 0.000 0.375 0.375 0.250 0.250 0.125);
   ("760-779", ltv_row 0.000 0.000 0.000 0.250 0.625 0.625 0.500 0.500 0.250);
   ("740-759", ltv_row 0.000 0.000 0.125 0.375 0.875 1.000 0.750 0.625 0.500);
   ("720-739", ltv_row 0.000 0.000 0.250 0.750 1.250 1.250 1.000 0.875 0.750);
   ("700-719", ltv_row 0.000 0.000 0.375 0.875 1.375 1.500 1.250 1.125 0.875);
   ("680-699", ltv_row 0.000 0.000 0.625 1.125 1.750 1.875 1.500 1.375 1.125);
   ("660-679", ltv_row 0.000 0.000 0.750 1.375 1.875 2.125 1.750 1.625 1.250);
   ("640-659", ltv_row 0.000 0.000 1.125 1.500 2.250 2.500 2.000 1.875 1.500);
   ("<=639",   ltv_row 0.000 0.125 1.500 2.125 2.750 2.875 2.625 2.250 1.750)].

Definition LIMITED_CASHOUT_CREDIT_SCORE_LTV : dict (dict Q) :=
  [(">=780",   ltv_row 0.000 0.000 0.000 0.125 0.500 0.625 0.500 0.375 0.375);
   ("760-779", ltv_row 0.000 0.000 0.125 0.375 0.875 1.000 0.750 0.625 0.625);
   ("740-759", ltv_row 0.000 0.000 0.250 0.750 1.125 1.375 1.125 1.000 1.000);
   ("720-739", ltv_row 0.000 0.000 0.500 1.000 1.625 1.750 1.500 1.250 1.250);
   ("700-719", ltv_row 0.000 0.000 0.625 1.250 1.875 2.125 1.750 1.625 1.625);
   ("680-699", ltv_row 0.000 0.000 0.875 1.625 2.250 2.500 2.125 1.750 1.750);
   ("660-679", ltv_row 0.000 0.125 1.125 1.875 2.500 3.000 2.375 2.125 2.125);
   ("640-659", ltv_row 0.000 0.250 1.375 2.125 2.875 3.375 2.875 2.500 2.500);
   ("<=639",   ltv_row 0.000 0.375 1.750 2.500 3.500 3.875 3.625 2.500 2.500)].

Definition CASHOUT_CREDIT_SCORE_LTV : dict (dict Q) :=
  [(">=780",   cashout_row 0.375 0.375 0.625 0.875 1.375);
   ("760-779", cashout_row 0.375 0.375 0.875 1.250 1.875);
   ("740-759", cashout_row 0.375 0.375 1.000 1.625 2.375);
   ("720-739", cashout_row 0.375 0.500 1.375 2.000 2.750);
   ("700-719", cashout_row 0.375 0.500 1.625 2.625 3.250);
   ("680-699", cashout_row 0.375 0.625 2.000 2.875 3.750);
   ("660-679", cashout_row 0.375 0.875 2.750 4.000 4.750);
   ("640-659", cashout_row 0.375 1.375 3.125 4.625 5.125);
   ("<=639",   cashout_row 0.375 1.375 3.375 4.875 5.125)].

Definition CONDO_ADJUSTMENT : dict Q :=
  ltv_row 0.000 0.000 0.125 0.125 0.750 0.750 0.750 0.750 0.750.

Definition MULTI_UNIT_ADJUSTMENT : dict Q :=
  ltv_row 0.000 0.000 0.375 0.375 0.625 0.625 0.625 0.625 0.625.

Definition MANUFACTURED_ADJUSTMENT : dict Q :=
  ltv_row 0.500 0.500 0.500 0.500 0.500 0.500 0.500 0.500 0.500.

Definition INVESTMENT_PROPERTY_ADJUSTMENT : dict Q :=
  ltv_row 1.125 1.125 1.625 2.125 3.375 4.125 4.125 4.125 4.125.

Definition SECOND_HOME_ADJUSTMENT : dict Q :=
  ltv_row 1.125 1.125 1.625 2.125 3.375 4.125 4.125 4.125 4.125.

Definition HIGH_BALANCE_FIXED : dict Q :=
  ltv_row 0.500 0.500 0.750 0.750 1.000 1.000 1.000 1.000 1.000.

Definition HIGH_BALANCE_ARM : dict Q :=
  ltv_row 1.250 1.250 1.500 1.500 2.500 2.500 2.500 2.750 2.750.

Definition SUBORDINATE_FINANCING_ADJUSTMENT : dict Q :=
  ltv_row 0.625 0.625 0.625 0.875 1.125 1.125 1.125 1.875 1.875.

(** [None] is a [KeyError] from a table subscript. *)
Definition get_credit_score_ltv_adjustment
  (credit_score : Z) (ltv : Q) (loan_purpose : string) : option Q :=
  let score_bucket := get_credit_score_bucket credit_score in
  if loan_purpose =? "Purchase" then
    let ltv_bucket := get_ltv_bucket ltv in
    get2 score_bucket ltv_bucket PURCHASE_CREDIT_SCORE_LTV
  else if loan_purpose =? "Rate/Term Refinance" then
    let ltv_bucket := get_ltv_bucket ltv in
    get2 score_bucket ltv_bucket LIMITED_CASHOUT_CREDIT_SCORE_LTV
  else if loan_purpose =? "Cash-Out Refinance" then
    let ltv_bucket := get_ltv_bucket_cashout ltv in
    get2 score_bucket ltv_bucket CASHOUT_CREDIT_SCORE_LTV
  else Some 0.0.

Definition get_property_type_adjustment
  (property_type : string) (ltv : Q) (loan_purpose : string) : Q :=
  let ltv_bucket :=
    if loan_purpose =? "Cash-Out Refinance" then get_ltv_bucket_cashout ltv
    else get_ltv_bucket ltv in
  if property_type =? "Condo" then get_default ltv_bucket 0.0 CONDO_ADJUSTMENT
  else if mem property_type ["2-Unit"; "3-Unit"; "4-Unit"]
       then get_default ltv_bucket 0.0 MULTI_UNIT_ADJUSTMENT
  else if property_type =? "Manufactured Home"
       then get_default ltv_bucket 0.0 MANUFACTURED_ADJUSTMENT
  else 0.0.

Definition get_occupancy_adjustment
  (occupancy : string) (ltv : Q) (loan_purpose : string) : Q :=
  let ltv_bucket :=
    if loan_purpose =? "Cash-Out Refinance" then get_ltv_bucket_cashout ltv
    else get_ltv_bucket ltv in
  if occupancy =? "Investment Property"
  then get_default ltv_bucket 0.0 INVESTMENT_PROPERTY_ADJUSTMENT
  else if occupancy =? "Second Home"
       then get_default ltv_bucket 0.0 SECOND_HOME_ADJUSTMENT
  else 0.0.

Definition get_high_balance_adjustment
  (loan_amount ltv : Q) (is_arm : bool) : Q :=
  if Qle_bool loan_amount CONFORMING_LIMIT_2025 then 0.0
  else
    let ltv_bucket := get_ltv_bucket ltv in
    if is_arm then get_default ltv_bucket 0.0 HIGH_BALANCE_ARM
    else get_default ltv_bucket 0.0 HIGH_BALANCE_FIXED.

Definition get_subordinate_financing_adjustment (ltv cltv : Q) : Q :=
  if Qle_bool cltv ltv then 0.0
  else
    let ltv_bucket := get_ltv_bucket ltv in
    get_default ltv_bucket 0.0 SUBORDINATE_FINANCING_ADJUSTMENT.

(** The values stored in the dictionary of [calculate_total_llpa]. *)
Inductive value : Type :=
| Num (q : Q)
| Bool (b : bool)
| Str (s : string).

(** [isinstance(v, (int, float))], with the number it stands for
    (a Python [bool] is an [int]). *)
Definition as_number (v : value) : option Q :=
  match v with
  | Num q => Some q
  | Bool b => Some (if b then 1 else 0)
  | Str _ => None
  end.

(** [sum(v for v in vs if isinstance(v, (int, float)))]. *)
Definition sum_numbers (vs : list value) : Q :=
  py_sum (flat_map (fun v => match as_number v with
                             | Some q => [q]
                             | None => []
                             end) vs).

Definition calculate_total_llpa
  (credit_score : Z) (ltv loan_amount : Q)
  (loan_purpose property_type occupancy : string)
  (is_arm : bool) (cltv : option Q)
  (is_homeready is_first_time_buyer_low_income : bool)
  : option (dict value) :=
  if is_homeready || is_first_time_buyer_low_income then
    Some [("Credit Score / LTV", Num 0.0);
          ("Property Type", Num 0.0);
          ("Occupancy", Num 0.0);
          ("High Balance", Num 0.0);
          ("Subordinate Financing", Num 0.0);
          ("Total LLPA", Num 0.0);
          ("LLPA Waiver Applied", Bool true);
          ("waiver_reason",
            Str (if is_homeready then "HomeReady"
                 else "First-Time Buyer Low Income"))]
  else
    let cltv := match cltv with None => ltv | Some c => c end in
    let adjustments : dict value := [] in
    match get_credit_score_ltv_adjustment credit_score ltv loan_purpose with
    | None => None
    | Some cs =>
    let adjustments := set "Credit Score / LTV" (Num cs) adjustments in
    let adjustments :=
      set "Property Type"
        (Num (get_property_type_adjustment property_type ltv loan_purpose))
        adjustments in
    let adjustments :=
      set "Occupancy"
        (Num (get_occupancy_adjustment occupancy ltv loan_purpose))
        adjustments in
    let adjustments :=
      set "High Balance"
        (Num (get_high_balance_adjustment loan_amount ltv is_arm))
        adjustments in
    let adjustments :=
      set "Subordinate Financing"
        (Num (get_subordinate_financing_adjustment ltv cltv))
        adjustments in
    let total := sum_numbers (values adjustments) in
    let adjustments := set "Total LLPA" (Num total) adjustments in
    let adjustments := set "LLPA Waiver Applied" (Bool false) adjustments in
    Some adjustments
    end.

(** ** FHA mortgage insurance *)

Definition get_fha_mip (ltv loan_amount : Q) (loan_term_years : Z) : mip_info :=
  let fha_base_limit := 726200 in
  let upfront_mip_rate := 1.75 in
  let upfront_mip_amount := loan_amount * 0.0175 in
  let annual_mip :=
    if (15 <? loan_term_years)%Z then
      if Qle_bool loan_amount fha_base_limit
      then (if Qle_bool ltv 90 then 0.50 else 0.55)
      else (if Qle_bool ltv 90 then 0.70 else 0.75)
    else
      if Qle_bool loan_amount fha_base_limit
      then (if Qle_bool ltv 90 then 0.15 else 0.40)
      else (if Qle_bool ltv 90 then 0.40 else 0.65) in
  let monthly_mip := (loan_amount * annual_mip / 100) / 12 in
  let mip_duration := if Qle_bool ltv 90 then "11 years" else "Life of loan" in
  mk_mip_info upfront_mip_rate upfront_mip_amount annual_mip monthly_mip
    mip_duration (loan_amount + upfront_mip_amount).

End Llpa.

(* ================================================================== *)
(** * pages/other_tools.py: amortization inside [render_enpv_analysis] *)
(* ================================================================== *)

Module Amortization.
Local Open Scope Q_scope.

(** Python's [a / b] on floats: [None] is [ZeroDivisionError]. *)
Definition py_div (a b : Q) : option Q :=
  if Qeq_bool b 0 then None else Some (a / b).

(** Python's [b ** e] for an integer exponent: a zero base with a
    negative exponent raises [ZeroDivisionError]. *)
Definition py_pow (b : Q) (e : Z) : option Q :=
  if Qeq_bool b 0 && (e <? 0)%Z then None else Some (Qpower b e).

(** [max(0.0, x)]. *)
Definition max0 (x : Q) : Q := if Qle_bool x 0 then 0 else x.

(** [int(round(x))]: round half to even. *)
Definition py_round (x : Q) : Z :=
  let f := Qfloor x in
  let d := x - inject_Z f in
  match Qcompare d (1 # 2) with
  | Lt => f
  | Gt => (f + 1)%Z
  | Eq => if Z.even f then f else (f + 1)%Z
  end.

(** [payment(principal, monthly_rate, n_months)]. *)
Definition payment (principal monthly_rate : Q) (n_months : Z) : option Q :=
  if Qeq_bool monthly_rate 0 then py_div principal (inject_Z n_months)
  else
    match py_pow (1 + monthly_rate) (- n_months) with
    | None => None
    | Some p =>
        let denom := 1 - p in
        py_div (principal * monthly_rate) denom
    end.

(** One entry of [history]. *)
Record rec := mk_rec {
  month : Z;
  p_old : Q;
  p_new : Q;
  pmt_sav_t : Q;
  rec_cum_sav : Q;
  rec_inv_bal : Q;
  rec_bal_old : Q;
  rec_bal_new : Q;
  balance_adv : Q;
  total_adv : Q
}.

(** The variables the loop of [compute_enpv_full] carries from one
    month to the next. *)
Record loop_state := mk_state {
  bal_old : Q;
  bal_new : Q;
  cum_sav : Q;
  inv_bal : Q;
  opt1_sav : Q;
  opt2_sav : Q;
  history : list rec
}.

(** The fixed quantities of one run. *)
Record loan_env := mk_env {
  n_old : Z;
  n_new : Z;
  gamma_month : Z;
  r_old : Q;
  r_new : Q;
  r_inv : Q;
  pmt_old : Q;
  pmt_new : Q;
  tau_rate : Q;
  include_tax : bool
}.

(** One pass through the body of [for t in range(1, horizon + 1)]. *)
Definition loop_body (e : loan_env) (t : Z) (s : loop_state) : loop_state :=
  (* old loan *)
  let '(p_old_t, bal_old') :=
    if (t <=? n_old e)%Z && Qgt_bool (bal_old s) 0 then
      let interest_old := r_old e * bal_old s in
      let principal_old := pmt_old e - interest_old in
      let b := max0 (bal_old s - principal_old) in
      ((if include_tax e then pmt_old e - interest_old * tau_rate e
        else pmt_old e), b)
    else (0, 0) in
  (* new loan *)
  let '(p_new_t, bal_new') :=
    if (t <=? n_new e)%Z && Qgt_bool (bal_new s) 0 then
      let interest_new := r_new e * bal_new s in
      let principal_new := pmt_new e - interest_new in
      let b := max0 (bal_new s - principal_new) in
      ((if include_tax e then pmt_new e - interest_new * tau_rate e
        else pmt_new e), b)
    else (0, 0) in
  let pmt_sav := p_old_t - p_new_t in
  let cum_sav' := cum_sav s + pmt_sav in
  let '(inv_bal', opt1', opt2', total) :=
    if (t <? gamma_month e)%Z then
      let ib := inv_bal s * (1 + r_inv e) + pmt_sav in
      (ib, opt1_sav s, opt2_sav s, ib + (bal_old' - bal_new'))
    else if (t =? gamma_month e)%Z then
      let ib := inv_bal s * (1 + r_inv e) + pmt_sav in
      (ib, 0, ib, ib + (bal_old' - bal_new'))
    else
      let o1 := opt1_sav s * (1 + r_inv e) + pmt_old e in
      let o2 := opt2_sav s * (1 + r_inv e) in
      (inv_bal s, o1, o2, (o2 - bal_new') - o1) in
  let r :=
    mk_rec t p_old_t p_new_t pmt_sav cum_sav'
      (if (t <=? gamma_month e)%Z then inv_bal' else opt2')
      bal_old' bal_new' (bal_old' - bal_new') total in
  mk_state bal_old' bal_new' cum_sav' inv_bal' opt1' opt2' (history s ++ [r]).

(** [for t in range(first, first + count)]. *)
Fixpoint run_months (e : loan_env) (count : nat) (first : Z) (s : loop_state)
  : loop_state :=
  match count with
  | O => s
  | S k => run_months e k (first + 1)%Z (loop_body e first s)
  end.

(** [compute_enpv_full]; the result is
    [(history, pmt_old, pmt_new, gamma_month)], and [None] is a
    [ZeroDivisionError] raised by [payment].  The arguments
    [discount_rate] and [cpr] are accepted and not used by the body. *)
Definition compute_enpv_full
  (current_balance current_rate new_rate remaining_years_old new_term_years
     closing_costs : Q) (finance_costs_in_loan : bool)
  (invest_rate discount_rate cpr tau_rate : Q) (include_tax : bool)
  : option (list rec * Q * Q * Z) :=
  let n_old := py_round (remaining_years_old * 12) in
  let n_new := py_round (new_term_years * 12) in
  let horizon := Z.max n_old n_new in
  let gamma_month := n_old in
  let r_old := current_rate / 12 in
  let r_new := new_rate / 12 in
  let r_inv := invest_rate / 12 in
  let r_disc := discount_rate / 12 in
  let old_principal := current_balance in
  let new_principal :=
    if finance_costs_in_loan then current_balance + closing_costs
    else current_balance in
  match payment old_principal r_old n_old with
  | None => None
  | Some pmt_old =>
  match payment new_principal r_new n_new with
  | None => None
  | Some pmt_new =>
      let e := mk_env n_old n_new gamma_month r_old r_new r_inv
                 pmt_old pmt_new tau_rate include_tax in
      let s0 := mk_state old_principal new_principal 0 0 0 0 [] in
      let s := run_months e (Z.to_nat horizon) 1 s0 in
      Some (history s, pmt_old, pmt_new, gamma_month)
  end end.

(** [calc_monthly_payment(principal, annual_rate, months)] of
    [render_net_benefit_timeline]. *)
Definition calc_monthly_payment (principal annual_rate : Q) (months : Z)
  : option Q :=
  if Qeq_bool annual_rate 0 then py_div principal (inject_Z months)
  else
    let monthly_rate := annual_rate / 12 in
    match py_pow (1 + monthly_rate) (- months) with
    | None => None
    | Some p => py_div (principal * monthly_rate) (1 - p)
    end.

End Amortization.

(* ================================================================== *)
(** * pages/other_tools.py: the amortization on binary64 floats *)
(* ================================================================== *)

(** [payment] and [compute_enpv_full] once more, on the numbers the
    interpreter computes with: IEEE 754 binary64, every operation
    rounded to nearest, ties to even. *)
Module Amortization64.
Import PrimFloat.
Local Open Scope float_scope.

(** Python's conversion of an integer [n] to a float, the nearest
    binary64 value (an integer of 2^1024 or more raises instead). *)
Definition float_of_int (n : Z) : float :=
  FloatOps.SF2Prim (SpecFloat.binary_normalize FloatOps.prec FloatOps.emax n 0 false).

(** Python's [a / b] on floats: [None] is [ZeroDivisionError]. *)
Definition py_div (a b : float) : option float :=
  if b =? 0 then None else Some (a / b).

(** [max(0.0, x)]. *)
Definition max0 (x : float) : float := if 0 <? x then x else 0.

(** [int(round(x))]: round half to even; [None] is the error raised for
    an infinity or a NaN. *)
Definition py_round (x : float) : option Z :=
  match FloatOps.Prim2SF x with
  | SpecFloat.S754_zero _ => Some 0%Z
  | SpecFloat.S754_finite sgn m e =>
      let n :=
        if (0 <=? e)%Z then (Z.pos m * 2 ^ e)%Z
        else
          let d := (2 ^ (- e))%Z in
          let q := (Z.pos m / d)%Z in
          match (2 * (Z.pos m mod d) ?= d)%Z with
          | Lt => q
          | Gt => (q + 1)%Z
          | Eq => if Z.even q then q else (q + 1)%Z
          end in
      Some (if sgn then (- n)%Z else n)
  | _ => None
  end.

(** One entry of [history]. *)
Record rec := mk_rec {
  month : Z;
  p_old : float;
  p_new : float;
  pmt_sav_t : float;
  rec_cum_sav : float;
  rec_inv_bal : float;
  rec_bal_old : float;
  rec_bal_new : float;
  balance_adv : float;
  total_adv : float
}.

(** The variables the loop carries from one month to the next. *)
Record loop_state := mk_state {
  bal_old : float;
  bal_new : float;
  cum_sav : float;
  inv_bal : float;
  opt1_sav : float;
  opt2_sav : float;
  history : list rec
}.

(** The fixed quantities of one run. *)
Record loan_env := mk_env {
  n_old : Z;
  n_new : Z;
  gamma_month : Z;
  r_old : float;
  r_new : float;
  r_inv : float;
  pmt_old : float;
  pmt_new : float;
  tau_rate : float;
  include_tax : bool
}.

(** One pass through the body of [for t in range(1, horizon + 1)];
    [bal > 0] is the float comparison, false on a NaN. *)
Definition loop_body (e : loan_env) (t : Z) (s : loop_state) : loop_state :=
  let '(p_old_t, bal_old') :=
    if (t <=? n_old e)%Z && (0 <? bal_old s) then
      let interest_old := r_old e * bal_old s in
      let principal_old := pmt_old e - interest_old in
      let b := max0 (bal_old s - principal_old) in
      ((if include_tax e then pmt_old e - interest_old * tau_rate e
        else pmt_old e), b)
    else (0, 0) in
  let '(p_new_t, bal_new') :=
    if (t <=? n_new e)%Z && (0 <? bal_new s) then
      let interest_new := r_new e * bal_new s in
      let principal_new := pmt_new e - interest_new in
      let b := max0 (bal_new s - principal_new) in
      ((if include_tax e then pmt_new e - interest_new * tau_rate e
        else pmt_new e), b)
    else (0, 0) in
  let pmt_sav := p_old_t - p_new_t in
  let cum_sav' := cum_sav s + pmt_sav in
  let '(inv_bal', opt1', opt2', total) :=
    if (t <? gamma_month e)%Z then
      let ib := inv_bal s * (1 + r_inv e) + pmt_sav in
      (ib, opt1_sav s, opt2_sav s, ib + (bal_old' - bal_new'))
    else if (t =? gamma_month e)%Z then
      let ib := inv_bal s * (1 + r_inv e) + pmt_sav in
      (ib, 0, ib, ib + (bal_old' - bal_new'))
    else
      let o1 := opt1_sav s * (1 + r_inv e) + pmt_old e in
      let o2 := opt2_sav s * (1 + r_inv e) in
      (inv_bal s, o1, o2, (o2 - bal_new') - o1) in
  let r :=
    mk_rec t p_old_t p_new_t pmt_sav cum_sav'
      (if (t <=? gamma_month e)%Z then inv_bal' else opt2')
      bal_old' bal_new' (bal_old' - bal_new') total in
  mk_state bal_old' bal_new' cum_sav' inv_bal' opt1' opt2' (history s ++ [r]).

(** [for t in range(first, first + count)]. *)
Fixpoint run_months (e : loan_env) (count : nat) (first : Z) (s : loop_state)
  : loop_state :=
  match count with
  | O => s
  | S k => run_months e k (first + 1)%Z (loop_body e first s)
  end.

Section FloatPower.

(** Python's [b ** e] for a float [b] and an integer [e], computed by
    the C library's [pow]; [None] is [ZeroDivisionError] or
    [OverflowError]. *)
Variable float_pow : float -> Z -> option float.

(** [payment(principal, monthly_rate, n_months)]; the integer
    [n_months] is converted to a float by the division. *)
Definition payment (principal monthly_rate : float) (n_months : Z) : option float :=
  if monthly_rate =? 0 then py_div principal (float_of_int n_months)
  else
    match float_pow (1 + monthly_rate) (- n_months) with
    | None => None
    | Some p =>
        let denom := 1 - p in
        py_div (principal * monthly_rate) denom
    end.

(** [compute_enpv_full]; [None] is an exception raised by [round] or by
    [payment]. *)
Definition compute_enpv_full
  (current_balance current_rate new_rate remaining_years_old new_term_years
     closing_costs : float) (finance_costs_in_loan : bool)
  (invest_rate discount_rate cpr tau_rate : float) (include_tax : bool)
  : option (list rec * float * float * Z) :=
  match py_round (remaining_years_old * 12) with
  | None => None
  | Some n_old =>
  match py_round (new_term_years * 12) with
  | None => None
  | Some n_new =>
  let horizon := Z.max n_old n_new in
  let gamma_month := n_old in
  let r_old := current_rate / 12 in
  let r_new := new_rate / 12 in
  let r_inv := invest_rate / 12 in
  let r_disc := discount_rate / 12 in
  let old_principal := current_balance in
  let new_principal :=
    if finance_costs_in_loan then current_balance + closing_costs
    else current_balance in
  match payment old_principal r_old n_old with
  | None => None
  | Some pmt_old =>
  match payment new_principal r_new n_new with
  | None => None
  | Some pmt_new =>
      let e := mk_env n_old n_new gamma_month r_old r_new r_inv
                 pmt_old pmt_new tau_rate include_tax in
      let s0 := mk_state old_principal new_principal 0 0 0 0 [] in
      let s := run_months e (Z.to_nat horizon) 1 s0 in
      Some (history s, pmt_old, pmt_new, gamma_month)
  end end end end.

End FloatPower.
End Amortization64.

(* ================================================================== *)
(** * pages/other_tools.py: the mortality weights of the ENPV *)
(* ================================================================== *)

Module Enpv.
Local Open Scope R_scope.

(** Python's [sum] over reals. *)
Definition py_sum (l : list R) : R := fold_left Rplus l 0.

(** Python's [b ** e] on floats, for the cases with a real result:
    a negative base gives a complex number and a zero base with a
    negative exponent raises; both are [None]. *)
Definition float_pow (b e : R) : option R :=
  if Rlt_dec b 0 then None
  else if Req_dec_T b 0 then
    (if Rlt_dec e 0 then None
     else if Req_dec_T e 0 then Some 1 else Some 0)
  else Some (Rpower b e).

(** [SMM = 1 - (1 - enpv_cpr)**(1/12)]. *)
Definition SMM_of_cpr (enpv_cpr : R) : option R :=
  match float_pow (1 - enpv_cpr) (1 / 12) with
  | Some p => Some (1 - p)
  | None => None
  end.

(** [while len(net_gain_pv) < 360: net_gain_pv.append(last_pv)]. *)
Definition extend_to_360 (net_gain_pv : list R) : list R :=
  net_gain_pv ++ repeat (last net_gain_pv 0) (360 - List.length net_gain_pv).

Record mortality_state := mk_mortality_state {
  survival : R;
  mortality : list R;
  npv_times_mortality : list R
}.

(** The body of [for t in range(360)]. *)
Definition mortality_body (SMM : R) (net_gain_pv : list R) (t : nat)
  (s : mortality_state) : mortality_state :=
  let m_t := survival s * SMM in
  let npv_times_mort := nth t net_gain_pv 0 * m_t in
  mk_mortality_state (survival s * (1 - SMM))
    (mortality s ++ [m_t])
    (npv_times_mortality s ++ [npv_times_mort]).

(** [for t in range(first, first + count)]. *)
Fixpoint mortality_loop (SMM : R) (net_gain_pv : list R) (count first : nat)
  (s : mortality_state) : mortality_state :=
  match count with
  | O => s
  | S k =>
      mortality_loop SMM net_gain_pv k (S first)
        (mortality_body SMM net_gain_pv first s)
  end.

(** [l[-1] = v] on a non-empty list. *)
Definition set_last (l : list R) (v : R) : list R := removelast l ++ [v].

(** "Add remaining survival to month 360". *)
Definition fold_residual (net_gain_pv : list R) (s : mortality_state)
  : mortality_state :=
  if Rlt_dec (1 / 1000) (survival s) then
    let mortality' := set_last (mortality s) (last (mortality s) 0 + survival s) in
    let npv' :=
      set_last (npv_times_mortality s)
        (last net_gain_pv 0 * last mortality' 0) in
    mk_mortality_state (survival s) mortality' npv'
  else s.

(** The ENPV block of [render_enpv_analysis], from the CPR and the
    discounted net gains; the result is the final state and [ENPV].
    [None] stands for a CPR above 1, where [SMM] is a complex number. *)
Definition enpv_with_mortality (enpv_cpr : R) (net_gain_pv : list R)
  : option (mortality_state * R) :=
  match SMM_of_cpr enpv_cpr with
  | None => None
  | Some SMM =>
      let net_gain_pv := extend_to_360 net_gain_pv in
      let s := mortality_loop SMM net_gain_pv 360 0
                 (mk_mortality_state 1 [] []) in
      let s := fold_residual net_gain_pv s in
      Some (s, py_sum (npv_times_mortality s))
  end.

End Enpv.

(* ================================================================== *)
(** * utils/optimal_threshold.py *)
(* ================================================================== *)

Module Threshold.
Local Open Scope R_scope.

(** ** Floating-point values and the two kinds of Python numbers *)

(** A binary64 value: a finite real, an infinity or NaN. *)
Inductive fval : Type :=
| Fin (x : R)
| PInf
| NInf
| NaN.

(** [Py] is a Python [float] or [int]; [Np] is a [numpy.float64].
    They differ in division by zero. *)
Inductive kind : Type := Py | Np.

Record num := mk_num { kind_of : kind; val : fval }.

Inductive exn : Type := ZeroDivisionError.

Inductive result (A : Type) : Type :=
| Ok (a : A)
| Raise (e : exn).
Arguments Ok {A} a.
Arguments Raise {A} e.

Definition bind {A B : Type} (m : result A) (k : A -> result B) : result B :=
  match m with
  | Ok a => k a
  | Raise e => Raise e
  end.

Notation "x <- m ;; k" := (bind m (fun x => k))
  (at level 61, m at next level, right associativity).

(** [try: body except: handler]. *)
Definition try_except {A : Type} (body handler : result A) : result A :=
  match body with
  | Ok a => Ok a
  | Raise _ => handler
  end.

(** ** IEEE 754 arithmetic on [fval] *)

(** An infinity with the sign of [x]; NaN when [x] is zero. *)
Definition inf_signed (x : R) : fval :=
  if Rlt_dec 0 x then PInf else if Rlt_dec x 0 then NInf else NaN.

Definition fneg (a : fval) : fval :=
  match a with
  | Fin x => Fin (- x)
  | PInf => NInf
  | NInf => PInf
  | NaN => NaN
  end.

Definition fabs (a : fval) : fval :=
  match a with
  | Fin x => Fin (Rabs x)
  | PInf | NInf => PInf
  | NaN => NaN
  end.

Definition fadd (a b : fval) : fval :=
  match a, b with
  | NaN, _ | _, NaN => NaN
  | Fin x, Fin y => Fin (x + y)
  | PInf, NInf | NInf, PInf => NaN
  | PInf, _ | _, PInf => PInf
  | NInf, _ | _, NInf => NInf
  end.

Definition fsub (a b : fval) : fval := fadd a (fneg b).

Definition fmul (a b : fval) : fval :=
  match a, b with
  | NaN, _ | _, NaN => NaN
  | Fin x, Fin y => Fin (x * y)
  | Fin x, PInf | PInf, Fin x => inf_signed x
  | Fin x, NInf | NInf, Fin x => inf_signed (- x)
  | PInf, PInf | NInf, NInf => PInf
  | PInf, NInf | NInf, PInf => NInf
  end.

(** Division; a zero divisor counts as [+0]. *)
Definition fdiv (a b : fval) : fval :=
  match a, b with
  | NaN, _ | _, NaN => NaN
  | Fin x, Fin y => if Req_dec_T y 0 then inf_signed x else Fin (x / y)
  | Fin _, (PInf | NInf) => Fin 0
  | PInf, Fin y => if Rlt_dec y 0 then NInf else PInf
  | NInf, Fin y => if Rlt_dec y 0 then PInf else NInf
  | (PInf | NInf), (PInf | NInf) => NaN
  end.

Definition fsqrt (a : fval) : fval :=
  match a with
  | Fin x => if Rlt_dec x 0 then NaN else Fin (sqrt x)
  | PInf => PInf
  | NInf | NaN => NaN
  end.

(** The largest argument at which [np.exp] is finite, the logarithm of
    the largest float. *)
Definition exp_overflow : R := 709.782712893383973096.

(** [np.exp]: above [exp_overflow] the result overflows to [inf]. *)
Definition fexp (a : fval) : fval :=
  match a with
  | Fin x => if Rlt_dec exp_overflow x then PInf else Fin (exp x)
  | PInf => PInf
  | NInf => Fin 0
  | NaN => NaN
  end.

(** [a < b]; false whenever NaN is involved. *)
Definition flt (a b : fval) : bool :=
  match a, b with
  | Fin x, Fin y => if Rlt_dec x y then true else false
  | Fin _, PInf | NInf, Fin _ | NInf, PInf => true
  | _, _ => false
  end.

Definition fgt (a b : fval) : bool := flt b a.

Definition fisnan (a : fval) : bool :=
  match a with
  | NaN => true
  | _ => false
  end.

Definition fis_zero (a : fval) : bool :=
  match a with
  | Fin x => if Req_dec_T x 0 then true else false
  | _ => false
  end.

(** ** The Lambert-W function of [scipy.special] *)

(** The principal real branch: for [y >= -1/e], the solution [w >= -1]
    of [w * exp w = y]. *)
Definition W0 (y : R) : R :=
  epsilon (inhabits 0) (fun w => -1 <= w /\ w * exp w = y).

(** Below [-1/e] the principal value is the complex number
    [xi + i*eta] with [0 < eta < PI] and
    [(xi + i*eta) * exp (xi + i*eta) = y]; this is its real part [xi]. *)
Definition W0_complex_real_part (y : R) : R :=
  epsilon (inhabits 0)
    (fun xi => exists eta, 0 < eta < PI /\
       exp xi * (xi * cos eta - eta * sin eta) = y /\
       exp xi * (xi * sin eta + eta * cos eta) = 0).

(** [np.real(lambertw(y, k=0))] at a finite real argument. *)
Definition lambertw_real (y : R) : R :=
  if Rle_dec (- exp (- 1)) y then W0 y else W0_complex_real_part y.

(** [np.real(lambertw(a, k=0))]: [lambertw] maps [inf] to [inf] and
    [-inf] to [inf + pi*1j].  At the branch point [-1/e] its iteration
    starts from [w = -1], where the update divides zero by zero, and
    the result is NaN. *)
Definition flambertw_real (a : fval) : fval :=
  match a with
  | Fin y => if Req_dec_T y (- exp (- 1)) then NaN else Fin (lambertw_real y)
  | PInf | NInf => PInf
  | NaN => NaN
  end.

(** ** Arithmetic on Python numbers *)

(** An operation with a numpy operand gives a numpy result. *)
Definition join (k1 k2 : kind) : kind :=
  match k1, k2 with
  | Py, Py => Py
  | _, _ => Np
  end.

(** A literal such as [2], [100] or [10000]. *)
Definition lit (x : R) : num := mk_num Py (Fin x).

Definition nneg (a : num) : num := mk_num (kind_of a) (fneg (val a)).
Definition nabs (a : num) : num := mk_num (kind_of a) (fabs (val a)).

Definition nadd (a b : num) : num :=
  mk_num (join (kind_of a) (kind_of b)) (fadd (val a) (val b)).
Definition nsub (a b : num) : num :=
  mk_num (join (kind_of a) (kind_of b)) (fsub (val a) (val b)).
Definition nmul (a b : num) : num :=
  mk_num (join (kind_of a) (kind_of b)) (fmul (val a) (val b)).

(** [a / b]: Python raises on a zero divisor when both operands are
    Python numbers; numpy follows IEEE 754 (with a warning). *)
Definition ndiv (a b : num) : result num :=
  match join (kind_of a) (kind_of b) with
  | Py =>
      if fis_zero (val b) then Raise ZeroDivisionError
      else Ok (mk_num Py (fdiv (val a) (val b)))
  | Np => Ok (mk_num Np (fdiv (val a) (val b)))
  end.

Definition np_sqrt (a : num) : num := mk_num Np (fsqrt (val a)).
Definition np_exp (a : num) : num := mk_num Np (fexp (val a)).
Definition np_real_lambertw (a : num) : num := mk_num Np (flambertw_real (val a)).
Definition np_isnan (a : num) : bool := fisnan (val a).
(** [np.nan] is a Python float. *)
Definition np_nan : num := mk_num Py NaN.

Definition nlt (a b : num) : bool := flt (val a) (val b).
Definition ngt (a b : num) : bool := fgt (val a) (val b).

(** ** The functions of the module *)

Definition calculate_lambda (mu i0 Gamma pi : num) : result num :=
  if nlt (nmul i0 Gamma) (lit 100) then
    d <- ndiv i0 (nsub (np_exp (nmul i0 Gamma)) (lit 1)) ;;
    Ok (nadd (nadd mu d) pi)
  else
    Ok (nadd mu pi).

Definition calculate_kappa (M points fixed_cost tau : num) : num :=
  let kappa := nadd fixed_cost (nmul points M) in
  kappa.

(** The result is the tuple [(x_star, psi, phi, C_M)]. *)
Definition calculate_optimal_threshold (M rho lambda_val sigma kappa tau : num)
  : result (num * num * num * num) :=
  psi <- ndiv (np_sqrt (nmul (lit 2) (nadd rho lambda_val))) sigma ;;
  C_M <- ndiv kappa (nsub (lit 1) tau) ;;
  q <- ndiv (nmul (nmul psi (nadd rho lambda_val)) C_M) M ;;
  let phi := nadd (lit 1) q in
  x_star <-
    try_except
      (let w_arg := nneg (np_exp (nneg phi)) in
       let w_val := np_real_lambertw w_arg in
       inv_psi <- ndiv (lit 1) psi ;;
       Ok (nmul inv_psi (nadd phi w_val)))
      (Ok np_nan) ;;
  Ok (x_star, psi, phi, C_M).

Definition calculate_square_root_approximation
  (M rho lambda_val sigma kappa tau : num) : result num :=
  q <- ndiv kappa (nmul M (nsub (lit 1) tau)) ;;
  let sqrt_term :=
    nmul (nmul sigma (np_sqrt q))
         (np_sqrt (nmul (lit 2) (nadd rho lambda_val))) in
  Ok (nneg sqrt_term).

Definition calculate_npv_threshold (M rho lambda_val kappa tau : num)
  : result num :=
  C_M <- ndiv kappa (nsub (lit 1) tau) ;;
  x_npv <- ndiv (nmul (nneg (nadd rho lambda_val)) C_M) M ;;
  Ok x_npv.

(** The dictionary returned by [calculate_trigger_rate]. *)
Record trigger_result := mk_trigger_result {
  optimal_threshold_bps : option num;
  trigger_rate : option num;
  trigger_rate_pct : option num;
  x_star : num;
  sqrt_approx_bps : num;
  npv_threshold_bps : num;
  lambda : num;
  kappa : num;
  psi : num;
  phi : num;
  C_M : num;
  current_rate : num;
  current_rate_pct : num
}.

(** Truth value of an optional float: [None] and zero are false. *)
Definition truthy (a : option num) : bool :=
  match a with
  | None => false
  | Some n => negb (fis_zero (val n))
  end.

(** The body of [calculate_trigger_rate] after the conversion of
    [current_rate]. *)
Definition trigger_rate_of_decimal
  (current_rate remaining_balance remaining_years discount_rate volatility
     tax_rate fixed_cost points prob_moving inflation_rate : num)
  : result trigger_result :=
  lambda_val <- calculate_lambda prob_moving current_rate remaining_years
                  inflation_rate ;;
  let kappa := calculate_kappa remaining_balance points fixed_cost tax_rate in
  t <- calculate_optimal_threshold remaining_balance discount_rate lambda_val
         volatility kappa tax_rate ;;
  let '(x_star, psi, phi, C_M) := t in
  x_star_sqrt <- calculate_square_root_approximation remaining_balance
                   discount_rate lambda_val volatility kappa tax_rate ;;
  x_npv <- calculate_npv_threshold remaining_balance discount_rate lambda_val
             kappa tax_rate ;;
  let x_star_bp :=
    if negb (np_isnan x_star) then Some (nmul (nneg x_star) (lit 10000))
    else None in
  let x_star_sqrt_bp := nmul (nneg x_star_sqrt) (lit 10000) in
  let x_npv_bp := nmul (nneg x_npv) (lit 10000) in
  let trigger_rate :=
    match x_star_bp with
    | Some _ => Some (nsub current_rate (nabs x_star))
    | None => None
    end in
  Ok (mk_trigger_result
        x_star_bp
        trigger_rate
        (if truthy trigger_rate
         then option_map (fun t => nmul t (lit 100)) trigger_rate
         else None)
        x_star x_star_sqrt_bp x_npv_bp lambda_val kappa psi phi C_M
        current_rate (nmul current_rate (lit 100))).

Definition calculate_trigger_rate
  (current_rate remaining_balance remaining_years discount_rate volatility
     tax_rate fixed_cost points prob_moving inflation_rate : num)
  : result trigger_result :=
  let current_rate :=
    if ngt current_rate (lit 1)
    then mk_num (kind_of current_rate) (fdiv (val current_rate) (Fin 100))
    else current_rate in
  trigger_rate_of_decimal current_rate remaining_balance remaining_years
    discount_rate volatility tax_rate fixed_cost points prob_moving
    inflation_rate.

(** The dictionary returned by [is_ready_to_refinance]. *)
Record readiness := mk_readiness {
  is_ready : bool;
  difference : option num;
  difference_bps : option num;
  message : string
}.

Section Readiness.

(** Python's [format(x, '.0f')], a service of the runtime. *)
Variable format_0f : num -> string.

Definition is_ready_to_refinance (trigger_rate available_rate : option num)
  : readiness :=
  match trigger_rate, available_rate with
  | Some trigger_rate, Some available_rate =>
      let difference := nsub trigger_rate available_rate in
      let difference_bps := nmul difference (lit 10000) in
      if ngt difference (lit 0) then
        mk_readiness true (Some difference) (Some difference_bps)
          ("Ready to refinance! Available rate is "
             ++ format_0f difference_bps ++ " bps below trigger.")%string
      else
        mk_readiness false (Some difference) (Some difference_bps)
          ("Not ready. Need rates to drop "
             ++ format_0f (nneg difference_bps) ++ " more bps.")%string
  | _, _ =>
      mk_readiness false None None "Missing rate data"%string
  end.

End Readiness.

End Threshold.


(* ================================================================== *)
(** * Vocabulary of the statements *)
(* ================================================================== *)

Section LlpaVocabulary.
Import PyDict.
Local Open Scope string_scope.
Local Open Scope Q_scope.

Definition ltv_buckets : list string :=
  ["<=30"; "30.01-60"; "60.01-70"; "70.01-75"; "75.01-80"; "80.01-85";
   "85.01-90"; "90.01-95"; ">95"].

Definition score_buckets : list string :=
  [">=780"; "760-779"; "740-759"; "720-739"; "700-719"; "680-699";
   "660-679"; "640-659"; "<=639"].

(** The "Total LLPA" entry of each engine's result. *)
Definition conventional_total cs ltv la purpose pt occ : option Q :=
  match RateCalculator.calculate_conventional_llpa cs ltv la purpose pt occ with
  | Some adj => get "Total LLPA" adj
  | None => None
  end.

Definition full_engine_total cs ltv la purpose pt occ is_arm cltv hr ftb : option Q :=
  match Llpa.calculate_total_llpa cs ltv la purpose pt occ is_arm cltv hr ftb with
  | Some adj =>
      match get "Total LLPA" adj with
      | Some (Llpa.Num q) => Some q
      | _ => None
      end
  | None => None
  end.

(** Inputs as [calculate_conventional_llpa] reads them. *)
Definition purpose_as_priced (purpose : string) : string :=
  if purpose =? "Purchase" then "Purchase" else "Rate/Term Refinance".

Definition property_as_priced (pt : string) : string :=
  if (pt =? "Condo") || mem pt ["2-Unit"; "3-Unit"; "4-Unit"] then pt
  else "Single Family".

Definition opt_Qeq (a b : option Q) : Prop :=
  match a, b with
  | Some x, Some y => x == y
  | _, _ => False
  end.

(** The four category entries [calculate_conventional_llpa] looks up. *)
Definition rc_credit_score_ltv (cs : Z) (ltv : Q) (purpose : string) : Q :=
  get_default (RateCalculator.get_ltv_bucket ltv) 0.0
    (get_default (RateCalculator.get_credit_score_bucket cs) []
       (if purpose =? "Purchase" then RateCalculator.PURCHASE_CREDIT_SCORE_LTV
        else RateCalculator.LIMITED_CASHOUT_CREDIT_SCORE_LTV)).

Definition rc_property_type (pt : string) (ltv : Q) : Q :=
  if pt =? "Condo"
  then get_default (RateCalculator.get_ltv_bucket ltv) 0.0 RateCalculator.PURCHASE_CONDO
  else if mem pt ["2-Unit"; "3-Unit"; "4-Unit"]
  then get_default (RateCalculator.get_ltv_bucket ltv) 0.0 RateCalculator.PURCHASE_2_TO_4_UNIT
  else 0.0.

Definition rc_occupancy (occ : string) (ltv : Q) : Q :=
  if occ =? "Investment Property"
  then get_default (RateCalculator.get_ltv_bucket ltv) 0.0 RateCalculator.PURCHASE_INVESTMENT
  else if occ =? "Second Home"
  then get_default (RateCalculator.get_ltv_bucket ltv) 0.0 RateCalculator.PURCHASE_SECOND_HOME
  else 0.0.

Definition rc_high_balance (la ltv : Q) : Q :=
  if Qgt_bool la RateCalculator.CONFORMING_LIMIT_2025
  then get_default (RateCalculator.get_ltv_bucket ltv) 0.0 RateCalculator.PURCHASE_HIGH_BALANCE_FIXED
  else 0.0.

End LlpaVocabulary.

Section AmortizationVocabulary.
Import Amortization.
Local Open Scope Q_scope.

(** How one month changes the balance of a loan with term [n], monthly
    rate [r] and payment [pmt]: the update [loop_body] applies to the
    old loan and to the new loan alike. *)
Definition amortize_month (n : Z) (r pmt : Q) (t : Z) (bal : Q) : Q :=
  if (t <=? n)%Z && Qgt_bool bal 0 then max0 (bal - (pmt - r * bal)) else 0.

(** What the record of month [t] shows as the payment of a loan whose
    balance before the month is [bal]. *)
Definition month_payment (n : Z) (r pmt tau : Q) (tax : bool) (t : Z) (bal : Q)
  : Q :=
  if (t <=? n)%Z && Qgt_bool bal 0 then
    (if tax then pmt - r * bal * tau else pmt)
  else 0.

(** The balance of a zero-rate loan of principal [P] after [k] months. *)
Definition zero_rate_invariant (P : Q) (n : Z) (k : nat) (b : Q) : Prop :=
  (P <= 0 /\ ((k = O /\ b == P) \/ b == 0)) \/
  (0 < P /\ b == P - inject_Z (Z.of_nat k) * (P / inject_Z n)).

End AmortizationVocabulary.

Section ThresholdVocabulary.
Import Threshold.
Local Open Scope R_scope.

(** The function inverted by Lambert W. *)
Definition wexp (w : R) : R := w * exp w.

(** [phi + W0(-exp(-phi))], the bracket of equation (12). *)
Definition gap (phi : R) : R := phi + W0 (- exp (- phi)).

End ThresholdVocabulary.

Section LlpaTablesVocabulary.
Import PyDict.
Local Open Scope string_scope.
Local Open Scope Q_scope.

(** The buckets [get_ltv_bucket_cashout] can return. *)
Definition cashout_buckets : list string :=
  ["<=30"; "30.01-60"; "60.01-70"; "70.01-75"; "75.01-80"].

(** The table and the LTV bucket [get_credit_score_ltv_adjustment]
    uses for a loan purpose. *)
Definition credit_table (purpose : string) : dict (dict Q) :=
  if purpose =? "Purchase" then Llpa.PURCHASE_CREDIT_SCORE_LTV
  else if purpose =? "Rate/Term Refinance" then Llpa.LIMITED_CASHOUT_CREDIT_SCORE_LTV
  else if purpose =? "Cash-Out Refinance" then Llpa.CASHOUT_CREDIT_SCORE_LTV
  else [].

Definition purpose_bucket (purpose : string) (ltv : Q) : string :=
  if purpose =? "Cash-Out Refinance" then Llpa.get_ltv_bucket_cashout ltv
  else Llpa.get_ltv_bucket ltv.

(** An entry of a two-level table, [0] where there is none. *)
Definition entry (t : dict (dict Q)) (sb lb : string) : Q :=
  get_default lb 0.0 (get_default sb [] t).

(** All pairs of an item of [l1] and an item of [l2]. *)
Definition all_pairs {A B : Type} (l1 : list A) (l2 : list B) : list (A * B) :=
  flat_map (fun a => map (pair a) l2) l1.

(** The pairs (bucket of a score, bucket of a score at least as high). *)
Definition score_order : list (string * string) :=
  flat_map (fun i => map (fun j => (nth i score_buckets "", nth j score_buckets ""))
                       (seq 0 (S i)))
           (seq 0 9).

(** The pairs (bucket, cash-out bucket) of one LTV. *)
Definition ltv_cashout_pairs : list (string * string) :=
  [("<=30", "<=30"); ("30.01-60", "30.01-60"); ("60.01-70", "60.01-70");
   ("70.01-75", "70.01-75"); ("75.01-80", "75.01-80"); ("80.01-85", "75.01-80");
   ("85.01-90", "75.01-80"); ("90.01-95", "75.01-80"); (">95", "75.01-80")].

(** The Total LLPA of [calculate_total_llpa] without a waiver. *)
Definition llpa_total cs ltv la purpose pt occ is_arm cltv : option Q :=
  full_engine_total cs ltv la purpose pt occ is_arm cltv false false.

(** The row [get_property_type_adjustment] reads for a property type,
    and the row [get_occupancy_adjustment] reads for an occupancy. *)
Definition property_row (property_type : string) : dict Q :=
  if property_type =? "Condo" then Llpa.CONDO_ADJUSTMENT
  else if mem property_type ["2-Unit"; "3-Unit"; "4-Unit"]
       then Llpa.MULTI_UNIT_ADJUSTMENT
  else if property_type =? "Manufactured Home" then Llpa.MANUFACTURED_ADJUSTMENT
  else [].

Definition occupancy_row (occupancy : string) : dict Q :=
  if occupancy =? "Investment Property" then Llpa.INVESTMENT_PROPERTY_ADJUSTMENT
  else if occupancy =? "Second Home" then Llpa.SECOND_HOME_ADJUSTMENT
  else [].

End LlpaTablesVocabulary.

Section GridVocabulary.
Import PyDict.
Local Open Scope string_scope.
Local Open Scope Q_scope.

(** Descending order of the keys of keyed items, and of the rates of
    rows. *)
Definition key_desc {A : Type} (a b : Q * A) : Prop := fst b <= fst a.
Definition rate_desc (a b : RateCalculator.rate_row) : Prop :=
  RateCalculator.rate b <= RateCalculator.rate a.

(** The LLPA points [get_available_rates_with_points] adds to every
    row: the Total LLPA for a Conventional loan type, nothing
    otherwise. *)
Definition grid_llpa (cs : Z) (ltv la : Q) (lt pt occ : string) : Q :=
  if RateCalculator.upper lt =? "CONVENTIONAL"
  then py_sum [rc_credit_score_ltv cs ltv "Rate/Term Refinance";
               rc_property_type pt ltv; rc_occupancy occ ltv;
               rc_high_balance la ltv]
  else 0.0.

(** The row [get_available_rates_with_points] builds from one keyed
    item of the grid. *)
Definition grid_row (format_3f : Q -> string) (llpa_points loan_amount : Q)
  (item : Q * (string * Q)) : RateCalculator.rate_row :=
  let '(rate, (rate_str, base_points)) := item in
  let total_points := base_points + llpa_points in
  let total_cost := total_points * loan_amount / 100 in
  RateCalculator.mk_rate_row rate (format_3f rate ++ "%") base_points
    llpa_points total_points total_cost
    (Qgt_bool 0.001 (Qabs base_points))
    (Qgt_bool 0 total_points)
    (Qgt_bool total_points 0).

(** A grid of three rates, with a reader for its keys. *)
Definition sample_grid : dict Q :=
  [("6.000", 1.25); ("6.500", 0); ("6.250", 0.5)].

Definition sample_float_of_string (s : string) : option Q :=
  if s =? "6.000" then Some 6
  else if s =? "6.250" then Some 6.25
  else if s =? "6.500" then Some 6.5
  else None.

End GridVocabulary.

Section ScheduleVocabulary.
Import Amortization.
Local Open Scope Q_scope.

(** The balance a level-payment loan of principal [P], monthly rate [r]
    and term [n] has left after [k] payments. *)
Definition remaining_balance (P r : Q) (n k : Z) : Q :=
  P * (Qpower (1 + r) n - Qpower (1 + r) k) / (Qpower (1 + r) n - 1).

End ScheduleVocabulary.

Section EnpvVocabulary.
Import Enpv.
Local Open Scope R_scope.

(** The weight the loop gives month [t] for a monthly prepayment rate
    [SMM]: survival to [t], prepayment in [t]. *)
Definition month_weight (SMM : R) (t : nat) : R := 1 * (1 - SMM) ^ t * SMM.

(** The sum of the weighted gains of the months below [n]. *)
Definition weighted_gains (SMM : R) (pv : list R) (n : nat) : R :=
  py_sum (map (fun t => nth t pv 0 * month_weight SMM t) (seq 0 n)).

End EnpvVocabulary.


(* ================================================================== *)
(** * The LLPA engines and the available rate *)
(* ================================================================== *)

Section LlpaFacts.
Import PyDict.
Local Open Scope string_scope.
Local Open Scope Q_scope.

Lemma rc_ltv_bucket_in ltv : In (RateCalculator.get_ltv_bucket ltv) ltv_buckets.
Proof.
  unfold RateCalculator.get_ltv_bucket.
  repeat match goal with |- context [Qle_bool ?a ?b] => destruct (Qle_bool a b) end;
    simpl; tauto.
Qed.

Lemma rc_score_bucket_in cs : In (RateCalculator.get_credit_score_bucket cs) score_buckets.
Proof.
  unfold RateCalculator.get_credit_score_bucket.
  repeat match goal with |- context [Z.leb ?a ?b] => destruct (Z.leb a b) end;
    simpl; tauto.
Qed.

(** A table subscript made with a computed bucket succeeds. *)
Lemma get_row_total (t : dict Q) b :
  In b ltv_buckets -> map fst t = ltv_buckets -> exists q, get b t = Some q.
Proof.
  intros Hb Ht.
  destruct t as [|[k1 v1] [|[k2 v2] [|[k3 v3] [|[k4 v4] [|[k5 v5] [|[k6 v6] [|[k7 v7] [|[k8 v8] [|[k9 v9] [|]]]]]]]]]]; try discriminate.
  simpl in Ht. inversion Ht; subst.
  simpl in Hb.
  repeat (destruct Hb as [<-|Hb]; [vm_compute; eauto|]). contradiction.
Qed.

Lemma get_row_default (t : dict Q) b :
  In b ltv_buckets -> map fst t = ltv_buckets -> get b t = Some (get_default b 0.0 t).
Proof.
  intros Hb Ht. destruct (get_row_total t b Hb Ht) as [q Hq].
  unfold get_default. now rewrite Hq.
Qed.

Lemma get2_default (t : dict (dict Q)) sb lb :
  In sb score_buckets -> In lb ltv_buckets ->
  map fst t = score_buckets ->
  Forall (fun row => map fst (snd row) = ltv_buckets) t ->
  get2 sb lb t = Some (get_default lb 0.0 (get_default sb [] t)).
Proof.
  intros Hs Hl Ht Hrows.
  assert (Hrow : exists row, get sb t = Some row /\ map fst row = ltv_buckets).
  { clear Hl. revert Hs. rewrite <- Ht. clear Ht.
    induction t as [|[k v] t IH]; simpl; [tauto|].
    inversion Hrows; subst. intros [->|Hin].
    - rewrite String.eqb_refl. eauto.
    - destruct (sb =? k); eauto. }
  destruct Hrow as [row [Hg Hr]].
  assert (Hd : get_default sb [] t = row) by (unfold get_default; now rewrite Hg).
  rewrite Hd. unfold get2. rewrite Hg.
  now apply get_row_default.
Qed.

Lemma rows_ok_purchase :
  map fst RateCalculator.PURCHASE_CREDIT_SCORE_LTV = score_buckets /\
  Forall (fun row => map fst (snd row) = ltv_buckets) RateCalculator.PURCHASE_CREDIT_SCORE_LTV.
Proof. split; [reflexivity | repeat constructor]. Qed.

Lemma rows_ok_limited :
  map fst RateCalculator.LIMITED_CASHOUT_CREDIT_SCORE_LTV = score_buckets /\
  Forall (fun row => map fst (snd row) = ltv_buckets) RateCalculator.LIMITED_CASHOUT_CREDIT_SCORE_LTV.
Proof. split; [reflexivity | repeat constructor]. Qed.

(** The result of [calculate_conventional_llpa], entry by entry: the
    function never fails, and "Total LLPA" is the sum of the four
    categories. *)
Lemma conventional_llpa_breakdown cs ltv la purpose pt occ :
  RateCalculator.calculate_conventional_llpa cs ltv la purpose pt occ =
  Some [("Credit Score / LTV", rc_credit_score_ltv cs ltv purpose);
        ("Property Type", rc_property_type pt ltv);
        ("Occupancy", rc_occupancy occ ltv);
        ("High Balance", rc_high_balance la ltv);
        ("Total LLPA",
          py_sum [rc_credit_score_ltv cs ltv purpose; rc_property_type pt ltv;
                  rc_occupancy occ ltv; rc_high_balance la ltv])].
Proof.
  pose proof (rc_ltv_bucket_in ltv) as Hl.
  pose proof (rc_score_bucket_in cs) as Hs.
  destruct rows_ok_purchase as [P1 P2]. destruct rows_ok_limited as [L1 L2].
  unfold RateCalculator.calculate_conventional_llpa.
  assert (E1 : (if purpose =? "Purchase"
     then get2 (RateCalculator.get_credit_score_bucket cs) (RateCalculator.get_ltv_bucket ltv) RateCalculator.PURCHASE_CREDIT_SCORE_LTV
     else get2 (RateCalculator.get_credit_score_bucket cs) (RateCalculator.get_ltv_bucket ltv) RateCalculator.LIMITED_CASHOUT_CREDIT_SCORE_LTV)
     = Some (rc_credit_score_ltv cs ltv purpose)).
  { unfold rc_credit_score_ltv. destruct (purpose =? "Purchase"); now apply get2_default. }
  assert (E2 : (if pt =? "Condo" then get (RateCalculator.get_ltv_bucket ltv) RateCalculator.PURCHASE_CONDO
     else if mem pt ["2-Unit"; "3-Unit"; "4-Unit"]
          then get (RateCalculator.get_ltv_bucket ltv) RateCalculator.PURCHASE_2_TO_4_UNIT
     else Some 0.0) = Some (rc_property_type pt ltv)).
  { unfold rc_property_type. destruct (pt =? "Condo"); [now apply get_row_default|].
    destruct (mem pt _); [now apply get_row_default|reflexivity]. }
  assert (E3 : (if occ =? "Investment Property" then get (RateCalculator.get_ltv_bucket ltv) RateCalculator.PURCHASE_INVESTMENT
     else if occ =? "Second Home" then get (RateCalculator.get_ltv_bucket ltv) RateCalculator.PURCHASE_SECOND_HOME
     else Some 0.0) = Some (rc_occupancy occ ltv)).
  { unfold rc_occupancy. destruct (occ =? "Investment Property"); [now apply get_row_default|].
    destruct (occ =? "Second Home"); [now apply get_row_default|reflexivity]. }
  assert (E4 : (if Qgt_bool la RateCalculator.CONFORMING_LIMIT_2025
     then get (RateCalculator.get_ltv_bucket ltv) RateCalculator.PURCHASE_HIGH_BALANCE_FIXED
     else Some 0.0) = Some (rc_high_balance la ltv)).
  { unfold rc_high_balance. destruct (Qgt_bool la _); [now apply get_row_default|reflexivity]. }
  cbv zeta. rewrite E1, E2, E3, E4. reflexivity.
Qed.

Lemma cashout_bucket_in ltv :
  In (Llpa.get_ltv_bucket_cashout ltv)
     ["<=30"; "30.01-60"; "60.01-70"; "70.01-75"; "75.01-80"].
Proof.
  unfold Llpa.get_ltv_bucket_cashout.
  repeat match goal with |- context [Qle_bool ?a ?b] => destruct (Qle_bool a b) end;
    simpl; tauto.
Qed.

(** [get_credit_score_ltv_adjustment] never raises [KeyError]. *)
Lemma get_credit_score_ltv_adjustment_total cs ltv purpose :
  exists c, Llpa.get_credit_score_ltv_adjustment cs ltv purpose = Some c.
Proof.
  unfold Llpa.get_credit_score_ltv_adjustment.
  destruct rows_ok_purchase as [P1 P2]. destruct rows_ok_limited as [L1 L2].
  pose proof (rc_ltv_bucket_in ltv) as Hl.
  pose proof (rc_score_bucket_in cs) as Hs.
  destruct (purpose =? "Purchase").
  { eexists. now apply get2_default. }
  destruct (purpose =? "Rate/Term Refinance").
  { eexists. now apply get2_default. }
  destruct (purpose =? "Cash-Out Refinance"); [|eauto].
  pose proof (cashout_bucket_in ltv) as Hc.
  change Llpa.get_credit_score_bucket with RateCalculator.get_credit_score_bucket.
  revert Hs Hc.
  generalize (RateCalculator.get_credit_score_bucket cs) (Llpa.get_ltv_bucket_cashout ltv).
  intros sb lb Hs Hc. simpl in Hs, Hc.
  repeat (destruct Hs as [<-|Hs]; [|]); try contradiction;
  repeat (destruct Hc as [<-|Hc]; [|]); try contradiction; vm_compute; eauto.
Qed.

(** The result of [calculate_total_llpa] without a waiver. *)
Lemma total_llpa_breakdown cs ltv la purpose pt occ is_arm cltv c :
  Llpa.get_credit_score_ltv_adjustment cs ltv purpose = Some c ->
  let p := Llpa.get_property_type_adjustment pt ltv purpose in
  let o := Llpa.get_occupancy_adjustment occ ltv purpose in
  let h := Llpa.get_high_balance_adjustment la ltv is_arm in
  let s := Llpa.get_subordinate_financing_adjustment ltv
             (match cltv with None => ltv | Some x => x end) in
  Llpa.calculate_total_llpa cs ltv la purpose pt occ is_arm cltv false false =
  Some [("Credit Score / LTV", Llpa.Num c);
        ("Property Type", Llpa.Num p);
        ("Occupancy", Llpa.Num o);
        ("High Balance", Llpa.Num h);
        ("Subordinate Financing", Llpa.Num s);
        ("Total LLPA", Llpa.Num (py_sum [c; p; o; h; s]));
        ("LLPA Waiver Applied", Llpa.Bool false)].
Proof.
  intros Hc p o h s. unfold Llpa.calculate_total_llpa. rewrite Hc. reflexivity.
Qed.

Lemma credit_as_priced cs ltv purpose :
  Llpa.get_credit_score_ltv_adjustment cs ltv (purpose_as_priced purpose) =
  Some (rc_credit_score_ltv cs ltv purpose).
Proof.
  destruct rows_ok_purchase as [P1 P2]. destruct rows_ok_limited as [L1 L2].
  pose proof (rc_ltv_bucket_in ltv) as Hl.
  pose proof (rc_score_bucket_in cs) as Hs.
  unfold Llpa.get_credit_score_ltv_adjustment, purpose_as_priced, rc_credit_score_ltv.
  destruct (purpose =? "Purchase"); simpl; now apply get2_default.
Qed.

Lemma purpose_as_priced_not_cashout purpose :
  (purpose_as_priced purpose =? "Cash-Out Refinance") = false.
Proof. unfold purpose_as_priced. now destruct (purpose =? "Purchase"). Qed.

Lemma property_as_priced_eq pt ltv purpose :
  Llpa.get_property_type_adjustment (property_as_priced pt) ltv (purpose_as_priced purpose)
  = rc_property_type pt ltv.
Proof.
  unfold Llpa.get_property_type_adjustment, rc_property_type, property_as_priced.
  rewrite purpose_as_priced_not_cashout.
  destruct (pt =? "Condo") eqn:Hc; cbn [orb].
  { rewrite Hc. reflexivity. }
  destruct (mem pt ["2-Unit"; "3-Unit"; "4-Unit"]) eqn:Hm.
  { rewrite Hc, Hm. reflexivity. }
  reflexivity.
Qed.

Lemma occupancy_as_priced_eq occ ltv purpose :
  Llpa.get_occupancy_adjustment occ ltv (purpose_as_priced purpose) = rc_occupancy occ ltv.
Proof.
  unfold Llpa.get_occupancy_adjustment, rc_occupancy.
  rewrite purpose_as_priced_not_cashout. reflexivity.
Qed.

Lemma high_balance_fixed_eq la ltv :
  Llpa.get_high_balance_adjustment la ltv false = rc_high_balance la ltv.
Proof.
  unfold Llpa.get_high_balance_adjustment, rc_high_balance, Qgt_bool.
  change Llpa.CONFORMING_LIMIT_2025 with RateCalculator.CONFORMING_LIMIT_2025.
  now destruct (Qle_bool la RateCalculator.CONFORMING_LIMIT_2025).
Qed.

Lemma no_subordinate ltv c :
  c == ltv -> Llpa.get_subordinate_financing_adjustment ltv c = 0.0.
Proof.
  intros H. unfold Llpa.get_subordinate_financing_adjustment.
  assert (E : Qle_bool c ltv = true) by (apply Qle_bool_iff; rewrite H; apply Qle_refl).
  now rewrite E.
Qed.

Lemma conventional_total_eq cs ltv la purpose pt occ :
  conventional_total cs ltv la purpose pt occ =
  Some (py_sum [rc_credit_score_ltv cs ltv purpose; rc_property_type pt ltv;
                rc_occupancy occ ltv; rc_high_balance la ltv]).
Proof.
  unfold conventional_total. rewrite conventional_llpa_breakdown. reflexivity.
Qed.

Lemma full_total_as_priced cs ltv la purpose pt occ cltv :
  (match cltv with None => ltv | Some x => x end) == ltv ->
  full_engine_total cs ltv la (purpose_as_priced purpose) (property_as_priced pt)
    occ false cltv false false =
  Some (py_sum [rc_credit_score_ltv cs ltv purpose; rc_property_type pt ltv;
                rc_occupancy occ ltv; rc_high_balance la ltv; 0.0]).
Proof.
  intros Hc. unfold full_engine_total.
  rewrite (total_llpa_breakdown _ _ _ _ _ _ _ _ _ (credit_as_priced cs ltv purpose)).
  rewrite property_as_priced_eq, occupancy_as_priced_eq, high_balance_fixed_eq,
    (no_subordinate _ _ Hc).
  reflexivity.
Qed.

Lemma purpose_in_class purpose :
  purpose = "Purchase" \/ purpose = "Rate/Term Refinance" ->
  purpose_as_priced purpose = purpose.
Proof. intros [->| ->]; reflexivity. Qed.

Lemma property_in_class pt :
  In pt ["Single Family"; "Condo"; "2-Unit"; "3-Unit"; "4-Unit"] ->
  property_as_priced pt = pt.
Proof.
  simpl. intros [<-|[<-|[<-|[<-|[<-|[]]]]]]; reflexivity.
Qed.

(** C10.  On the restricted class (purpose Purchase or Rate/Term
    Refinance, property type Single Family, Condo, 2-Unit, 3-Unit or
    4-Unit, fixed rate, CLTV equal to the LTV or absent, no waiver) the
    Total LLPA of [RateCalculator.calculate_conventional_llpa] equals
    the Total LLPA of [Llpa.calculate_total_llpa].  On every input,
    [calculate_conventional_llpa] prices the loan as the full engine
    prices a fixed-rate loan without subordinate financing or waiver,
    with any purpose other than Purchase read as Rate/Term Refinance
    and any property type other than Condo and 2- to 4-Unit read as
    Single Family; its total is the sum of four table entries only
    (credit score by LTV, property type, occupancy, high balance), so
    no subordinate-financing, cash-out, manufactured-home, high-balance
    ARM or waiver handling is ever applied. *)
Theorem llpa_engines_agree cs ltv la purpose pt occ cltv :
  (purpose = "Purchase" \/ purpose = "Rate/Term Refinance" ->
   In pt ["Single Family"; "Condo"; "2-Unit"; "3-Unit"; "4-Unit"] ->
   (match cltv with None => ltv | Some x => x end) == ltv ->
   opt_Qeq (conventional_total cs ltv la purpose pt occ)
           (full_engine_total cs ltv la purpose pt occ false cltv false false))
  /\ opt_Qeq (conventional_total cs ltv la purpose pt occ)
             (full_engine_total cs ltv la (purpose_as_priced purpose)
                (property_as_priced pt) occ false None false false)
  /\ conventional_total cs ltv la purpose pt occ =
     Some (py_sum [rc_credit_score_ltv cs ltv purpose; rc_property_type pt ltv;
                   rc_occupancy occ ltv; rc_high_balance la ltv]).
Proof.
  assert (G : forall c, (match c with None => ltv | Some x => x end) == ltv ->
    opt_Qeq (conventional_total cs ltv la purpose pt occ)
             (full_engine_total cs ltv la (purpose_as_priced purpose)
                (property_as_priced pt) occ false c false false)).
  { intros c Hc. rewrite conventional_total_eq, (full_total_as_priced _ _ _ _ _ _ _ Hc).
    unfold opt_Qeq, py_sum. simpl. ring. }
  split; [|split].
  - intros Hp Ht Hc. specialize (G cltv Hc).
    now rewrite (purpose_in_class _ Hp), (property_in_class _ Ht) in G.
  - apply (G None). reflexivity.
  - apply conventional_total_eq.
Qed.

(** The agreement on a high-balance condo bought as a second home. *)
Lemma llpa_engines_agree_witness :
  ("Purchase" = "Purchase" \/ "Purchase" = "Rate/Term Refinance") /\
  In "Condo" ["Single Family"; "Condo"; "2-Unit"; "3-Unit"; "4-Unit"] /\
  opt_Qeq (conventional_total 705 82.5 900000 "Purchase" "Condo" "Second Home")
          (full_engine_total 705 82.5 900000 "Purchase" "Condo" "Second Home"
             false (Some 82.5) false false).
Proof.
  split; [left; reflexivity|]. split; [simpl; tauto|].
  apply (proj1 (llpa_engines_agree 705 82.5 900000 "Purchase" "Condo" "Second Home" (Some 82.5))).
  - left; reflexivity.
  - simpl; tauto.
  - reflexivity.
Defined.

(** The same loan, entry by entry. *)
Example conventional_total_705 :
  conventional_total 705 82.5 900000 "Purchase" "Condo" "Second Home" = Some (0 + 1.500 + 0.750 + 4.125 + 1.000).
Proof. reflexivity. Qed.

End LlpaFacts.

Section AvailableRateFacts.
Import PyDict.
Local Open Scope string_scope.
Local Open Scope Q_scope.

(** C6.  For an FHA loan type (in any letter case)
    [calculate_available_rate] returns
    [final_rate = base_rate + state_adjustment] with [total_llpa = 0]
    and no adjustment entry.  For every other loan type it returns a
    Conventional result with
    [final_rate = base_rate + total_llpa + state_adjustment], where
    [total_llpa] is the Total LLPA entry of
    [calculate_conventional_llpa] (priced as a Rate/Term Refinance):
    the sum of the credit score by LTV, property type, occupancy and
    high-balance entries of the borrower. *)
Theorem calculate_available_rate_fha_vs_conventional
  (base : Q) (cs : Z) (ltv la : Q) (lt pt occ : string) (st : Q) :
  (RateCalculator.upper lt = "FHA" ->
   exists r,
     RateCalculator.calculate_available_rate base cs ltv la lt pt occ st = Some r /\
     RateCalculator.final_rate r = base + st /\
     RateCalculator.total_llpa r = 0.0 /\
     RateCalculator.adjustments r = [] /\
     RateCalculator.loan_type r = "FHA") /\
  (RateCalculator.upper lt <> "FHA" ->
   exists r,
     RateCalculator.calculate_available_rate base cs ltv la lt pt occ st = Some r /\
     RateCalculator.loan_type r = "Conventional" /\
     RateCalculator.calculate_conventional_llpa cs ltv la "Rate/Term Refinance" pt occ
       = Some (RateCalculator.adjustments r) /\
     get "Total LLPA" (RateCalculator.adjustments r) = Some (RateCalculator.total_llpa r) /\
     RateCalculator.total_llpa r =
       py_sum [rc_credit_score_ltv cs ltv "Rate/Term Refinance"; rc_property_type pt ltv;
               rc_occupancy occ ltv; rc_high_balance la ltv] /\
     RateCalculator.final_rate r = base + RateCalculator.total_llpa r + st).
Proof.
  unfold RateCalculator.calculate_available_rate. split.
  - intros H. rewrite H. simpl. eexists. split; [reflexivity|]. simpl. auto.
  - intros H. apply String.eqb_neq in H. rewrite H.
    rewrite conventional_llpa_breakdown.
    eexists. split; [reflexivity|]. simpl. auto 10.
Qed.

(** An FHA and a Conventional quote for the same borrower. *)
Lemma calculate_available_rate_fha_vs_conventional_witness :
  (RateCalculator.upper "fha" = "FHA" /\
   exists r,
     RateCalculator.calculate_available_rate 6.25 640 96.5 300000 "fha"
       "Condo" "Primary Residence" 0.125 = Some r /\
     RateCalculator.final_rate r = 6.25 + 0.125) /\
  (RateCalculator.upper "Conventional" <> "FHA" /\
   exists r,
     RateCalculator.calculate_available_rate 6.5 640 96.5 300000 "Conventional"
       "Condo" "Primary Residence" 0.125 = Some r /\
     RateCalculator.final_rate r = 6.5 + RateCalculator.total_llpa r + 0.125).
Proof.
  split.
  - split; [reflexivity|].
    destruct (proj1 (calculate_available_rate_fha_vs_conventional
                6.25 640 96.5 300000 "fha" "Condo" "Primary Residence" 0.125)
                eq_refl) as [r [H1 [H2 _]]].
    exists r. split; assumption.
  - assert (N : RateCalculator.upper "Conventional" <> "FHA") by discriminate.
    split; [exact N|].
    destruct (proj2 (calculate_available_rate_fha_vs_conventional
                6.5 640 96.5 300000 "Conventional" "Condo" "Primary Residence" 0.125)
                N) as [r [H1 [_ [_ [_ [_ H2]]]]]].
    exists r. split; assumption.
Defined.

(** The Conventional quote, computed. *)
Example available_rate_conventional_640 :
  option_map RateCalculator.final_rate
    (RateCalculator.calculate_available_rate 6.5 640 96.5 300000 "Conventional"
       "Condo" "Primary Residence" 0.125)
  = Some (6.5 + (0 + 2.500 + 0.750 + 0.0 + 0.0) + 0.125).
Proof. reflexivity. Qed.

End AvailableRateFacts.


(* ================================================================== *)
(** * Level-payment amortization *)
(* ================================================================== *)

Section AmortizationFacts.
Import Amortization.
Local Open Scope Q_scope.

Lemma Qeq_bool_true_iff a b : Qeq_bool a b = true <-> a == b.
Proof. split; [apply Qeq_bool_eq | apply Qeq_eq_bool]. Qed.

Lemma Qeq_bool_false a b : ~ a == b -> Qeq_bool a b = false.
Proof.
  intros H. destruct (Qeq_bool a b) eqn:E; [|reflexivity].
  apply Qeq_bool_eq in E. contradiction.
Qed.

Lemma Qgt_bool_true a b : b < a -> Qgt_bool a b = true.
Proof.
  intros H. unfold Qgt_bool. destruct (Qle_bool a b) eqn:E; [|reflexivity].
  apply Qle_bool_iff in E. lra.
Qed.

Lemma Qgt_bool_false a b : a <= b -> Qgt_bool a b = false.
Proof.
  intros H. unfold Qgt_bool. apply Qle_bool_iff in H. now rewrite H.
Qed.

Lemma max0_nonneg x : 0 <= x -> max0 x == x.
Proof.
  intros H. unfold max0. destruct (Qle_bool x 0) eqn:E; [|reflexivity].
  apply Qle_bool_iff in E. lra.
Qed.

Lemma py_div_some a b : ~ b == 0 -> py_div a b = Some (a / b).
Proof. intros H. unfold py_div. now rewrite (Qeq_bool_false _ _ H). Qed.

Lemma payment_zero_rate P r n :
  r == 0 -> payment P r n = py_div P (inject_Z n).
Proof.
  intros H. unfold payment. apply Qeq_bool_true_iff in H. now rewrite H.
Qed.

Lemma discount_factor_lt_1 r n :
  0 < r -> (1 <= n)%Z -> 0 < Qpower (1 + r) (- n) /\ Qpower (1 + r) (- n) < 1.
Proof.
  intros Hr Hn.
  assert (H1 : 1 < Qpower (1 + r) n) by (apply Qpower_1_lt; [lra | lia]).
  rewrite Qpower_opp. split.
  - apply Qinv_lt_0_compat. lra.
  - setoid_replace 1 with (/ 1) at 2 by reflexivity.
    apply -> Qinv_lt_contravar; lra.
Qed.

Lemma payment_positive_rate P r n :
  0 < r -> payment P r n = py_div (P * r) (1 - Qpower (1 + r) (- n)).
Proof.
  intros Hr. unfold payment, py_pow.
  rewrite (Qeq_bool_false r 0) by lra.
  rewrite (Qeq_bool_false (1 + r) 0) by lra.
  reflexivity.
Qed.

Lemma payment_positive_rate_value P r n :
  0 < r -> (1 <= n)%Z ->
  payment P r n = Some (P * r / (1 - Qpower (1 + r) (- n))).
Proof.
  intros Hr Hn. rewrite payment_positive_rate by assumption.
  apply py_div_some. destruct (discount_factor_lt_1 r n Hr Hn). lra.
Qed.

Lemma loop_body_bal_old e t s :
  bal_old (loop_body e t s) = amortize_month (n_old e) (r_old e) (pmt_old e) t (bal_old s).
Proof.
  unfold loop_body, amortize_month.
  destruct ((t <=? n_old e)%Z && Qgt_bool (bal_old s) 0);
  destruct ((t <=? n_new e)%Z && Qgt_bool (bal_new s) 0);
  destruct (t <? gamma_month e)%Z; destruct (t =? gamma_month e)%Z; reflexivity.
Qed.

Lemma loop_body_bal_new e t s :
  bal_new (loop_body e t s) = amortize_month (n_new e) (r_new e) (pmt_new e) t (bal_new s).
Proof.
  unfold loop_body, amortize_month.
  destruct ((t <=? n_old e)%Z && Qgt_bool (bal_old s) 0);
  destruct ((t <=? n_new e)%Z && Qgt_bool (bal_new s) 0);
  destruct (t <? gamma_month e)%Z; destruct (t =? gamma_month e)%Z; reflexivity.
Qed.

Lemma loop_body_history e t s :
  exists r, history (loop_body e t s) = history s ++ [r] /\
            month r = t /\
            rec_bal_old r = bal_old (loop_body e t s) /\
            rec_bal_new r = bal_new (loop_body e t s).
Proof.
  unfold loop_body.
  destruct ((t <=? n_old e)%Z && Qgt_bool (bal_old s) 0);
  destruct ((t <=? n_new e)%Z && Qgt_bool (bal_new s) 0);
  destruct (t <? gamma_month e)%Z; destruct (t =? gamma_month e)%Z;
  eexists; repeat split; reflexivity.
Qed.

Lemma run_months_app e a b first s :
  run_months e (a + b) first s =
  run_months e b (first + Z.of_nat a)%Z (run_months e a first s).
Proof.
  revert first s. induction a as [|a IH]; intros first s; simpl.
  - now rewrite Z.add_0_r.
  - rewrite IH. f_equal. lia.
Qed.

Lemma run_months_history e count first s :
  exists recs, history (run_months e count first s) = history s ++ recs /\
               List.length recs = count.
Proof.
  revert first s. induction count as [|k IH]; intros first s; simpl.
  - exists []. now rewrite app_nil_r.
  - destruct (IH (first + 1)%Z (loop_body e first s)) as [recs [H1 H2]].
    destruct (loop_body_history e first s) as [r [Hr _]].
    exists (r :: recs). rewrite H1, Hr, <- app_assoc. simpl. auto.
Qed.

Lemma amortize_month_zero_rate P n r pmt k b :
  (1 <= n)%Z -> r == 0 -> pmt == P / inject_Z n ->
  (Z.of_nat k < n)%Z ->
  zero_rate_invariant P n k b ->
  zero_rate_invariant P n (S k) (amortize_month n r pmt (Z.of_nat k + 1) b).
Proof.
  intros Hn Hr Hp Hk Hinv.
  assert (Hn0 : 0 < inject_Z n) by (change 0 with (inject_Z 0); rewrite <- Zlt_Qlt; lia).
  assert (Hkn : inject_Z (Z.of_nat k) + 1 <= inject_Z n).
  { change 1 with (inject_Z 1). rewrite <- inject_Z_plus, <- Zle_Qle. lia. }
  assert (HSk : inject_Z (Z.of_nat (S k)) == inject_Z (Z.of_nat k) + 1).
  { change 1 with (inject_Z 1). rewrite <- inject_Z_plus.
    replace (Z.of_nat (S k)) with (Z.of_nat k + 1)%Z by lia. reflexivity. }
  unfold zero_rate_invariant, amortize_month in *.
  assert (Ht : (Z.of_nat k + 1 <=? n)%Z = true) by (apply Z.leb_le; lia).
  rewrite Ht. cbn [andb].
  destruct Hinv as [[HP Hb] | [HP Hb]].
  - left. split; [assumption|]. right.
    rewrite Qgt_bool_false; [reflexivity|]. destruct Hb as [[_ Hb]|Hb]; lra.
  - right. split; [assumption|].
    assert (Hq : 0 < P / inject_Z n) by (apply Qlt_shift_div_l; lra).
    assert (Hq2 : P == inject_Z n * (P / inject_Z n)) by (field; lra).
    assert (Hbpos : 0 < b) by nra.
    rewrite Qgt_bool_true by assumption.
    assert (Hval : b - (pmt - r * b) ==
                   P - (inject_Z (Z.of_nat k) + 1) * (P / inject_Z n))
      by (rewrite Hr, Hp, Hb; ring).
    assert (Hnn : 0 <= b - (pmt - r * b)) by (rewrite Hval; nra).
    rewrite max0_nonneg by assumption.
    rewrite Hval, HSk. reflexivity.
Qed.

Lemma zero_rate_invariant_end P n k b :
  (1 <= n)%Z -> Z.of_nat k = n -> zero_rate_invariant P n k b -> b == 0.
Proof.
  intros Hn Hk [[HP [[Hk0 _]|Hb]] | [HP Hb]].
  - subst k. simpl in Hk. lia.
  - assumption.
  - rewrite Hb, Hk. field.
    assert (0 < inject_Z n) by (change 0 with (inject_Z 0); rewrite <- Zlt_Qlt; lia).
    lra.
Qed.

(** A loan whose balance is read by [bal] and updated by
    [amortize_month n r pmt] follows the zero-rate invariant. *)
Lemma zero_rate_balance_run e (bal : loop_state -> Q) n r pmt P k s0 :
  (forall t s, bal (loop_body e t s) = amortize_month n r pmt t (bal s)) ->
  (1 <= n)%Z -> r == 0 -> pmt == P / inject_Z n ->
  (Z.of_nat k <= n)%Z ->
  bal s0 == P ->
  zero_rate_invariant P n k (bal (run_months e k 1 s0)).
Proof.
  intros Hstep Hn Hr Hp Hk H0.
  induction k as [|k IH].
  - simpl. unfold zero_rate_invariant.
    destruct (Qlt_le_dec 0 P); [right|left]; split; auto.
    simpl. rewrite H0. ring.
  - replace (S k) with (k + 1)%nat by lia.
    rewrite run_months_app. cbn [run_months].
    rewrite Hstep.
    replace (k + 1)%nat with (S k) by lia.
    replace (1 + Z.of_nat k)%Z with (Z.of_nat k + 1)%Z by lia.
    apply amortize_month_zero_rate; try assumption; try lia.
    apply IH. lia.
Qed.

(** The entry [history[m - 1]] records month [m] and the balances
    reached after [m] passes of the loop. *)
Lemma record_at_month e count s0 m :
  history s0 = [] -> (1 <= m <= count)%nat ->
  exists r,
    nth_error (history (run_months e count 1 s0)) (m - 1) = Some r /\
    month r = Z.of_nat m /\
    rec_bal_old r = bal_old (run_months e m 1 s0) /\
    rec_bal_new r = bal_new (run_months e m 1 s0).
Proof.
  intros Hh Hm.
  assert (Hlast : run_months e m 1 s0 =
                  loop_body e (Z.of_nat m) (run_months e (m - 1) 1 s0)).
  { replace m with ((m - 1) + 1)%nat at 1 by lia.
    rewrite run_months_app. cbn [run_months]. f_equal. lia. }
  replace count with (m + (count - m))%nat by lia.
  rewrite run_months_app.
  destruct (run_months_history e (count - m) (1 + Z.of_nat m) (run_months e m 1 s0))
    as [recs2 [H2 _]].
  rewrite H2, Hlast.
  destruct (run_months_history e (m - 1) 1 s0) as [recs1 [H1 L1]].
  destruct (loop_body_history e (Z.of_nat m) (run_months e (m - 1) 1 s0))
    as [r [Hr [Hmo [Ho Hn]]]].
  exists r. rewrite Hr, H1, Hh. cbn [app].
  rewrite <- app_assoc. rewrite nth_error_app2 by lia.
  rewrite L1, Nat.sub_diag. cbn.
  repeat split; assumption.
Qed.

Lemma payment_returns P r n :
  0 <= r -> (1 <= n)%Z -> exists p, payment P r n = Some p.
Proof.
  intros Hr Hn. destruct (Qlt_le_dec 0 r) as [Hpos|Hle].
  - eexists. now apply payment_positive_rate_value.
  - assert (Hz : r == 0) by lra.
    rewrite (payment_zero_rate _ _ _ Hz). eexists. apply py_div_some.
    assert (0 < inject_Z n)
      by (change 0 with (inject_Z 0); rewrite <- Zlt_Qlt; lia).
    lra.
Qed.

Lemma payment_zero_rate_value P r n p :
  r == 0 -> (1 <= n)%Z -> payment P r n = Some p -> p = P / inject_Z n.
Proof.
  intros Hr Hn. rewrite (payment_zero_rate _ _ _ Hr), py_div_some.
  - congruence.
  - assert (0 < inject_Z n)
      by (change 0 with (inject_Z 0); rewrite <- Zlt_Qlt; lia).
    lra.
Qed.

(** What one pass through the loop records: the month, the balances
    after it and the payments made in it. *)
Lemma loop_body_entry e t s :
  exists r, history (loop_body e t s) = history s ++ [r] /\
            month r = t /\
            rec_bal_old r = bal_old (loop_body e t s) /\
            rec_bal_new r = bal_new (loop_body e t s) /\
            p_old r = month_payment (n_old e) (r_old e) (pmt_old e) (tau_rate e)
                        (include_tax e) t (bal_old s) /\
            p_new r = month_payment (n_new e) (r_new e) (pmt_new e) (tau_rate e)
                        (include_tax e) t (bal_new s).
Proof.
  unfold loop_body, month_payment.
  destruct ((t <=? n_old e)%Z && Qgt_bool (bal_old s) 0);
  destruct ((t <=? n_new e)%Z && Qgt_bool (bal_new s) 0);
  destruct (t <? gamma_month e)%Z; destruct (t =? gamma_month e)%Z;
  eexists; repeat split; reflexivity.
Qed.

(** The entry [history[m - 1]]: the balances after [m] passes of the
    loop, and the payments of pass [m], which depend on the balances
    after [m - 1] passes. *)
Lemma record_entry_at_month e count s0 m :
  history s0 = [] -> (1 <= m <= count)%nat ->
  exists r,
    nth_error (history (run_months e count 1 s0)) (m - 1) = Some r /\
    month r = Z.of_nat m /\
    rec_bal_old r = bal_old (run_months e m 1 s0) /\
    rec_bal_new r = bal_new (run_months e m 1 s0) /\
    p_old r = month_payment (n_old e) (r_old e) (pmt_old e) (tau_rate e)
                (include_tax e) (Z.of_nat m) (bal_old (run_months e (m - 1) 1 s0)) /\
    p_new r = month_payment (n_new e) (r_new e) (pmt_new e) (tau_rate e)
                (include_tax e) (Z.of_nat m) (bal_new (run_months e (m - 1) 1 s0)).
Proof.
  intros Hh Hm.
  assert (Hlast : run_months e m 1 s0 =
                  loop_body e (Z.of_nat m) (run_months e (m - 1) 1 s0)).
  { replace m with ((m - 1) + 1)%nat at 1 by lia.
    rewrite run_months_app. cbn [run_months]. f_equal. lia. }
  replace count with (m + (count - m))%nat by lia.
  rewrite run_months_app.
  destruct (run_months_history e (count - m) (1 + Z.of_nat m) (run_months e m 1 s0))
    as [recs2 [H2 _]].
  rewrite H2, Hlast.
  destruct (run_months_history e (m - 1) 1 s0) as [recs1 [H1 L1]].
  destruct (loop_body_entry e (Z.of_nat m) (run_months e (m - 1) 1 s0))
    as [r [Hr [Hmo [Ho [Hn [Hpo Hpn]]]]]].
  exists r. rewrite Hr, H1, Hh. cbn [app].
  rewrite <- app_assoc. rewrite nth_error_app2 by lia.
  rewrite L1, Nat.sub_diag. cbn.
  repeat split; assumption.
Qed.

(** The payment a zero-rate loan shows in the month after [k] months. *)
Lemma month_payment_zero_rate P n r pmt tau tax k b :
  (1 <= n)%Z -> r == 0 -> pmt == P / inject_Z n ->
  (Z.of_nat k < n)%Z ->
  zero_rate_invariant P n k b ->
  (0 < P -> month_payment n r pmt tau tax (Z.of_nat k + 1) b == P / inject_Z n) /\
  (P <= 0 -> month_payment n r pmt tau tax (Z.of_nat k + 1) b == 0).
Proof.
  intros Hn Hr Hp Hk Hinv.
  assert (Hn0 : 0 < inject_Z n) by (change 0 with (inject_Z 0); rewrite <- Zlt_Qlt; lia).
  assert (Hkn : inject_Z (Z.of_nat k) + 1 <= inject_Z n).
  { change 1 with (inject_Z 1). rewrite <- inject_Z_plus, <- Zle_Qle. lia. }
  unfold zero_rate_invariant, month_payment in *.
  assert (Ht : (Z.of_nat k + 1 <=? n)%Z = true) by (apply Z.leb_le; lia).
  rewrite Ht. cbn [andb].
  destruct Hinv as [[HP Hb] | [HP Hb]].
  - rewrite Qgt_bool_false by (destruct Hb as [[_ Hb]|Hb]; lra).
    split; [intros; lra | intros; reflexivity].
  - assert (Hq : 0 < P / inject_Z n) by (apply Qlt_shift_div_l; lra).
    assert (Hq2 : P == inject_Z n * (P / inject_Z n)) by (field; lra).
    assert (Hbpos : 0 < b) by nra.
    rewrite Qgt_bool_true by assumption.
    split; [intros _ | intros; lra].
    destruct tax; [rewrite Hr, Hp; ring | exact Hp].
Qed.

(** Month [m] of a zero-rate loan of principal [P] over [n] months:
    the payment shown and the balance left. *)
Lemma zero_rate_month e (bal : loop_state -> Q) n r pmt tau tax P s0 m :
  (forall t s, bal (loop_body e t s) = amortize_month n r pmt t (bal s)) ->
  (1 <= n)%Z -> r == 0 -> pmt == P / inject_Z n -> bal s0 == P ->
  (1 <= m)%nat -> (Z.of_nat m <= n)%Z ->
  (0 < P ->
     month_payment n r pmt tau tax (Z.of_nat m) (bal (run_months e (m - 1) 1 s0))
       == P / inject_Z n /\
     bal (run_months e m 1 s0) == P - inject_Z (Z.of_nat m) * (P / inject_Z n)) /\
  (P <= 0 ->
     month_payment n r pmt tau tax (Z.of_nat m) (bal (run_months e (m - 1) 1 s0)) == 0 /\
     bal (run_months e m 1 s0) == 0) /\
  (Z.of_nat m = n -> bal (run_months e m 1 s0) == 0).
Proof.
  intros Hstep Hn Hr Hp H0 Hm1 Hmn.
  assert (Ik : zero_rate_invariant P n (m - 1) (bal (run_months e (m - 1) 1 s0)))
    by (apply (zero_rate_balance_run e bal n r pmt); try assumption; lia).
  assert (Im : zero_rate_invariant P n m (bal (run_months e m 1 s0)))
    by (apply (zero_rate_balance_run e bal n r pmt); try assumption; lia).
  destruct (month_payment_zero_rate P n r pmt tau tax (m - 1) _ Hn Hr Hp ltac:(lia) Ik)
    as [Pp Pn].
  replace (Z.of_nat (m - 1) + 1)%Z with (Z.of_nat m) in Pp, Pn by lia.
  split; [|split].
  - intros HP. split; [now apply Pp|].
    destruct Im as [[HP' _] | [_ Hb]]; [lra | exact Hb].
  - intros HP. split; [now apply Pn|].
    destruct Im as [[_ [[Hm0 _]|Hb]] | [HP' _]]; [lia | exact Hb | lra].
  - intros Hend. now apply (zero_rate_invariant_end P n m).
Qed.

(** C8.  [payment P 0 n] is [P / n]; for a monthly rate [r > 0],
    [payment P r n] is [P * r / (1 - (1 + r) ^ (- n))]; and in
    [compute_enpv_full], which returns for non-negative rates and terms
    of at least one month, a loan of principal [P] at rate zero over [n]
    months has the payment [P / n], and for every month [m] from 1 to
    [n] the record of month [m] shows, when [P > 0], the payment [P / n]
    and the balance [P - m * (P / n)] (when [P <= 0] no payment and the
    balance 0); the record of month [n] carries a balance of exactly
    [0].  The numbers are the exact rationals of [Amortization]. *)
Theorem zero_rate_loan_amortization :
  (forall P r n, r == 0 -> payment P r n = py_div P (inject_Z n)) /\
  (forall P r n, 0 < r ->
     payment P r n = py_div (P * r) (1 - Qpower (1 + r) (- n)) /\
     ((1 <= n)%Z -> payment P r n = Some (P * r / (1 - Qpower (1 + r) (- n))))) /\
  (forall (current_balance current_rate new_rate remaining_years_old
             new_term_years closing_costs : Q) (finance_costs_in_loan : bool)
          (invest_rate discount_rate cpr tau_rate : Q) (include_tax : bool),
     let n_old := py_round (remaining_years_old * 12) in
     let n_new := py_round (new_term_years * 12) in
     let new_principal :=
       if finance_costs_in_loan then current_balance + closing_costs
       else current_balance in
     0 <= current_rate -> (1 <= n_old)%Z -> 0 <= new_rate -> (1 <= n_new)%Z ->
     exists (hist : list rec) (pay_old pay_new : Q),
       compute_enpv_full current_balance current_rate new_rate remaining_years_old
         new_term_years closing_costs finance_costs_in_loan invest_rate
         discount_rate cpr tau_rate include_tax
       = Some (hist, pay_old, pay_new, n_old) /\
       (current_rate == 0 ->
          pay_old = current_balance / inject_Z n_old /\
          forall m, (1 <= m <= n_old)%Z ->
            exists rec_m,
              nth_error hist (Z.to_nat m - 1) = Some rec_m /\
              month rec_m = m /\
              (0 < current_balance ->
                 p_old rec_m == current_balance / inject_Z n_old /\
                 rec_bal_old rec_m ==
                   current_balance - inject_Z m * (current_balance / inject_Z n_old)) /\
              (current_balance <= 0 -> p_old rec_m == 0 /\ rec_bal_old rec_m == 0) /\
              (m = n_old -> rec_bal_old rec_m == 0)) /\
       (new_rate == 0 ->
          pay_new = new_principal / inject_Z n_new /\
          forall m, (1 <= m <= n_new)%Z ->
            exists rec_m,
              nth_error hist (Z.to_nat m - 1) = Some rec_m /\
              month rec_m = m /\
              (0 < new_principal ->
                 p_new rec_m == new_principal / inject_Z n_new /\
                 rec_bal_new rec_m ==
                   new_principal - inject_Z m * (new_principal / inject_Z n_new)) /\
              (new_principal <= 0 -> p_new rec_m == 0 /\ rec_bal_new rec_m == 0) /\
              (m = n_new -> rec_bal_new rec_m == 0))).
Proof.
  split; [exact payment_zero_rate|]. split.
  { intros P r n Hr. split; [now apply payment_positive_rate|].
    intros Hn. now apply payment_positive_rate_value. }
  intros P cr nr yo yn cc fin ir dr cpr tau tax n_old n_new P' Hcr Hno Hnr Hnn.
  unfold compute_enpv_full. fold n_old n_new P'.
  assert (Hro : 0 <= cr / 12) by (apply Qle_shift_div_l; lra).
  assert (Hrn : 0 <= nr / 12) by (apply Qle_shift_div_l; lra).
  destruct (payment_returns P (cr / 12) n_old Hro Hno) as [po Hpo].
  destruct (payment_returns P' (nr / 12) n_new Hrn Hnn) as [pn Hpn].
  rewrite Hpo, Hpn.
  set (e := mk_env n_old n_new n_old (cr / 12) (nr / 12) (ir / 12) po pn tau tax).
  set (s0 := mk_state P P' 0 0 0 0 []).
  set (horizon := Z.to_nat (Z.max n_old n_new)).
  exists (history (run_months e horizon 1 s0)), po, pn.
  split; [reflexivity|]. split.
  - intros Hz. assert (Hr0 : cr / 12 == 0) by (rewrite Hz; reflexivity).
    pose proof (payment_zero_rate_value _ _ _ _ Hr0 Hno Hpo) as Epo.
    split; [exact Epo|]. intros m Hm.
    destruct (record_entry_at_month e horizon s0 (Z.to_nat m))
      as [r [Hnth [Hmo [Ho [_ [Hp _]]]]]]; [reflexivity | unfold horizon; lia |].
    exists r. split; [exact Hnth|]. split; [rewrite Hmo; lia|].
    rewrite Ho, Hp.
    assert (Epo' : po == P / inject_Z n_old) by (rewrite Epo; reflexivity).
    destruct (zero_rate_month e bal_old n_old (cr / 12) po tau tax P s0 (Z.to_nat m)
                (fun t s => loop_body_bal_old e t s) Hno Hr0 Epo' (Qeq_refl P)
                ltac:(lia) ltac:(lia)) as [Z1 [Z2 Z3]].
    rewrite Z2Nat.id in Z1, Z2, Z3 |- * by lia.
    split; [exact Z1|]. split; [exact Z2|exact Z3].
  - intros Hz. assert (Hr0 : nr / 12 == 0) by (rewrite Hz; reflexivity).
    pose proof (payment_zero_rate_value _ _ _ _ Hr0 Hnn Hpn) as Epn.
    split; [exact Epn|]. intros m Hm.
    destruct (record_entry_at_month e horizon s0 (Z.to_nat m))
      as [r [Hnth [Hmo [_ [Hb [_ Hp]]]]]]; [reflexivity | unfold horizon; lia |].
    exists r. split; [exact Hnth|]. split; [rewrite Hmo; lia|].
    rewrite Hb, Hp.
    assert (Epn' : pn == P' / inject_Z n_new) by (rewrite Epn; reflexivity).
    destruct (zero_rate_month e bal_new n_new (nr / 12) pn tau tax P' s0 (Z.to_nat m)
                (fun t s => loop_body_bal_new e t s) Hnn Hr0 Epn' (Qeq_refl P')
                ltac:(lia) ltac:(lia)) as [Z1 [Z2 Z3]].
    rewrite Z2Nat.id in Z1, Z2, Z3 |- * by lia.
    split; [exact Z1|]. split; [exact Z2|exact Z3].
Qed.

(** A ten-year loan of 120000 at rate zero refinanced into a
    thirty-year loan at 6%, and a payment at a monthly rate of 0.5%:
    the old loan pays 1000 a month, owes 60000 after month 60 and
    nothing after month 120. *)
Lemma zero_rate_loan_amortization_witness :
  (0 == 0 /\ payment 120000 0 120 = py_div 120000 (inject_Z 120)) /\
  (0 < 1 # 200 /\ (1 <= 360)%Z /\
   payment 300000 (1 # 200) 360 =
     Some (300000 * (1 # 200) / (1 - Qpower (1 + (1 # 200)) (- 360)))) /\
  (0 <= 0 /\ (1 <= py_round (10 * 12))%Z /\ 0 <= 0.06 /\ (1 <= py_round (30 * 12))%Z /\
   exists (hist : list rec) (pay_old pay_new : Q),
     compute_enpv_full 120000 0 0.06 10 30 3000 false 0.05 0.05 0.1 0.28 true
       = Some (hist, pay_old, pay_new, py_round (10 * 12)) /\
     pay_old = 120000 / inject_Z (py_round (10 * 12)) /\
     (exists rec_60,
        nth_error hist 59 = Some rec_60 /\ month rec_60 = 60%Z /\
        p_old rec_60 == 1000 /\ rec_bal_old rec_60 == 60000) /\
     (exists rec_120,
        nth_error hist 119 = Some rec_120 /\ month rec_120 = 120%Z /\
        p_old rec_120 == 1000 /\ rec_bal_old rec_120 == 0)).
Proof.
  destruct zero_rate_loan_amortization as [W1 [W2 W3]].
  split; [|split].
  - split; [reflexivity|]. apply W1. reflexivity.
  - split; [reflexivity|]. split; [lia|].
    apply (proj2 (W2 300000 (1 # 200) 360%Z eq_refl)). lia.
  - assert (H1 : 0 <= 0) by apply Qle_refl.
    assert (H2 : (1 <= py_round (10 * 12))%Z) by (vm_compute; discriminate).
    assert (H3 : 0 <= 0.06) by (vm_compute; discriminate).
    assert (H4 : (1 <= py_round (30 * 12))%Z) by (vm_compute; discriminate).
    split; [exact H1|]. split; [exact H2|]. split; [exact H3|]. split; [exact H4|].
    destruct (W3 120000 0 0.06 10 30 3000 false 0.05 0.05 0.1 0.28 true H1 H2 H3 H4)
      as [h [po [pn [E [Ho _]]]]].
    destruct (Ho (Qeq_refl 0)) as [Epo Hm].
    assert (HP : 0 < 120000) by reflexivity.
    assert (R60 : (1 <= 60 <= py_round (10 * 12))%Z) by (vm_compute; split; discriminate).
    assert (R120 : (1 <= 120 <= py_round (10 * 12))%Z) by (vm_compute; split; discriminate).
    exists h, po, pn. split; [exact E|]. split; [exact Epo|]. split.
    + destruct (Hm 60%Z R60) as [r [N [M [A _]]]].
      destruct (A HP) as [A1 A2].
      exists r. split; [exact N|]. split; [exact M|]. split.
      * apply (Qeq_trans _ _ _ A1). reflexivity.
      * apply (Qeq_trans _ _ _ A2). reflexivity.
    + destruct (Hm 120%Z R120) as [r [N [M [A [_ Z]]]]].
      destruct (A HP) as [A1 _].
      exists r. split; [exact N|]. split; [exact M|]. split.
      * apply (Qeq_trans _ _ _ A1). reflexivity.
      * apply Z. reflexivity.
Defined.

(** The balances of a four-month loan of 1000 at rate zero. *)
Example zero_rate_four_months :
  option_map (fun '(h, _, _, _) => map (fun r => Qred (rec_bal_old r)) h)
    (compute_enpv_full 1000 0 0 (1 # 3) (1 # 3) 0 false 0 0 0 0 false)
  = Some [750; 500; 250; 0].
Proof. vm_compute. reflexivity. Qed.

End AmortizationFacts.

Section Amortization64Facts.
Import PrimFloat.
Import Amortization64.
Local Open Scope float_scope.

(** On binary64 the first months of a loan of 250000 over 360 months at
    rate zero. *)
Example zero_rate_first_months_binary64 float_pow :
  option_map (fun '(h, _, _, _) => map rec_bal_old (firstn 3 h))
    (compute_enpv_full float_pow 250000 0 0 30 30 0 false 0 0 0 0 false)
  = Some [0x1.e6ecc71c71c72p+17; 0x1.e5918e38e38e4p+17; 0x1.e436555555556p+17].
Proof. vm_compute. reflexivity. Qed.

(** The same loan with a principal of 300000 ends at exactly zero. *)
Example zero_rate_last_month_binary64 float_pow :
  option_map (fun '(h, _, _, _) => option_map rec_bal_old (nth_error h 359))
    (compute_enpv_full float_pow 300000 0 0 30 30 0 false 0 0 0 0 false)
  = Some (Some 0).
Proof. vm_compute. reflexivity. Qed.

(** Counterexample to the exact zero of C8 on the floats the code
    computes with: for a loan of 250000 over 360 months at rate zero
    [compute_enpv_full] returns the payment [250000 / 360], and the
    record of month 360 carries the balance [0x1.c4fp-30], about
    1.65e-9: not zero, above the machine epsilon [2^-52] and above
    [250000 * 2^-52].  The loop clamps a negative balance to zero and
    leaves a positive one as it is. *)
Lemma zero_rate_balance_residue_binary64 :
  exists b : float,
    (forall float_pow, exists hist pay_new,
        compute_enpv_full float_pow 250000 0 0 30 30 0 false 0 0 0 0 false
          = Some (hist, 250000 / 360, pay_new, 360%Z) /\
        option_map (fun r => (month r, rec_bal_old r)) (nth_error hist 359)
          = Some (360%Z, b)) /\
    b = 0x1.c4fp-30 /\
    (0 <? b) = true /\ (0x1p-52 <? b) = true /\ (250000 * 0x1p-52 <? b) = true.
Proof.
  exists 0x1.c4fp-30. split.
  - intros float_pow.
    exists (history
              (run_months
                 (mk_env 360 360 360 0 0 0 (250000 / 360) (250000 / 360) 0 false)
                 360 1 (mk_state 250000 250000 0 0 0 0 []))),
           (250000 / 360).
    split; vm_compute; reflexivity.
  - repeat split; vm_compute; reflexivity.
Qed.

End Amortization64Facts.


(* ================================================================== *)
(** * ENPV mortality weights *)
(* ================================================================== *)

Section EnpvFacts.
Import Enpv.
Local Open Scope R_scope.

Lemma py_sum_app l x : py_sum (l ++ [x]) = py_sum l + x.
Proof. unfold py_sum. now rewrite fold_left_app. Qed.

Lemma mortality_loop_invariant SMM pv count first s :
  let s' := mortality_loop SMM pv count first s in
  survival s' = survival s * (1 - SMM) ^ count /\
  py_sum (mortality s') =
    py_sum (mortality s) + survival s * (1 - (1 - SMM) ^ count) /\
  List.length (mortality s') = (List.length (mortality s) + count)%nat.
Proof.
  revert first s. induction count as [|k IH]; intros first s; cbn [mortality_loop].
  - cbn. split; [lra|]. split; [lra|lia].
  - destruct (IH (S first) (mortality_body SMM pv first s)) as [H1 [H2 H3]].
    cbn zeta in *. rewrite H1, H2, H3. unfold mortality_body. cbn [survival mortality].
    rewrite py_sum_app, length_app. cbn [List.length pow].
    split; [ring|]. split; [ring|lia].
Qed.

Lemma py_sum_set_last l v :
  l <> [] -> py_sum (set_last l (last l 0 + v)) = py_sum l + v.
Proof.
  intros Hl. unfold set_last. rewrite py_sum_app.
  rewrite (app_removelast_last 0 Hl) at 3.
  rewrite py_sum_app. ring.
Qed.

Lemma length_set_last l v : l <> [] -> List.length (set_last l v) = List.length l.
Proof.
  intros Hl. unfold set_last. rewrite (app_removelast_last 0 Hl) at 2.
  now rewrite !length_app.
Qed.

Lemma twelfth_root_360 b : 0 < b -> Rpower b (1 / 12) ^ 360 = b ^ 30.
Proof.
  intros Hb.
  rewrite <- Rpower_pow by apply exp_pos.
  rewrite Rpower_mult.
  replace (1 / 12 * INR 360) with (INR 30).
  - now apply Rpower_pow.
  - rewrite !INR_IZR_INZ. change (Z.of_nat 360) with 360%Z.
    change (Z.of_nat 30) with 30%Z. lra.
Qed.

Lemma SMM_of_cpr_value cpr :
  cpr < 1 -> SMM_of_cpr cpr = Some (1 - Rpower (1 - cpr) (1 / 12)).
Proof.
  intros H. unfold SMM_of_cpr, float_pow.
  destruct (Rlt_dec (1 - cpr) 0); [lra|].
  destruct (Req_dec_T (1 - cpr) 0); [lra|]. reflexivity.
Qed.

(** The sum of the mortality weights, with the guard on the residual. *)
Lemma mortality_weights_sum cpr pv :
  cpr < 1 ->
  exists s enpv,
    enpv_with_mortality cpr pv = Some (s, enpv) /\
    List.length (mortality s) = 360%nat /\
    survival s = (1 - cpr) ^ 30 /\
    py_sum (mortality s) =
      if Rlt_dec (1 / 1000) ((1 - cpr) ^ 30) then 1 else 1 - (1 - cpr) ^ 30.
Proof.
  intros Hc. unfold enpv_with_mortality. rewrite (SMM_of_cpr_value _ Hc).
  set (SMM := 1 - Rpower (1 - cpr) (1 / 12)).
  set (pv' := extend_to_360 pv).
  destruct (mortality_loop_invariant SMM pv' 360 0 (mk_mortality_state 1 [] []))
    as [H1 [H2 H3]].
  set (s := mortality_loop SMM pv' 360 0 (mk_mortality_state 1 [] [])) in *.
  cbn [survival mortality List.length] in H1, H2, H3.
  assert (Hq : (1 - SMM) ^ 360 = (1 - cpr) ^ 30).
  { unfold SMM. replace (1 - (1 - Rpower (1 - cpr) (1 / 12)))
      with (Rpower (1 - cpr) (1 / 12)) by ring.
    apply twelfth_root_360. lra. }
  rewrite Hq in H1, H2.
  assert (Hsurv : survival s = (1 - cpr) ^ 30) by (rewrite H1; ring).
  assert (Hsum : py_sum (mortality s) = 1 - (1 - cpr) ^ 30)
    by (rewrite H2; unfold py_sum; cbn; ring).
  assert (Hne : mortality s <> []).
  { intros E. rewrite E in H3. cbn in H3. lia. }
  eexists. eexists. split; [reflexivity|].
  unfold fold_residual. rewrite Hsurv.
  destruct (Rlt_dec (1 / 1000) ((1 - cpr) ^ 30)); cbn [survival mortality].
  - split; [|split; [reflexivity|]].
    + now rewrite length_set_last.
    + rewrite <- Hsurv, py_sum_set_last by assumption. rewrite Hsum, Hsurv. ring.
  - repeat split; assumption.
Qed.

Lemma pow_79_100_30 : 8 / 10000 < (79 / 100) ^ 30 < 1 / 1000.
Proof.
  replace ((79 / 100) ^ 30) with (IZR (79 ^ 30) / IZR (100 ^ 30)).
  - assert (H100 : 0 < IZR (100 ^ 30)) by (apply IZR_lt; reflexivity).
    split.
    + apply Rmult_lt_reg_r with (IZR (100 ^ 30)); [assumption|].
      unfold Rdiv at 2. rewrite Rmult_assoc, Rinv_l by lra. rewrite Rmult_1_r.
      apply Rmult_lt_reg_r with 10000; [lra|].
      replace (8 / 10000 * IZR (100 ^ 30) * 10000) with (8 * IZR (100 ^ 30)) by field.
      rewrite <- !mult_IZR. apply IZR_lt. reflexivity.
    + apply Rmult_lt_reg_r with (IZR (100 ^ 30)); [assumption|].
      unfold Rdiv at 1. rewrite Rmult_assoc, Rinv_l by lra. rewrite Rmult_1_r.
      apply Rmult_lt_reg_r with 1000; [lra|].
      replace (1 / 1000 * IZR (100 ^ 30) * 1000) with (IZR (100 ^ 30)) by field.
      rewrite <- !mult_IZR. apply IZR_lt. reflexivity.
  - unfold Rdiv. rewrite Rpow_mult_distr, pow_inv, !pow_IZR. reflexivity.
Qed.

(** C5, with the guard of the code made explicit.  For a CPR in
    (0,1) the mortality list has 360 entries.  When the survival
    probability after 360 months, [(1 - CPR) ^ 30], exceeds [0.001], it
    is folded into the last entry and the weights sum to [1]; otherwise
    it is dropped, and the weights sum to [1 - (1 - CPR) ^ 30], which
    lies in [[0.999, 1)]. *)
Theorem enpv_probability_conservation (cpr : R) (net_gain_pv : list R) :
  0 < cpr < 1 ->
  exists s enpv,
    enpv_with_mortality cpr net_gain_pv = Some (s, enpv) /\
    List.length (mortality s) = 360%nat /\
    (1 / 1000 < (1 - cpr) ^ 30 -> py_sum (mortality s) = 1) /\
    ((1 - cpr) ^ 30 <= 1 / 1000 ->
       py_sum (mortality s) = 1 - (1 - cpr) ^ 30 /\
       999 / 1000 <= py_sum (mortality s) < 1).
Proof.
  intros [H0 H1].
  destruct (mortality_weights_sum cpr net_gain_pv H1) as [s [enpv [E [L [_ S]]]]].
  exists s, enpv. split; [exact E|]. split; [exact L|].
  assert (Hpos : 0 < (1 - cpr) ^ 30) by (apply pow_lt; lra).
  destruct (Rlt_dec (1 / 1000) ((1 - cpr) ^ 30)) as [Hgt|Hle]; split; intros H.
  - exact S.
  - lra.
  - lra.
  - rewrite S. split; [reflexivity|]. lra.
Qed.

(** The weights at a CPR of 10%. *)
Lemma enpv_probability_conservation_witness :
  0 < 1 / 10 < 1 /\
  exists s enpv,
    enpv_with_mortality (1 / 10) [] = Some (s, enpv) /\
    List.length (mortality s) = 360%nat.
Proof.
  assert (H : 0 < 1 / 10 < 1) by lra.
  split; [exact H|].
  destruct (enpv_probability_conservation (1 / 10) [] H) as [s [enpv [E [L _]]]].
  exists s, enpv. split; assumption.
Defined.

(** Counterexample to C5 without the guard: at a CPR of 21% the
    residual survival [0.79 ^ 30] is below [0.001], it is not folded
    in, and the weights sum to less than [0.9992]. *)
Lemma enpv_weights_below_one_at_cpr_21 :
  0 < 21 / 100 < 1 /\
  exists s enpv,
    enpv_with_mortality (21 / 100) [] = Some (s, enpv) /\
    py_sum (mortality s) < 1 - 8 / 10000.
Proof.
  split; [lra|].
  destruct (mortality_weights_sum (21 / 100) []) as [s [enpv [E [_ [_ S]]]]]; [lra|].
  exists s, enpv. split; [exact E|].
  replace (1 - 21 / 100) with (79 / 100) in S by lra.
  pose proof pow_79_100_30 as [Hlo Hhi].
  destruct (Rlt_dec (1 / 1000) ((79 / 100) ^ 30)); lra.
Qed.

End EnpvFacts.


(* ================================================================== *)
(** * The refinancing threshold *)
(* ================================================================== *)

Section LambertW.
Import Threshold.
Local Open Scope R_scope.

Lemma derivable_pt_lim_wexp w : derivable_pt_lim wexp w ((1 + w) * exp w).
Proof.
  unfold wexp.
  replace ((1 + w) * exp w) with (1 * exp w + id w * exp w) by (unfold id; ring).
  apply (derivable_pt_lim_mult id exp).
  - apply derivable_pt_lim_id.
  - apply derivable_pt_lim_exp.
Qed.

Lemma derivable_wexp : derivable wexp.
Proof.
  intros w. exists ((1 + w) * exp w). apply derivable_pt_lim_wexp.
Qed.

Lemma wexp_increasing a b : -1 <= a -> a < b -> wexp a < wexp b.
Proof.
  intros Ha Hab.
  apply (derive_increasing_interv (-1) (b + 1) wexp derivable_wexp); try lra.
  intros t Ht.
  rewrite (derive_pt_eq_0 _ _ _ _ (derivable_pt_lim_wexp t)).
  apply Rmult_lt_0_compat; [lra | apply exp_pos].
Qed.

Lemma wexp_injective a b : -1 <= a -> -1 <= b -> wexp a = wexp b -> a = b.
Proof.
  intros Ha Hb E.
  destruct (Rtotal_order a b) as [H|[H|H]]; [|assumption|].
  - pose proof (wexp_increasing a b Ha H). lra.
  - pose proof (wexp_increasing b a Hb H). lra.
Qed.

Lemma wexp_minus_one : wexp (-1) = - exp (-1).
Proof. unfold wexp. ring. Qed.

Lemma wexp_solution_exists y :
  - exp (-1) <= y -> exists w, -1 <= w /\ w * exp w = y.
Proof.
  intros Hy.
  set (b := Rmax 0 y).
  assert (Hb0 : 0 <= b) by apply Rmax_l.
  assert (Hby : y <= b) by apply Rmax_r.
  assert (Hfb : y <= wexp b).
  { unfold wexp. destruct (Rle_lt_dec y 0) as [Hy0|Hy0].
    - pose proof (exp_pos b). nra.
    - assert (Hb : b = y) by (unfold b; apply Rmax_right; lra).
      rewrite Hb. assert (1 <= exp y).
      { destruct (Req_dec_T y 0) as [->|Hn]; [rewrite exp_0; lra|].
        pose proof (exp_ineq1 y Hn). lra. }
      nra. }
  destruct (IVT_cor (fun w => wexp w - y) (-1) b) as [w [Hw E]].
  - apply continuity_minus.
    + apply derivable_continuous, derivable_wexp.
    + apply continuity_const. intros u v. reflexivity.
  - lra.
  - rewrite wexp_minus_one.
    assert (H1 : - exp (-1) - y <= 0) by lra.
    assert (H2 : 0 <= wexp b - y) by lra.
    nra.
  - exists w. split; [lra|]. unfold wexp in E. lra.
Qed.

(** [W0] is the principal real branch on [[-1/e, +oo)]. *)
Lemma W0_spec y :
  - exp (-1) <= y -> -1 <= W0 y /\ W0 y * exp (W0 y) = y.
Proof.
  intros Hy. unfold W0.
  apply (epsilon_spec (inhabits 0) (fun w => -1 <= w /\ w * exp w = y)).
  now apply wexp_solution_exists.
Qed.

Lemma W0_unique y w : -1 <= w -> w * exp w = y -> W0 y = w.
Proof.
  intros Hw E.
  assert (Hy : - exp (-1) <= y).
  { rewrite <- E, <- wexp_minus_one.
    destruct (Req_dec_T w (-1)) as [->|Hn]; [unfold wexp; lra|].
    left. apply wexp_increasing; lra. }
  destruct (W0_spec y Hy) as [H1 H2].
  apply wexp_injective; try assumption. unfold wexp. lra.
Qed.

Lemma W0_branch_point : W0 (- exp (-1)) = -1.
Proof. apply W0_unique; [lra | ring]. Qed.

Lemma W0_increasing y1 y2 :
  - exp (-1) <= y1 -> y1 < y2 -> W0 y1 < W0 y2.
Proof.
  intros H1 H12.
  destruct (W0_spec y1 H1) as [A1 B1].
  destruct (W0_spec y2) as [A2 B2]; [lra|].
  destruct (Rlt_le_dec (W0 y1) (W0 y2)) as [H|H]; [assumption|].
  exfalso. destruct H as [H|H].
  - pose proof (wexp_increasing _ _ A2 H). unfold wexp in *. lra.
  - rewrite H in B2. lra.
Qed.

Lemma W0_negative y : - exp (-1) <= y -> y < 0 -> W0 y < 0.
Proof.
  intros H1 H2. destruct (W0_spec y H1) as [A B].
  destruct (Rlt_le_dec (W0 y) 0) as [H|H]; [assumption|].
  pose proof (exp_pos (W0 y)). nra.
Qed.

Lemma W0_above_branch_point y : - exp (-1) < y -> -1 < W0 y.
Proof.
  intros H. rewrite <- W0_branch_point. apply W0_increasing; lra.
Qed.

Lemma lambertw_real_principal y : - exp (-1) <= y -> lambertw_real y = W0 y.
Proof.
  intros H. unfold lambertw_real. destruct (Rle_dec (- exp (-1)) y); [reflexivity|lra].
Qed.

End LambertW.

Section ThresholdFacts.
Import Threshold.
Local Open Scope R_scope.

Lemma lambert_argument_domain phi :
  1 <= phi -> - exp (-1) <= - exp (- phi) < 0.
Proof.
  intros H. pose proof (exp_pos (- phi)). split; [|lra].
  destruct H as [H|H].
  - pose proof (exp_increasing (- phi) (-1)). lra.
  - assert (E : - phi = -1) by lra. rewrite E. lra.
Qed.

Lemma lambert_argument_strict phi :
  1 < phi -> - exp (-1) < - exp (- phi).
Proof.
  intros H. pose proof (exp_increasing (- phi) (-1)). lra.
Qed.

Lemma gap_lower_bound phi : 1 <= phi -> phi - 1 <= gap phi.
Proof.
  intros H. destruct (lambert_argument_domain phi H) as [H1 _].
  destruct (W0_spec _ H1) as [A _]. unfold gap. lra.
Qed.

Lemma gap_lower_bound_strict phi : 1 < phi -> phi - 1 < gap phi.
Proof.
  intros H. pose proof (W0_above_branch_point _ (lambert_argument_strict phi H)).
  unfold gap. lra.
Qed.

Lemma gap_at_one : gap 1 = 0.
Proof.
  unfold gap. replace (- (1)) with (-1) by lra.
  rewrite W0_branch_point. ring.
Qed.

Lemma exp_gap phi :
  1 <= phi -> exp (gap phi) * (- W0 (- exp (- phi))) = 1.
Proof.
  intros H. destruct (lambert_argument_domain phi H) as [H1 H2].
  destruct (W0_spec _ H1) as [A B].
  unfold gap. rewrite exp_plus.
  set (w := W0 (- exp (- phi))) in *.
  replace (exp phi * exp w * - w) with (exp phi * (- (w * exp w))) by ring.
  rewrite B, Ropp_involutive, <- exp_plus.
  replace (phi + - phi) with 0 by ring. apply exp_0.
Qed.

Lemma gap_increasing phi1 phi2 :
  1 <= phi1 -> phi1 < phi2 -> gap phi1 < gap phi2.
Proof.
  intros H1 H12.
  assert (H2 : 1 <= phi2) by lra.
  destruct (lambert_argument_domain phi1 H1) as [D1 N1].
  destruct (lambert_argument_domain phi2 H2) as [D2 N2].
  assert (Harg : - exp (- phi1) < - exp (- phi2)).
  { pose proof (exp_increasing (- phi2) (- phi1)). lra. }
  pose proof (W0_increasing _ _ D1 Harg) as Hw.
  pose proof (W0_negative _ D2 N2) as Hneg2.
  pose proof (exp_gap phi1 H1) as E1.
  pose proof (exp_gap phi2 H2) as E2.
  apply exp_lt_inv.
  set (w1 := W0 (- exp (- phi1))) in *.
  set (w2 := W0 (- exp (- phi2))) in *.
  pose proof (exp_pos (gap phi1)). pose proof (exp_pos (gap phi2)).
  nra.
Qed.

Lemma join_Np_r k : join k Np = Np.
Proof. destruct k; reflexivity. Qed.

Lemma ndiv_np a b :
  join (kind_of a) (kind_of b) = Np ->
  ndiv a b = Ok (mk_num Np (fdiv (val a) (val b))).
Proof. intros H. unfold ndiv. rewrite H. reflexivity. Qed.

Lemma ndiv_nonzero a b :
  fis_zero (val b) = false ->
  ndiv a b = Ok (mk_num (join (kind_of a) (kind_of b)) (fdiv (val a) (val b))).
Proof.
  intros H. unfold ndiv. rewrite H.
  destruct (join (kind_of a) (kind_of b)); reflexivity.
Qed.

Lemma fis_zero_Fin x : x <> 0 -> fis_zero (Fin x) = false.
Proof. intros H. unfold fis_zero. destruct (Req_dec_T x 0); [contradiction|reflexivity]. Qed.

Lemma fdiv_Fin x y : y <> 0 -> fdiv (Fin x) (Fin y) = Fin (x / y).
Proof. intros H. unfold fdiv. destruct (Req_dec_T y 0); [contradiction|reflexivity]. Qed.

Lemma fsqrt_Fin x : 0 <= x -> fsqrt (Fin x) = Fin (sqrt x).
Proof. intros H. unfold fsqrt. destruct (Rlt_dec x 0); [lra|reflexivity]. Qed.

Lemma fexp_Fin x : x <= 709 -> fexp (Fin x) = Fin (exp x).
Proof.
  intros H. unfold fexp, exp_overflow.
  destruct (Rlt_dec _ x); [lra|reflexivity].
Qed.

Lemma flambertw_real_Fin y :
  y <> - exp (- 1) -> flambertw_real (Fin y) = Fin (lambertw_real y).
Proof.
  intros H. unfold flambertw_real.
  destruct (Req_dec_T y (- exp (- 1))); [contradiction|reflexivity].
Qed.

Lemma flambertw_real_branch_point y :
  y = - exp (- 1) -> flambertw_real (Fin y) = NaN.
Proof.
  intros H. unfold flambertw_real.
  destruct (Req_dec_T y (- exp (- 1))); [reflexivity|contradiction].
Qed.

(** The argument of [lambertw] is the branch point exactly when
    [phi = 1]. *)
Lemma lambert_argument_branch_point phi :
  - exp (- phi) = - exp (- 1) <-> phi = 1.
Proof.
  split.
  - intros H. assert (E : exp (- phi) = exp (- 1)) by lra.
    apply exp_inv in E. lra.
  - intros ->. reflexivity.
Qed.

Ltac thr_simpl :=
  cbn [bind try_except lit nneg nabs nadd nsub nmul np_sqrt np_exp
       np_real_lambertw np_isnan np_nan nlt ngt val kind_of join
       fneg fabs fadd fsub fmul fisnan].

Lemma psi_positive r l s : 0 < r + l -> 0 < s -> 0 < sqrt (2 * (r + l)) / s.
Proof.
  intros H Hs. apply Rdiv_lt_0_compat; [|assumption].
  apply sqrt_lt_R0. lra.
Qed.

Lemma psi_nonzero r l s : 0 < r + l -> s <> 0 -> sqrt (2 * (r + l)) / s <> 0.
Proof.
  intros H Hs. assert (0 < sqrt (2 * (r + l))) by (apply sqrt_lt_R0; lra).
  unfold Rdiv. apply Rmult_integral_contrapositive_currified.
  - lra.
  - apply Rinv_neq_0_compat. assumption.
Qed.

(** The tuple returned on finite inputs, with [np.exp] and [lambertw]
    still to be evaluated. *)
Lemma calculate_optimal_threshold_tuple kM kr kl ks kk kt m r l s k t :
  s <> 0 -> t <> 1 -> m <> 0 -> 0 < r + l ->
  let psi := sqrt (2 * (r + l)) / s in
  let C := k / (1 - t) in
  let phi := 1 + psi * (r + l) * C / m in
  calculate_optimal_threshold
    (mk_num kM (Fin m)) (mk_num kr (Fin r)) (mk_num kl (Fin l))
    (mk_num ks (Fin s)) (mk_num kk (Fin k)) (mk_num kt (Fin t))
  = Ok (mk_num Np
          (fmul (Fin (1 / psi))
             (fadd (Fin phi) (flambertw_real (fneg (fexp (Fin (- phi))))))),
        mk_num Np (Fin psi), mk_num Np (Fin phi),
        mk_num (join kk (join Py kt)) (Fin C)).
Proof.
  intros Hs Ht Hm Hrl psi C phi.
  unfold calculate_optimal_threshold.
  rewrite ndiv_np by reflexivity. thr_simpl.
  rewrite fsqrt_Fin by lra. rewrite fdiv_Fin by assumption. fold psi.
  rewrite ndiv_nonzero by (thr_simpl; apply fis_zero_Fin; lra). thr_simpl.
  rewrite fdiv_Fin by lra. fold C.
  rewrite ndiv_np by reflexivity. thr_simpl.
  rewrite fdiv_Fin by assumption. fold phi.
  rewrite ndiv_np by reflexivity. thr_simpl.
  rewrite fdiv_Fin by (apply psi_nonzero; assumption).
  reflexivity.
Qed.

(** Away from the branch point and from the overflow of [np.exp] the
    exact threshold is finite. *)
Lemma calculate_optimal_threshold_finite kM kr kl ks kk kt m r l s k t :
  s <> 0 -> t <> 1 -> m <> 0 -> 0 < r + l ->
  let psi := sqrt (2 * (r + l)) / s in
  let C := k / (1 - t) in
  let phi := 1 + psi * (r + l) * C / m in
  phi <> 1 -> - 709 <= phi ->
  calculate_optimal_threshold
    (mk_num kM (Fin m)) (mk_num kr (Fin r)) (mk_num kl (Fin l))
    (mk_num ks (Fin s)) (mk_num kk (Fin k)) (mk_num kt (Fin t))
  = Ok (mk_num Np (Fin (1 / psi * (phi + lambertw_real (- exp (- phi))))),
        mk_num Np (Fin psi), mk_num Np (Fin phi),
        mk_num (join kk (join Py kt)) (Fin C)).
Proof.
  intros Hs Ht Hm Hrl psi C phi Hb Ho.
  rewrite calculate_optimal_threshold_tuple by assumption.
  fold psi. fold C. fold phi.
  rewrite fexp_Fin by lra. cbn [fneg].
  rewrite flambertw_real_Fin
    by (intros E; apply lambert_argument_branch_point in E; contradiction).
  reflexivity.
Qed.

(** At the branch point, [phi = 1], the exact threshold is NaN. *)
Lemma calculate_optimal_threshold_branch_point kM kr kl ks kk kt m r l s k t :
  s <> 0 -> t <> 1 -> m <> 0 -> 0 < r + l ->
  let psi := sqrt (2 * (r + l)) / s in
  let C := k / (1 - t) in
  let phi := 1 + psi * (r + l) * C / m in
  phi = 1 ->
  calculate_optimal_threshold
    (mk_num kM (Fin m)) (mk_num kr (Fin r)) (mk_num kl (Fin l))
    (mk_num ks (Fin s)) (mk_num kk (Fin k)) (mk_num kt (Fin t))
  = Ok (mk_num Np NaN,
        mk_num Np (Fin psi), mk_num Np (Fin phi),
        mk_num (join kk (join Py kt)) (Fin C)).
Proof.
  intros Hs Ht Hm Hrl psi C phi Hb.
  rewrite calculate_optimal_threshold_tuple by assumption.
  fold psi. fold C. fold phi.
  rewrite fexp_Fin by lra. cbn [fneg].
  rewrite flambertw_real_branch_point
    by (apply lambert_argument_branch_point; assumption).
  reflexivity.
Qed.

Lemma calculate_npv_threshold_finite kM kr kl kk kt m r l k t :
  t <> 1 -> m <> 0 ->
  calculate_npv_threshold
    (mk_num kM (Fin m)) (mk_num kr (Fin r)) (mk_num kl (Fin l))
    (mk_num kk (Fin k)) (mk_num kt (Fin t))
  = Ok (mk_num (join (join (join kr kl) (join kk (join Py kt))) kM)
          (Fin (- (r + l) * (k / (1 - t)) / m))).
Proof.
  intros Ht Hm. unfold calculate_npv_threshold.
  rewrite ndiv_nonzero by (thr_simpl; apply fis_zero_Fin; lra). thr_simpl.
  rewrite fdiv_Fin by lra.
  rewrite ndiv_nonzero by (thr_simpl; apply fis_zero_Fin; lra). thr_simpl.
  rewrite fdiv_Fin by assumption. reflexivity.
Qed.

(** In the valid regime [phi >= 1]. *)
Lemma phi_lower_bound m r l s k t :
  0 < m -> 0 < s -> t < 1 -> 0 < r + l -> 0 <= k ->
  1 <= 1 + sqrt (2 * (r + l)) / s * (r + l) * (k / (1 - t)) / m.
Proof.
  intros Hm Hs Ht Hrl Hk.
  pose proof (psi_positive r l s Hrl Hs) as Hpsi.
  assert (0 <= k / (1 - t)) by (apply Rle_mult_inv_pos; lra).
  assert (0 <= sqrt (2 * (r + l)) / s * (r + l) * (k / (1 - t)) / m).
  { apply Rle_mult_inv_pos; [|assumption].
    apply Rmult_le_pos; [|assumption].
    apply Rmult_le_pos; lra. }
  lra.
Qed.

Lemma phi_lower_bound_strict m r l s k t :
  0 < m -> 0 < s -> t < 1 -> 0 < r + l -> 0 < k ->
  1 < 1 + sqrt (2 * (r + l)) / s * (r + l) * (k / (1 - t)) / m.
Proof.
  intros Hm Hs Ht Hrl Hk.
  pose proof (psi_positive r l s Hrl Hs) as Hpsi.
  assert (0 < k / (1 - t)) by (apply Rdiv_lt_0_compat; lra).
  assert (0 < sqrt (2 * (r + l)) / s * (r + l) * (k / (1 - t)) / m).
  { apply Rdiv_lt_0_compat; [|assumption].
    apply Rmult_lt_0_compat; [|assumption].
    apply Rmult_lt_0_compat; lra. }
  lra.
Qed.

(** The exact threshold in the valid regime with a positive cost:
    [gap phi / psi]. *)
Lemma calculate_optimal_threshold_valid kM kr kl ks kk kt m r l s k t :
  0 < m -> 0 < s -> t < 1 -> 0 < r + l -> 0 < k ->
  let psi := sqrt (2 * (r + l)) / s in
  let phi := 1 + psi * (r + l) * (k / (1 - t)) / m in
  calculate_optimal_threshold
    (mk_num kM (Fin m)) (mk_num kr (Fin r)) (mk_num kl (Fin l))
    (mk_num ks (Fin s)) (mk_num kk (Fin k)) (mk_num kt (Fin t))
  = Ok (mk_num Np (Fin (1 / psi * gap phi)),
        mk_num Np (Fin psi), mk_num Np (Fin phi),
        mk_num (join kk (join Py kt)) (Fin (k / (1 - t)))).
Proof.
  intros Hm Hs Ht Hrl Hk psi phi.
  assert (Hphi : 1 < phi) by (apply phi_lower_bound_strict; assumption).
  rewrite calculate_optimal_threshold_finite by (fold psi; fold phi; lra).
  fold psi. fold phi.
  destruct (lambert_argument_domain phi ltac:(lra)) as [Hd _].
  rewrite (lambertw_real_principal _ Hd). reflexivity.
Qed.

(** Without a cost the argument of [lambertw] is the branch point and
    the exact threshold is NaN. *)
Lemma calculate_optimal_threshold_zero_cost kM kr kl ks kk kt m r l s t :
  0 < m -> 0 < s -> t < 1 -> 0 < r + l ->
  exists psi phi C,
    calculate_optimal_threshold
      (mk_num kM (Fin m)) (mk_num kr (Fin r)) (mk_num kl (Fin l))
      (mk_num ks (Fin s)) (mk_num kk (Fin 0)) (mk_num kt (Fin t))
    = Ok (mk_num Np NaN, psi, phi, C).
Proof.
  intros Hm Hs Ht Hrl.
  rewrite calculate_optimal_threshold_branch_point; try lra.
  do 3 eexists. reflexivity.
Qed.

(** C1, for finite inputs with [sigma <> 0], [tau <> 1], [M <> 0] and
    [rho + lambda > 0].  [calculate_optimal_threshold] returns the tuple
    [(x_star, psi, phi, C_M)] with [psi = sqrt (2 (rho + lambda)) / sigma],
    [C_M = kappa / (1 - tau)] and [phi = 1 + psi (rho + lambda) C_M / M].
    For [phi > 1], [x_star = (1 / psi) (phi + w)] where [w] is the
    principal real Lambert-W value at [- exp (- phi)], the solution in
    [(-1, 0)] of [w * exp w = - exp (- phi)].  At [phi = 1], which a
    cost of zero gives, the argument is the branch point [-1/e] and
    [x_star] is NaN.  For [phi < 1], as long as [np.exp] does not
    overflow, [x_star = (1 / psi) (phi + w)] with [w] the real part of
    the complex principal value. *)
Theorem calculate_optimal_threshold_formulas kM kr kl ks kk kt m r l s k t :
  s <> 0 -> t <> 1 -> m <> 0 -> 0 < r + l ->
  let psi := sqrt (2 * (r + l)) / s in
  let C := k / (1 - t) in
  let phi := 1 + psi * (r + l) * C / m in
  let w := lambertw_real (- exp (- phi)) in
  exists x_star,
    calculate_optimal_threshold
      (mk_num kM (Fin m)) (mk_num kr (Fin r)) (mk_num kl (Fin l))
      (mk_num ks (Fin s)) (mk_num kk (Fin k)) (mk_num kt (Fin t))
    = Ok (x_star,
          mk_num Np (Fin psi), mk_num Np (Fin phi),
          mk_num (join kk (join Py kt)) (Fin C)) /\
    (1 < phi ->
       x_star = mk_num Np (Fin (1 / psi * (phi + w))) /\
       -1 < w < 0 /\ w * exp w = - exp (- phi)) /\
    (phi = 1 -> x_star = mk_num Np NaN) /\
    (phi < 1 -> - 709 <= phi ->
       x_star = mk_num Np (Fin (1 / psi * (phi + w)))).
Proof.
  intros Hs Ht Hm Hrl psi C phi w.
  destruct (Rtotal_order phi 1) as [Hlt|[Heq|Hgt]].
  - destruct (Rle_dec (- 709) phi) as [Ho|Ho].
    + eexists. split.
      * apply calculate_optimal_threshold_finite; try assumption;
          fold psi; fold C; fold phi; lra.
      * split; [intros; lra|]. split; [intros; lra|]. intros _ _. reflexivity.
    + eexists. split.
      * apply calculate_optimal_threshold_tuple; assumption.
      * split; [intros; lra|]. split; [intros; lra|]. intros _ H. lra.
  - eexists. split.
    + apply calculate_optimal_threshold_branch_point; assumption.
    + split; [intros; lra|]. split; [intros; reflexivity|]. intros; lra.
  - eexists. split.
    + apply calculate_optimal_threshold_finite; try assumption;
        fold psi; fold C; fold phi; lra.
    + split; [|split; intros; lra]. intros _. split; [reflexivity|].
      destruct (lambert_argument_domain phi ltac:(lra)) as [Hd Hn].
      pose proof (lambert_argument_strict phi Hgt) as Hst.
      unfold w. rewrite (lambertw_real_principal _ Hd).
      destruct (W0_spec _ Hd) as [A B].
      pose proof (W0_negative _ Hd Hn) as Hneg.
      split; [|assumption]. split; [|assumption].
      destruct A as [A|A]; [assumption|exfalso].
      rewrite <- A in B.
      replace (-1 * exp (-1)) with (- exp (- 1)) in B by lra. lra.
Qed.

(** The tuple of the example at the end of the module: a balance of
    400000 at a cost of 6000, where [phi > 1]. *)
Lemma calculate_optimal_threshold_formulas_witness :
  exists x C w,
    calculate_optimal_threshold (lit 400000) (lit 0.05) (lit 0.1)
      (lit 0.0109) (lit 6000) (lit 0.28)
    = Ok (x, mk_num Np (Fin (sqrt (2 * (0.05 + 0.1)) / 0.0109)),
          mk_num Np (Fin (1 + sqrt (2 * (0.05 + 0.1)) / 0.0109 * (0.05 + 0.1)
                              * (6000 / (1 - 0.28)) / 400000)), C) /\
    x = mk_num Np
          (Fin (1 / (sqrt (2 * (0.05 + 0.1)) / 0.0109)
                * (1 + sqrt (2 * (0.05 + 0.1)) / 0.0109 * (0.05 + 0.1)
                       * (6000 / (1 - 0.28)) / 400000 + w))) /\
    -1 < w < 0.
Proof.
  destruct (calculate_optimal_threshold_formulas Py Py Py Py Py Py
              400000 0.05 0.1 0.0109 6000 0.28) as [x [E [A _]]]; try lra.
  pose proof (phi_lower_bound_strict 400000 0.05 0.1 0.0109 6000 0.28
                ltac:(lra) ltac:(lra) ltac:(lra) ltac:(lra) ltac:(lra)) as Hphi.
  destruct (A Hphi) as [Ex [Hw _]].
  exists x. eexists. eexists. split; [exact E|]. split; [exact Ex|exact Hw].
Defined.

(** Counterexample to C1 over all inputs: with a tax rate of [1] the
    division [kappa / (1 - tau)], which is outside the [try] block,
    raises. *)
Lemma calculate_optimal_threshold_raises_at_full_tax :
  calculate_optimal_threshold (lit 400000) (lit 0.05) (lit 0.1)
    (lit 0.0109) (lit 6000) (lit 1) = Raise ZeroDivisionError.
Proof.
  unfold calculate_optimal_threshold.
  rewrite ndiv_np by reflexivity. thr_simpl.
  unfold ndiv. thr_simpl. unfold fis_zero.
  match goal with
  | |- context [Req_dec_T ?a ?b] => destruct (Req_dec_T a b)
  end; [reflexivity|lra].
Qed.

(** The two thresholds as real numbers: [x_npv = - (phi - 1) / psi] and
    [x_star = gap phi / psi]. *)
Lemma threshold_magnitudes m r l s k t :
  0 < m -> 0 < s -> t < 1 -> 0 < r + l -> 0 <= k ->
  let psi := sqrt (2 * (r + l)) / s in
  let phi := 1 + psi * (r + l) * (k / (1 - t)) / m in
  let xs := 1 / psi * gap phi in
  let xn := - (r + l) * (k / (1 - t)) / m in
  (xn <= 0 /\ 0 <= xs) /\ Rabs xn <= Rabs xs /\ (Rabs xn < Rabs xs <-> 0 < k).
Proof.
  intros Hm Hs Ht Hrl Hk psi phi xs xn.
  pose proof (psi_positive r l s Hrl Hs) as Hpsi. fold psi in Hpsi.
  assert (Hphi : 1 <= phi) by (apply phi_lower_bound; assumption).
  set (a := (r + l) * (k / (1 - t)) / m).
  assert (Ha : 0 <= a).
  { unfold a. apply Rle_mult_inv_pos; [|assumption].
    apply Rmult_le_pos; [lra|]. apply Rle_mult_inv_pos; lra. }
  assert (Hxn : xn = - a) by (unfold xn, a; field; lra).
  assert (Hphia : phi - 1 = psi * a) by (unfold phi, a; field; lra).
  assert (Hinv : 0 < 1 / psi) by (apply Rdiv_lt_0_compat; lra).
  assert (Ha' : a = 1 / psi * (phi - 1)) by (rewrite Hphia; field; lra).
  pose proof (gap_lower_bound phi Hphi) as Hgap.
  assert (Hle : a <= xs).
  { rewrite Ha'. unfold xs. apply Rmult_le_compat_l; lra. }
  assert (Hxs : 0 <= xs) by lra.
  rewrite Hxn, Rabs_Ropp, (Rabs_pos_eq a Ha), (Rabs_pos_eq xs Hxs).
  split; [lra|]. split; [assumption|]. split.
  - intros Hlt. destruct Hk as [Hk|Hk]; [assumption|exfalso].
    assert (Hphi1 : phi = 1) by (unfold phi; rewrite <- Hk; field; lra).
    assert (Ha0 : a = 0) by (unfold a; rewrite <- Hk; field; lra).
    unfold xs in Hlt. rewrite Hphi1, gap_at_one in Hlt. lra.
  - intros Hk'.
    assert (Hphi' : 1 < phi) by (apply phi_lower_bound_strict; assumption).
    pose proof (gap_lower_bound_strict phi Hphi') as Hgap'.
    rewrite Ha'. unfold xs. apply Rmult_lt_compat_l; lra.
Qed.

(** C2.  For [M > 0], [sigma > 0], [0 <= tau < 1], [rho + lambda > 0]
    and [kappa >= 0]: whenever [calculate_optimal_threshold] and
    [calculate_npv_threshold] both return a finite threshold,
    [|x_npv| <= |x_star|] and [x_npv] is strictly smaller in magnitude
    than [x_star]; moreover [x_npv < 0 < x_star].  For [kappa > 0] both
    are finite; for [kappa = 0] the exact threshold is NaN. *)
Theorem npv_threshold_within_optimal kM kr kl ks kk kt m r l s k t :
  0 < m -> 0 < s -> 0 <= t < 1 -> 0 < r + l -> 0 <= k ->
  (forall kx xs psi phi C kn xn,
     calculate_optimal_threshold
       (mk_num kM (Fin m)) (mk_num kr (Fin r)) (mk_num kl (Fin l))
       (mk_num ks (Fin s)) (mk_num kk (Fin k)) (mk_num kt (Fin t))
     = Ok (mk_num kx (Fin xs), psi, phi, C) ->
     calculate_npv_threshold
       (mk_num kM (Fin m)) (mk_num kr (Fin r)) (mk_num kl (Fin l))
       (mk_num kk (Fin k)) (mk_num kt (Fin t))
     = Ok (mk_num kn (Fin xn)) ->
     Rabs xn <= Rabs xs /\ Rabs xn < Rabs xs /\ xn < 0 < xs) /\
  (0 < k ->
   exists xs psi phi C kn xn,
     calculate_optimal_threshold
       (mk_num kM (Fin m)) (mk_num kr (Fin r)) (mk_num kl (Fin l))
       (mk_num ks (Fin s)) (mk_num kk (Fin k)) (mk_num kt (Fin t))
     = Ok (mk_num Np (Fin xs), psi, phi, C) /\
     calculate_npv_threshold
       (mk_num kM (Fin m)) (mk_num kr (Fin r)) (mk_num kl (Fin l))
       (mk_num kk (Fin k)) (mk_num kt (Fin t))
     = Ok (mk_num kn (Fin xn))) /\
  (k = 0 ->
   exists x psi phi C,
     calculate_optimal_threshold
       (mk_num kM (Fin m)) (mk_num kr (Fin r)) (mk_num kl (Fin l))
       (mk_num ks (Fin s)) (mk_num kk (Fin k)) (mk_num kt (Fin t))
     = Ok (x, psi, phi, C) /\ np_isnan x = true).
Proof.
  intros Hm Hs [Ht0 Ht] Hrl Hk.
  split; [|split].
  - intros kx xs psi phi C kn xn Eo En.
    destruct Hk as [Hk|Hk].
    + rewrite calculate_optimal_threshold_valid in Eo by assumption.
      rewrite calculate_npv_threshold_finite in En by lra.
      injection Eo as _ Exs _ _ _. injection En as _ Exn.
      destruct (threshold_magnitudes m r l s k t)
        as [[Hxn Hxs] [Hle Hiff]]; try assumption; try lra.
      rewrite Exs, Exn in *.
      assert (Hlt : Rabs xn < Rabs xs) by (apply Hiff; assumption).
      split; [assumption|]. split; [assumption|].
      split.
      * destruct Hxn as [Hxn|Hxn]; [assumption|exfalso].
        rewrite Hxn, Rabs_R0 in Hlt. rewrite Rabs_pos_eq in Hlt by assumption.
        rewrite <- Exn in Hxn.
        assert (0 < (r + l) * (k / (1 - t)) / m).
        { apply Rdiv_lt_0_compat; [|assumption].
          apply Rmult_lt_0_compat; [assumption|].
          apply Rdiv_lt_0_compat; lra. }
        assert (- (r + l) * (k / (1 - t)) / m
                = - ((r + l) * (k / (1 - t)) / m)) by (field; lra).
        lra.
      * destruct Hxs as [Hxs|Hxs]; [assumption|exfalso].
        rewrite <- Hxs, Rabs_R0 in Hlt. pose proof (Rabs_pos xn). lra.
    + exfalso. subst k.
      destruct (calculate_optimal_threshold_zero_cost kM kr kl ks kk kt m r l s t)
        as (ps & ph & C0 & E0); try assumption.
      rewrite E0 in Eo. discriminate.
  - intros Hk'. do 6 eexists. split.
    + apply calculate_optimal_threshold_valid; assumption.
    + apply calculate_npv_threshold_finite; lra.
  - intros ->.
    destruct (calculate_optimal_threshold_zero_cost kM kr kl ks kk kt m r l s t)
      as (ps & ph & C0 & E0); try assumption.
    do 4 eexists. split; [exact E0|reflexivity].
Qed.

(** The two thresholds of the example at the end of the module. *)
Lemma npv_threshold_within_optimal_witness :
  exists xs psi phi C kn xn,
    calculate_optimal_threshold (lit 400000) (lit 0.05) (lit 0.1)
      (lit 0.0109) (lit 6000) (lit 0.28)
    = Ok (mk_num Np (Fin xs), psi, phi, C) /\
    calculate_npv_threshold (lit 400000) (lit 0.05) (lit 0.1)
      (lit 6000) (lit 0.28)
    = Ok (mk_num kn (Fin xn)) /\
    Rabs xn <= Rabs xs /\ Rabs xn < Rabs xs /\ xn < 0 < xs.
Proof.
  destruct (npv_threshold_within_optimal Py Py Py Py Py Py
              400000 0.05 0.1 0.0109 6000 0.28) as [A [B _]]; try lra.
  destruct B as (xs & psi & phi & C & kn & xn & Eo & En); [lra|].
  exists xs, psi, phi, C, kn, xn.
  split; [exact Eo|]. split; [exact En|].
  exact (A _ _ _ _ _ _ _ Eo En).
Defined.

(** The exact threshold is positive and decreases with the balance. *)
Lemma threshold_decreasing_in_M r l s k t m1 m2 :
  0 < s -> t < 1 -> 0 < r + l -> 0 < k -> 0 < m1 -> m1 < m2 ->
  let psi := sqrt (2 * (r + l)) / s in
  let x m := 1 / psi * gap (1 + psi * (r + l) * (k / (1 - t)) / m) in
  0 < x m2 < x m1.
Proof.
  intros Hs Ht Hrl Hk Hm1 Hm12 psi x.
  pose proof (psi_positive r l s Hrl Hs) as Hpsi. fold psi in Hpsi.
  assert (Hinv : 0 < 1 / psi) by (apply Rdiv_lt_0_compat; lra).
  set (c := psi * (r + l) * (k / (1 - t))).
  assert (Hc : 0 < c).
  { unfold c. apply Rmult_lt_0_compat; [apply Rmult_lt_0_compat; lra|].
    apply Rdiv_lt_0_compat; lra. }
  assert (H2 : 0 < c / m2) by (apply Rdiv_lt_0_compat; lra).
  assert (H12 : c / m2 < c / m1).
  { unfold Rdiv. apply Rmult_lt_compat_l; [assumption|].
    apply Rinv_lt_contravar; [apply Rmult_lt_0_compat; lra|assumption]. }
  pose proof (gap_lower_bound_strict (1 + c / m2) ltac:(lra)) as Hg2.
  pose proof (gap_increasing (1 + c / m2) (1 + c / m1) ltac:(lra) ltac:(lra)) as Hg.
  unfold x. fold c. split.
  - apply Rmult_lt_0_compat; lra.
  - apply Rmult_lt_compat_l; lra.
Qed.

(** X27.  With [rho], [lambda], [sigma], [tau] and a cost [kappa > 0]
    held fixed, and [0 < M1 < M2], the exact threshold is finite at both
    balances and [|x_star M2| < |x_star M1|].  The value returned is
    positive, so [- x_star * 10000] is negative and increases with the
    balance. *)
Theorem optimal_threshold_decreasing_in_balance
  kM kr kl ks kk kt r l s k t m1 m2 :
  0 < s -> 0 <= t < 1 -> 0 < r + l -> 0 < k -> 0 < m1 -> m1 < m2 ->
  exists x1 psi1 phi1 C1 x2 psi2 phi2 C2,
    calculate_optimal_threshold
      (mk_num kM (Fin m1)) (mk_num kr (Fin r)) (mk_num kl (Fin l))
      (mk_num ks (Fin s)) (mk_num kk (Fin k)) (mk_num kt (Fin t))
    = Ok (mk_num Np (Fin x1), psi1, phi1, C1) /\
    calculate_optimal_threshold
      (mk_num kM (Fin m2)) (mk_num kr (Fin r)) (mk_num kl (Fin l))
      (mk_num ks (Fin s)) (mk_num kk (Fin k)) (mk_num kt (Fin t))
    = Ok (mk_num Np (Fin x2), psi2, phi2, C2) /\
    Rabs x2 < Rabs x1 /\
    0 < x2 < x1 /\
    nmul (nneg (mk_num Np (Fin x1))) (lit 10000)
      = mk_num Np (Fin (- x1 * 10000)) /\
    nmul (nneg (mk_num Np (Fin x2))) (lit 10000)
      = mk_num Np (Fin (- x2 * 10000)) /\
    - x1 * 10000 < - x2 * 10000 < 0.
Proof.
  intros Hs [Ht0 Ht] Hrl Hk Hm1 Hm12.
  pose proof (threshold_decreasing_in_M r l s k t m1 m2 Hs Ht Hrl Hk Hm1 Hm12)
    as Hx. cbv zeta in Hx.
  do 8 eexists. split; [|split].
  - apply calculate_optimal_threshold_valid; lra.
  - apply calculate_optimal_threshold_valid; lra.
  - rewrite !Rabs_pos_eq by lra.
    repeat split; try reflexivity; lra.
Qed.

(** Balances of 100000 and 200000 with a fixed cost of 2000. *)
Lemma optimal_threshold_decreasing_in_balance_witness :
  exists x1 psi1 phi1 C1 x2 psi2 phi2 C2,
    calculate_optimal_threshold (lit 100000) (lit 0.05) (lit 0.1)
      (lit 0.0109) (lit 2000) (lit 0.28)
    = Ok (mk_num Np (Fin x1), psi1, phi1, C1) /\
    calculate_optimal_threshold (lit 200000) (lit 0.05) (lit 0.1)
      (lit 0.0109) (lit 2000) (lit 0.28)
    = Ok (mk_num Np (Fin x2), psi2, phi2, C2) /\
    Rabs x2 < Rabs x1.
Proof.
  destruct (optimal_threshold_decreasing_in_balance Py Py Py Py Py Py
              0.05 0.1 0.0109 2000 0.28 100000 200000)
    as (x1 & psi1 & phi1 & C1 & x2 & psi2 & phi2 & C2 & E1 & E2 & H & _);
    try lra.
  exists x1, psi1, phi1, C1, x2, psi2, phi2, C2. auto.
Defined.




(** A Lambert-W argument below [-1/e] (that is, [phi < 1], as with a
    negative cost) does not yield NaN either: the real part of the
    complex principal value is used. *)
Lemma calculate_optimal_threshold_below_branch_point
  kM kr kl ks kk kt m r l s k t :
  s <> 0 -> t <> 1 -> m <> 0 -> 0 < r + l ->
  1 + sqrt (2 * (r + l)) / s * (r + l) * (k / (1 - t)) / m < 1 ->
  exists x psi phi C,
    calculate_optimal_threshold
      (mk_num kM (Fin m)) (mk_num kr (Fin r)) (mk_num kl (Fin l))
      (mk_num ks (Fin s)) (mk_num kk (Fin k)) (mk_num kt (Fin t))
    = Ok (x, psi, phi, C) /\
    np_isnan x = false /\
    (- 709 <= 1 + sqrt (2 * (r + l)) / s * (r + l) * (k / (1 - t)) / m ->
     val (np_exp (nneg phi))
     = Fin (exp (- (1 + sqrt (2 * (r + l)) / s * (r + l)
                          * (k / (1 - t)) / m)))) /\
    - exp (- (1 + sqrt (2 * (r + l)) / s * (r + l) * (k / (1 - t)) / m))
      < - exp (- 1).
Proof.
  intros Hs Ht Hm Hrl Hphi.
  rewrite calculate_optimal_threshold_tuple by assumption.
  set (psi := sqrt (2 * (r + l)) / s) in *.
  set (phi := 1 + psi * (r + l) * (k / (1 - t)) / m) in *.
  assert (Hlt : - exp (- phi) < - exp (- 1))
    by (apply Ropp_lt_contravar, exp_increasing; lra).
  do 4 eexists. split; [reflexivity|].
  split; [|split; [|exact Hlt]].
  - unfold np_isnan. cbn [val]. unfold fexp.
    destruct (Rlt_dec exp_overflow (- phi)).
    + cbn [fneg flambertw_real fadd fmul]. unfold inf_signed.
      pose proof (psi_nonzero r l s Hrl Hs) as Hpsi. fold psi in Hpsi.
      assert (1 / psi <> 0).
      { unfold Rdiv. rewrite Rmult_1_l. now apply Rinv_neq_0_compat. }
      destruct (Rlt_dec 0 (1 / psi)); [reflexivity|].
      destruct (Rlt_dec (1 / psi) 0); [reflexivity|lra].
    + cbn [fneg]. rewrite flambertw_real_Fin by lra. reflexivity.
  - intros Ho. unfold np_exp, nneg. cbn [val fneg].
    apply fexp_Fin. lra.
Qed.


Lemma nlt_product ka kb a b c :
  nlt (nmul (mk_num ka (Fin a)) (mk_num kb (Fin b))) (lit c)
  = if Rlt_dec (a * b) c then true else false.
Proof. reflexivity. Qed.

(** [calculate_lambda] never raises: its division has a numpy operand. *)
Lemma calculate_lambda_returns mu i0 Gamma pi :
  exists l, calculate_lambda mu i0 Gamma pi = Ok l.
Proof.
  unfold calculate_lambda. destruct (nlt (nmul i0 Gamma) (lit 100)).
  - rewrite ndiv_np by (thr_simpl; apply join_Np_r). thr_simpl. eexists. reflexivity.
  - eexists. reflexivity.
Qed.

Lemma calculate_lambda_finite kmu ki kG kpi mu i0 G pi :
  0 < i0 -> 0 < G ->
  exists kl l,
    calculate_lambda (mk_num kmu (Fin mu)) (mk_num ki (Fin i0))
      (mk_num kG (Fin G)) (mk_num kpi (Fin pi))
    = Ok (mk_num kl (Fin l)) /\ mu + pi <= l.
Proof.
  intros Hi HG. unfold calculate_lambda. rewrite nlt_product.
  assert (HiG : 0 < i0 * G) by (apply Rmult_lt_0_compat; assumption).
  destruct (Rlt_dec (i0 * G) 100).
  - rewrite ndiv_np by (thr_simpl; apply join_Np_r). thr_simpl.
    rewrite fexp_Fin by lra. thr_simpl.
    pose proof (exp_ineq1 (i0 * G) ltac:(lra)) as Hexp.
    rewrite fdiv_Fin by lra.
    do 2 eexists. split; [reflexivity|].
    match goal with
    | |- _ <= _ + ?d + _ => assert (0 < d) by (apply Rdiv_lt_0_compat; lra)
    end.
    lra.
  - thr_simpl. do 2 eexists. split; [reflexivity|]. lra.
Qed.

(** Away from [tau = 1], [calculate_optimal_threshold] returns: its
    other divisions have a numpy operand. *)
Lemma calculate_optimal_threshold_returns M rho lambda_val sigma kappa kt t :
  t <> 1 ->
  exists res,
    calculate_optimal_threshold M rho lambda_val sigma kappa (mk_num kt (Fin t))
    = Ok res.
Proof.
  intros Ht. unfold calculate_optimal_threshold.
  rewrite ndiv_np by reflexivity. cbn [bind].
  rewrite ndiv_nonzero by (thr_simpl; apply fis_zero_Fin; lra). cbn [bind].
  rewrite ndiv_np by reflexivity. cbn [bind].
  rewrite ndiv_np by reflexivity. cbn [bind try_except].
  eexists. reflexivity.
Qed.

Lemma calculate_square_root_approximation_returns
  kM m rho lambda_val sigma kappa kt t :
  t <> 1 -> m <> 0 ->
  calculate_square_root_approximation (mk_num kM (Fin m)) rho lambda_val sigma
    kappa (mk_num kt (Fin t))
  = Ok (nneg (nmul
          (nmul sigma
             (np_sqrt (mk_num (join (kind_of kappa) (join kM (join Py kt)))
                         (fdiv (val kappa) (Fin (m * (1 - t)))))))
          (np_sqrt (nmul (lit 2) (nadd rho lambda_val))))).
Proof.
  intros Ht Hm. unfold calculate_square_root_approximation.
  rewrite ndiv_nonzero.
  - reflexivity.
  - thr_simpl. apply fis_zero_Fin. intros E.
    apply Rmult_integral in E. lra.
Qed.

Lemma calculate_npv_threshold_returns kM m rho lambda_val kappa kt t :
  t <> 1 -> m <> 0 ->
  exists x,
    calculate_npv_threshold (mk_num kM (Fin m)) rho lambda_val kappa
      (mk_num kt (Fin t)) = Ok x.
Proof.
  intros Ht Hm. unfold calculate_npv_threshold.
  rewrite ndiv_nonzero by (thr_simpl; apply fis_zero_Fin; lra). cbn [bind].
  rewrite ndiv_nonzero by (thr_simpl; apply fis_zero_Fin; lra). cbn [bind].
  eexists. reflexivity.
Qed.

Lemma trigger_rate_of_decimal_returns
  c kM m G rho sigma kt t fc pts mu pi :
  t <> 1 -> m <> 0 ->
  exists res,
    trigger_rate_of_decimal c (mk_num kM (Fin m)) G rho sigma
      (mk_num kt (Fin t)) fc pts mu pi = Ok res /\
    current_rate res = c /\
    current_rate_pct res = nmul c (lit 100) /\
    kappa res = calculate_kappa (mk_num kM (Fin m)) pts fc (mk_num kt (Fin t)) /\
    calculate_lambda mu c G pi = Ok (lambda res).
Proof.
  intros Ht Hm. unfold trigger_rate_of_decimal.
  destruct (calculate_lambda_returns mu c G pi) as [lam El]. rewrite El.
  cbn [bind].
  destruct (calculate_optimal_threshold_returns (mk_num kM (Fin m)) rho lam sigma
              (calculate_kappa (mk_num kM (Fin m)) pts fc (mk_num kt (Fin t)))
              kt t Ht) as [[[[x ps] ph] C] Eo].
  rewrite Eo. cbn [bind].
  rewrite calculate_square_root_approximation_returns by assumption. cbn [bind].
  destruct (calculate_npv_threshold_returns kM m rho lam
              (calculate_kappa (mk_num kM (Fin m)) pts fc (mk_num kt (Fin t)))
              kt t Ht Hm) as [xn En].
  rewrite En. cbn [bind].
  eexists. split; [reflexivity|]. cbn. auto.
Qed.

Lemma calculate_trigger_rate_percent
  k r M G rho sigma tau fc pts mu pi :
  1 < r ->
  calculate_trigger_rate (mk_num k (Fin r)) M G rho sigma tau fc pts mu pi
  = trigger_rate_of_decimal (mk_num k (Fin (r / 100))) M G rho sigma tau fc pts
      mu pi.
Proof.
  intros H. unfold calculate_trigger_rate, ngt, fgt, flt, lit. cbn [val kind_of].
  destruct (Rlt_dec 1 r); [|contradiction].
  rewrite fdiv_Fin by lra. reflexivity.
Qed.

Lemma calculate_trigger_rate_decimal
  k c M G rho sigma tau fc pts mu pi :
  c <= 1 ->
  calculate_trigger_rate (mk_num k (Fin c)) M G rho sigma tau fc pts mu pi
  = trigger_rate_of_decimal (mk_num k (Fin c)) M G rho sigma tau fc pts mu pi.
Proof.
  intros H. unfold calculate_trigger_rate, ngt, fgt, flt, lit. cbn [val kind_of].
  destruct (Rlt_dec 1 c); [lra|reflexivity].
Qed.

(** C9.  A [current_rate] above [1] is divided by [100] before
    anything else is computed, and a rate of at most [1] is used
    unchanged; hence for [1 < r <= 100],
    [calculate_trigger_rate r] returns what
    [calculate_trigger_rate (r / 100)] returns. *)
Theorem calculate_trigger_rate_normalizes_percent
  k r M G rho sigma tau fc pts mu pi :
  1 < r -> r <= 100 ->
  calculate_trigger_rate (mk_num k (Fin r)) M G rho sigma tau fc pts mu pi
  = trigger_rate_of_decimal (mk_num k (Fin (r / 100))) M G rho sigma tau fc pts
      mu pi /\
  calculate_trigger_rate (mk_num k (Fin r)) M G rho sigma tau fc pts mu pi
  = calculate_trigger_rate (mk_num k (Fin (r / 100))) M G rho sigma tau fc pts
      mu pi /\
  (forall c, c <= 1 ->
     calculate_trigger_rate (mk_num k (Fin c)) M G rho sigma tau fc pts mu pi
     = trigger_rate_of_decimal (mk_num k (Fin c)) M G rho sigma tau fc pts
         mu pi).
Proof.
  intros H1 H100. split; [|split].
  - apply calculate_trigger_rate_percent; assumption.
  - rewrite calculate_trigger_rate_percent by assumption.
    rewrite calculate_trigger_rate_decimal by lra. reflexivity.
  - intros c Hc. apply calculate_trigger_rate_decimal; assumption.
Qed.

(** A rate given as [6.5] and as [6.5 / 100]. *)
Lemma calculate_trigger_rate_normalizes_percent_witness :
  calculate_trigger_rate (lit 6.5) (lit 400000) (lit 25) (lit 0.05)
    (lit 0.0109) (lit 0.28) (lit 2000) (lit 0.01) (lit 0.10) (lit 0.03)
  = calculate_trigger_rate (lit (6.5 / 100)) (lit 400000) (lit 25) (lit 0.05)
      (lit 0.0109) (lit 0.28) (lit 2000) (lit 0.01) (lit 0.10) (lit 0.03).
Proof.
  refine (proj1 (proj2 (calculate_trigger_rate_normalizes_percent Py 6.5
            (lit 400000) (lit 25) (lit 0.05) (lit 0.0109) (lit 0.28)
            (lit 2000) (lit 0.01) (lit 0.10) (lit 0.03) _ _))); lra.
Defined.

(** Counterexample to C9 above [100]: [150] is read as [1.5], while
    [150 / 100] is divided once more and read as [0.015]. *)
Lemma calculate_trigger_rate_above_100_differs :
  exists res1 res2,
    calculate_trigger_rate (lit 150) (lit 400000) (lit 25) (lit 0.05)
      (lit 0.0109) (lit 0.28) (lit 2000) (lit 0.01) (lit 0.10) (lit 0.03)
    = Ok res1 /\
    calculate_trigger_rate (lit (150 / 100)) (lit 400000) (lit 25) (lit 0.05)
      (lit 0.0109) (lit 0.28) (lit 2000) (lit 0.01) (lit 0.10) (lit 0.03)
    = Ok res2 /\
    current_rate res1 = lit (150 / 100) /\
    current_rate res2 = lit (150 / 100 / 100) /\
    res1 <> res2.
Proof.
  unfold lit at 1 11.
  rewrite !calculate_trigger_rate_percent by lra.
  destruct (trigger_rate_of_decimal_returns (lit (150 / 100)) Py 400000
              (lit 25) (lit 0.05) (lit 0.0109) Py 0.28 (lit 2000) (lit 0.01)
              (lit 0.10) (lit 0.03)) as (res1 & E1 & C1 & _); try lra.
  destruct (trigger_rate_of_decimal_returns (lit (150 / 100 / 100)) Py 400000
              (lit 25) (lit 0.05) (lit 0.0109) Py 0.28 (lit 2000) (lit 0.01)
              (lit 0.10) (lit 0.03)) as (res2 & E2 & C2 & _); try lra.
  exists res1, res2. repeat split; try assumption.
  intros E. rewrite E, C2 in C1. unfold lit in C1.
  injection C1 as C1. lra.
Qed.




(** With a balance of zero [calculate_trigger_rate] raises: the
    divisions of [calculate_square_root_approximation] are Python's. *)
Lemma calculate_trigger_rate_raises_at_zero_balance :
  calculate_trigger_rate (lit 0.065) (lit 0) (lit 25) (lit 0.05)
    (lit 0.0109) (lit 0.28) (lit 2000) (lit 0.01) (lit 0.10) (lit 0.03)
  = Raise ZeroDivisionError.
Proof.
  unfold lit at 1. rewrite calculate_trigger_rate_decimal by lra.
  unfold trigger_rate_of_decimal.
  destruct (calculate_lambda_returns (lit 0.10) (mk_num Py (Fin 0.065))
              (lit 25) (lit 0.03)) as [lam El].
  rewrite El. cbn [bind].
  destruct (calculate_optimal_threshold_returns (lit 0) (lit 0.05) lam
              (lit 0.0109)
              (calculate_kappa (lit 0) (lit 0.01) (lit 2000) (lit 0.28))
              Py 0.28 ltac:(lra)) as [[[[x ps] ph] C] Eo].
  change (mk_num Py (Fin 0.28)) with (lit 0.28) in Eo.
  rewrite Eo. cbn [bind].
  unfold calculate_square_root_approximation, ndiv, calculate_kappa.
  thr_simpl. unfold fis_zero.
  match goal with
  | |- context [Req_dec_T ?a ?b] => destruct (Req_dec_T a b)
  end; [reflexivity|lra].
Qed.

End ThresholdFacts.

Section ReadinessFacts.
Import Threshold.
Local Open Scope R_scope.
Local Open Scope string_scope.

Variable format_0f : num -> string.

(** C7.  With both rates present, [is_ready_to_refinance] answers
    [is_ready = True] exactly when [trigger_rate - available_rate > 0]
    (a difference of [0] is not ready), records the difference, and its
    message is never the missing-data message.  With either rate
    missing, it answers not ready, with no difference and the message
    ["Missing rate data"]. *)
Theorem is_ready_to_refinance_spec :
  (forall kt ka x y,
     is_ready (is_ready_to_refinance format_0f
                 (Some (mk_num kt (Fin x))) (Some (mk_num ka (Fin y)))) = true
     <-> 0 < x - y) /\
  (forall t a,
     is_ready (is_ready_to_refinance format_0f (Some t) (Some a))
       = ngt (nsub t a) (lit 0) /\
     difference (is_ready_to_refinance format_0f (Some t) (Some a))
       = Some (nsub t a) /\
     message (is_ready_to_refinance format_0f (Some t) (Some a))
       <> "Missing rate data") /\
  (forall a,
     is_ready_to_refinance format_0f None a
     = mk_readiness false None None "Missing rate data") /\
  (forall t,
     is_ready_to_refinance format_0f t None
     = mk_readiness false None None "Missing rate data").
Proof.
  split; [|split; [|split]].
  - intros kt ka x y. unfold is_ready_to_refinance, ngt, fgt, flt, nsub, lit.
    cbn [val kind_of fsub fadd fneg].
    destruct (Rlt_dec 0 (x + - y)); cbn [is_ready]; split; intros; 
      try reflexivity; try discriminate; lra.
  - intros t a. unfold is_ready_to_refinance.
    destruct (ngt (nsub t a) (lit 0)); cbn [is_ready difference message];
      repeat split; cbn; discriminate.
  - intros a. reflexivity.
  - intros [t|]; reflexivity.
Qed.

(** Equal rates are not ready. *)
Example is_ready_to_refinance_at_equal_rates :
  is_ready (is_ready_to_refinance format_0f (Some (lit 0.06)) (Some (lit 0.06)))
  = false.
Proof.
  unfold is_ready_to_refinance, ngt, fgt, flt, nsub, lit.
  cbn [val kind_of fsub fadd fneg].
  match goal with
  | |- context [Rlt_dec ?a ?b] => destruct (Rlt_dec a b)
  end; [lra|reflexivity].
Qed.

End ReadinessFacts.


(* ================================================================== *)
(** * The LLPA engine of llpa.py *)
(* ================================================================== *)

Section LlpaMore.
Import PyDict.
Local Open Scope string_scope.
Local Open Scope Q_scope.

Lemma forallb_In {A : Type} (f : A -> bool) (l : list A) (x : A) :
  forallb f l = true -> In x l -> f x = true.
Proof. intros H Hin. rewrite forallb_forall in H. now apply H. Qed.

Lemma in_all_pairs {A B : Type} (l1 : list A) (l2 : list B) a b :
  In a l1 -> In b l2 -> In (a, b) (all_pairs l1 l2).
Proof.
  intros Ha Hb. unfold all_pairs. apply in_flat_map. exists a. split; [assumption|].
  now apply in_map.
Qed.

Lemma llpa_ltv_bucket_in ltv : In (Llpa.get_ltv_bucket ltv) ltv_buckets.
Proof. exact (rc_ltv_bucket_in ltv). Qed.

Lemma llpa_cashout_bucket_in ltv : In (Llpa.get_ltv_bucket_cashout ltv) cashout_buckets.
Proof. exact (cashout_bucket_in ltv). Qed.

Lemma llpa_score_bucket_in cs : In (Llpa.get_credit_score_bucket cs) score_buckets.
Proof. exact (rc_score_bucket_in cs). Qed.

Lemma ltv_cashout_pair_in ltv :
  In (Llpa.get_ltv_bucket ltv, Llpa.get_ltv_bucket_cashout ltv) ltv_cashout_pairs.
Proof.
  unfold Llpa.get_ltv_bucket, Llpa.get_ltv_bucket_cashout.
  repeat match goal with |- context [Qle_bool ?a ?b] => destruct (Qle_bool a b) end;
    simpl; tauto.
Qed.

Lemma score_order_in cs1 cs2 :
  (cs1 <= cs2)%Z ->
  In (Llpa.get_credit_score_bucket cs1, Llpa.get_credit_score_bucket cs2) score_order.
Proof.
  intros H. unfold Llpa.get_credit_score_bucket.
  repeat match goal with
  | |- context [Z.leb ?a cs1] => destruct (Z.leb_spec a cs1)
  end;
  repeat match goal with
  | |- context [Z.leb ?a cs2] => destruct (Z.leb_spec a cs2)
  end; try lia; vm_compute; tauto.
Qed.

(** A subscript of a two-level table whose rows all have the columns
    [cols]. *)
Lemma get2_entry (t : dict (dict Q)) (cols : list string) sb lb :
  forallb (fun sb' => forallb (fun lb' =>
             match get2 sb' lb' t with Some _ => true | None => false end) cols)
          score_buckets = true ->
  In sb score_buckets -> In lb cols ->
  get2 sb lb t = Some (entry t sb lb).
Proof.
  intros Hall Hs Hl.
  pose proof (forallb_In _ _ _ (forallb_In _ _ _ Hall Hs) Hl) as H.
  cbv beta in H. unfold entry, get2, get_default in *.
  destruct (get sb t) as [row|]; [|discriminate].
  destruct (get lb row); [reflexivity|discriminate].
Qed.

(** [get_credit_score_ltv_adjustment] never raises [KeyError]; its value
    is the entry of the table of the purpose. *)
Lemma credit_adjustment_entry cs ltv purpose :
  Llpa.get_credit_score_ltv_adjustment cs ltv purpose =
  Some (entry (credit_table purpose) (Llpa.get_credit_score_bucket cs)
          (purpose_bucket purpose ltv)).
Proof.
  pose proof (llpa_score_bucket_in cs) as Hs.
  pose proof (llpa_ltv_bucket_in ltv) as Hl.
  pose proof (llpa_cashout_bucket_in ltv) as Hc.
  unfold Llpa.get_credit_score_ltv_adjustment, credit_table, purpose_bucket.
  destruct (purpose =? "Purchase") eqn:E1.
  { apply String.eqb_eq in E1. subst purpose. cbn [String.eqb Ascii.eqb Bool.eqb].
    apply (get2_entry _ ltv_buckets); [vm_compute; reflexivity | assumption | assumption]. }
  destruct (purpose =? "Rate/Term Refinance") eqn:E2.
  { apply String.eqb_eq in E2. subst purpose. cbn [String.eqb Ascii.eqb Bool.eqb].
    apply (get2_entry _ ltv_buckets); [vm_compute; reflexivity | assumption | assumption]. }
  destruct (purpose =? "Cash-Out Refinance") eqn:E3.
  { apply (get2_entry _ cashout_buckets); [vm_compute; reflexivity | assumption | assumption]. }
  reflexivity.
Qed.

(** The other four categories as table entries. *)
Lemma all_entries_nonneg :
  forallb (fun t => forallb (fun sb => forallb (fun lb => Qle_bool 0 (entry t sb lb))
                                         ltv_buckets) score_buckets)
    [Llpa.PURCHASE_CREDIT_SCORE_LTV; Llpa.LIMITED_CASHOUT_CREDIT_SCORE_LTV;
     Llpa.CASHOUT_CREDIT_SCORE_LTV] = true.
Proof. vm_compute. reflexivity. Qed.

Lemma credit_table_cases purpose :
  In (credit_table purpose)
    [Llpa.PURCHASE_CREDIT_SCORE_LTV; Llpa.LIMITED_CASHOUT_CREDIT_SCORE_LTV;
     Llpa.CASHOUT_CREDIT_SCORE_LTV; []].
Proof.
  unfold credit_table.
  destruct (purpose =? "Purchase"); [simpl; tauto|].
  destruct (purpose =? "Rate/Term Refinance"); [simpl; tauto|].
  destruct (purpose =? "Cash-Out Refinance"); simpl; tauto.
Qed.

Lemma purpose_bucket_in purpose ltv : In (purpose_bucket purpose ltv) ltv_buckets.
Proof.
  unfold purpose_bucket. destruct (purpose =? "Cash-Out Refinance").
  - pose proof (llpa_cashout_bucket_in ltv) as H. simpl in *. tauto.
  - apply llpa_ltv_bucket_in.
Qed.

Lemma credit_entry_nonneg cs ltv purpose :
  0 <= entry (credit_table purpose) (Llpa.get_credit_score_bucket cs)
         (purpose_bucket purpose ltv).
Proof.
  pose proof (llpa_score_bucket_in cs) as Hs.
  pose proof (purpose_bucket_in purpose ltv) as Hl.
  pose proof (credit_table_cases purpose) as Ht.
  generalize dependent (credit_table purpose). intros t Ht.
  destruct Ht as [<-|[<-|[<-|[<-|[]]]]];
    try (apply Qle_bool_iff;
         refine (forallb_In _ _ _ (forallb_In _ _ _ (forallb_In _ _ _ all_entries_nonneg _) Hs) Hl);
         simpl; tauto).
  unfold entry, get_default. simpl. unfold Qle. simpl. lia.
Qed.

Lemma row_entries_bounds :
  forallb (fun '(row, lo, hi) =>
             forallb (fun lb => Qle_bool lo (get_default lb 0.0 row) &&
                                Qle_bool (get_default lb 0.0 row) hi) ltv_buckets)
    [(Llpa.CONDO_ADJUSTMENT, 0, 0.75); (Llpa.MULTI_UNIT_ADJUSTMENT, 0, 0.625);
     (Llpa.MANUFACTURED_ADJUSTMENT, 0.5, 0.5);
     (Llpa.INVESTMENT_PROPERTY_ADJUSTMENT, 1.125, 4.125);
     (Llpa.SECOND_HOME_ADJUSTMENT, 1.125, 4.125);
     (Llpa.HIGH_BALANCE_FIXED, 0.5, 1); (Llpa.HIGH_BALANCE_ARM, 1.25, 2.75);
     (Llpa.SUBORDINATE_FINANCING_ADJUSTMENT, 0.625, 1.875)] = true.
Proof. vm_compute. reflexivity. Qed.

Lemma row_entry_bounds row lo hi lb :
  In (row, lo, hi)
    [(Llpa.CONDO_ADJUSTMENT, 0, 0.75); (Llpa.MULTI_UNIT_ADJUSTMENT, 0, 0.625);
     (Llpa.MANUFACTURED_ADJUSTMENT, 0.5, 0.5);
     (Llpa.INVESTMENT_PROPERTY_ADJUSTMENT, 1.125, 4.125);
     (Llpa.SECOND_HOME_ADJUSTMENT, 1.125, 4.125);
     (Llpa.HIGH_BALANCE_FIXED, 0.5, 1); (Llpa.HIGH_BALANCE_ARM, 1.25, 2.75);
     (Llpa.SUBORDINATE_FINANCING_ADJUSTMENT, 0.625, 1.875)] ->
  In lb ltv_buckets ->
  lo <= get_default lb 0.0 row <= hi.
Proof.
  intros Hr Hl.
  pose proof (forallb_In _ _ _ (forallb_In _ _ _ row_entries_bounds Hr) Hl) as H.
  cbv beta in H. apply andb_true_iff in H. destruct H as [H1 H2].
  split; now apply Qle_bool_iff.
Qed.

Lemma property_adjustment_entry pt ltv purpose :
  Llpa.get_property_type_adjustment pt ltv purpose =
  get_default (purpose_bucket purpose ltv) 0.0 (property_row pt).
Proof.
  unfold Llpa.get_property_type_adjustment, property_row, purpose_bucket.
  destruct (pt =? "Condo"); [reflexivity|].
  destruct (mem pt _); [reflexivity|].
  destruct (pt =? "Manufactured Home"); reflexivity.
Qed.

Lemma occupancy_adjustment_entry occ ltv purpose :
  Llpa.get_occupancy_adjustment occ ltv purpose =
  get_default (purpose_bucket purpose ltv) 0.0 (occupancy_row occ).
Proof.
  unfold Llpa.get_occupancy_adjustment, occupancy_row, purpose_bucket.
  destruct (occ =? "Investment Property"); [reflexivity|].
  destruct (occ =? "Second Home"); reflexivity.
Qed.

Lemma property_row_cases pt :
  In (property_row pt)
    [Llpa.CONDO_ADJUSTMENT; Llpa.MULTI_UNIT_ADJUSTMENT;
     Llpa.MANUFACTURED_ADJUSTMENT; []].
Proof.
  unfold property_row. destruct (pt =? "Condo"); [simpl; tauto|].
  destruct (mem pt _); [simpl; tauto|].
  destruct (pt =? "Manufactured Home"); simpl; tauto.
Qed.

Lemma occupancy_row_cases occ :
  In (occupancy_row occ)
    [Llpa.INVESTMENT_PROPERTY_ADJUSTMENT; Llpa.SECOND_HOME_ADJUSTMENT; []].
Proof.
  unfold occupancy_row. destruct (occ =? "Investment Property"); [simpl; tauto|].
  destruct (occ =? "Second Home"); simpl; tauto.
Qed.

(** The Total LLPA without a waiver, category by category. *)
Lemma llpa_total_eval cs ltv la purpose pt occ is_arm cltv :
  llpa_total cs ltv la purpose pt occ is_arm cltv =
  Some (py_sum
          [entry (credit_table purpose) (Llpa.get_credit_score_bucket cs)
             (purpose_bucket purpose ltv);
           get_default (purpose_bucket purpose ltv) 0.0 (property_row pt);
           get_default (purpose_bucket purpose ltv) 0.0 (occupancy_row occ);
           Llpa.get_high_balance_adjustment la ltv is_arm;
           Llpa.get_subordinate_financing_adjustment ltv
             (match cltv with None => ltv | Some x => x end)]).
Proof.
  unfold llpa_total, full_engine_total.
  rewrite (total_llpa_breakdown _ _ _ _ _ _ _ _ _ (credit_adjustment_entry cs ltv purpose)).
  rewrite property_adjustment_entry, occupancy_adjustment_entry. reflexivity.
Qed.

Lemma py_sum_five c p o h s : py_sum [c; p; o; h; s] == c + p + o + h + s.
Proof. unfold py_sum. simpl. ring. Qed.

(** X1.  [calculate_total_llpa] never raises.  For every input it
    returns a dictionary holding a number under each of the five
    category keys and under ["Total LLPA"], and the flag
    ["LLPA Waiver Applied"], which is true exactly when the loan is
    HomeReady or the first-time-buyer waiver applies.  The total is the
    sum of the five categories.  With a waiver all six numbers are [0]
    and ["waiver_reason"] is present, HomeReady taking precedence;
    without one the dictionary has no ["waiver_reason"]. *)
Theorem calculate_total_llpa_returns
  cs ltv la purpose pt occ is_arm cltv hr ftb :
  exists adj c p o h s t,
    Llpa.calculate_total_llpa cs ltv la purpose pt occ is_arm cltv hr ftb
      = Some adj /\
    get "Credit Score / LTV" adj = Some (Llpa.Num c) /\
    get "Property Type" adj = Some (Llpa.Num p) /\
    get "Occupancy" adj = Some (Llpa.Num o) /\
    get "High Balance" adj = Some (Llpa.Num h) /\
    get "Subordinate Financing" adj = Some (Llpa.Num s) /\
    get "Total LLPA" adj = Some (Llpa.Num t) /\
    get "LLPA Waiver Applied" adj = Some (Llpa.Bool (hr || ftb)) /\
    t == c + p + o + h + s /\
    (hr || ftb = true ->
       c == 0 /\ p == 0 /\ o == 0 /\ h == 0 /\ s == 0 /\ t == 0 /\
       get "waiver_reason" adj =
         Some (Llpa.Str (if hr then "HomeReady" else "First-Time Buyer Low Income"))) /\
    (hr || ftb = false -> get "waiver_reason" adj = None).
Proof.
  destruct (hr || ftb) eqn:W.
  - unfold Llpa.calculate_total_llpa. rewrite W.
    do 7 eexists. split; [reflexivity|].
    repeat (split; [reflexivity|]). split.
    + intros _. repeat (split; [vm_compute; reflexivity|]). reflexivity.
    + discriminate.
  - apply orb_false_iff in W. destruct W as [-> ->].
    rewrite (total_llpa_breakdown _ _ _ _ _ _ _ _ _ (credit_adjustment_entry cs ltv purpose)).
    do 7 eexists. split; [reflexivity|].
    repeat (split; [reflexivity|]). split; [apply py_sum_five|]. split.
    + discriminate.
    + reflexivity.
Qed.

Lemma high_balance_bounds la ltv is_arm :
  0 <= Llpa.get_high_balance_adjustment la ltv is_arm <= 2.75.
Proof.
  pose proof (llpa_ltv_bucket_in ltv) as Hl.
  unfold Llpa.get_high_balance_adjustment.
  destruct (Qle_bool la _); [split; unfold Qle; simpl; lia|].
  destruct is_arm.
  - destruct (row_entry_bounds Llpa.HIGH_BALANCE_ARM 1.25 2.75 _ ltac:(simpl; tauto) Hl).
    split; lra.
  - destruct (row_entry_bounds Llpa.HIGH_BALANCE_FIXED 0.5 1 _ ltac:(simpl; tauto) Hl).
    split; lra.
Qed.

Lemma subordinate_bounds ltv cltv :
  0 <= Llpa.get_subordinate_financing_adjustment ltv cltv <= 1.875.
Proof.
  pose proof (llpa_ltv_bucket_in ltv) as Hl.
  unfold Llpa.get_subordinate_financing_adjustment.
  destruct (Qle_bool cltv ltv); [split; unfold Qle; simpl; lia|].
  destruct (row_entry_bounds Llpa.SUBORDINATE_FINANCING_ADJUSTMENT 0.625 1.875 _
              ltac:(simpl; tauto) Hl).
  split; lra.
Qed.

(** Credit score, property type and occupancy together, for each
    purpose: the bucket of a cash-out loan is capped, which caps its
    occupancy entry as well. *)
Lemma purpose_entries_bounds :
  forallb (fun '(t, cols) =>
    forallb (fun sb => forallb (fun lb => forallb (fun rp => forallb (fun ro =>
      let x := entry t sb lb + get_default lb 0.0 rp + get_default lb 0.0 ro in
      Qle_bool 0 x && Qle_bool x 9.25)
      [Llpa.INVESTMENT_PROPERTY_ADJUSTMENT; Llpa.SECOND_HOME_ADJUSTMENT; []])
      [Llpa.CONDO_ADJUSTMENT; Llpa.MULTI_UNIT_ADJUSTMENT;
       Llpa.MANUFACTURED_ADJUSTMENT; []])
      cols) score_buckets)
    [(Llpa.PURCHASE_CREDIT_SCORE_LTV, ltv_buckets);
     (Llpa.LIMITED_CASHOUT_CREDIT_SCORE_LTV, ltv_buckets);
     (Llpa.CASHOUT_CREDIT_SCORE_LTV, cashout_buckets);
     ([], ltv_buckets)] = true.
Proof. vm_compute. reflexivity. Qed.

Lemma purpose_table_cases purpose ltv :
  exists cols,
    In (credit_table purpose, cols)
      [(Llpa.PURCHASE_CREDIT_SCORE_LTV, ltv_buckets);
       (Llpa.LIMITED_CASHOUT_CREDIT_SCORE_LTV, ltv_buckets);
       (Llpa.CASHOUT_CREDIT_SCORE_LTV, cashout_buckets);
       ([], ltv_buckets)] /\
    In (purpose_bucket purpose ltv) cols.
Proof.
  pose proof (llpa_ltv_bucket_in ltv) as Hl.
  pose proof (llpa_cashout_bucket_in ltv) as Hc.
  unfold credit_table, purpose_bucket.
  destruct (purpose =? "Purchase") eqn:E1.
  { apply String.eqb_eq in E1. subst. exists ltv_buckets. split; [simpl; tauto|exact Hl]. }
  destruct (purpose =? "Rate/Term Refinance") eqn:E2.
  { apply String.eqb_eq in E2. subst. exists ltv_buckets. split; [simpl; tauto|exact Hl]. }
  destruct (purpose =? "Cash-Out Refinance").
  - exists cashout_buckets. split; [simpl; tauto|exact Hc].
  - exists ltv_buckets. split; [simpl; tauto|exact Hl].
Qed.

(** X2.  Without a waiver, the Total LLPA of [calculate_total_llpa]
    lies between [0] and [13.875] points, whatever the credit score,
    LTV, loan amount, purpose, property type, occupancy, ARM flag and
    CLTV. *)
Theorem total_llpa_bounds cs ltv la purpose pt occ is_arm cltv :
  exists t,
    llpa_total cs ltv la purpose pt occ is_arm cltv = Some t /\
    0 <= t <= 13.875.
Proof.
  rewrite llpa_total_eval. eexists. split; [reflexivity|].
  rewrite py_sum_five.
  pose proof (high_balance_bounds la ltv is_arm) as [H1 H2].
  pose proof (subordinate_bounds ltv (match cltv with None => ltv | Some x => x end))
    as [S1 S2].
  destruct (purpose_table_cases purpose ltv) as [cols [Ht Hl]].
  pose proof (forallb_In _ _ _
    (forallb_In _ _ _
      (forallb_In _ _ _
        (forallb_In _ _ _
          (forallb_In _ _ _ purpose_entries_bounds Ht)
          (llpa_score_bucket_in cs)) Hl) (property_row_cases pt))
    (occupancy_row_cases occ)) as H.
  cbv beta zeta in H. apply andb_true_iff in H. destruct H as [A B].
  apply Qle_bool_iff in A. apply Qle_bool_iff in B.
  split; lra.
Qed.

(** Both bounds are attained. *)
Example total_llpa_extremes :
  llpa_total 800 20 500000 "Purchase" "Single Family" "Primary Residence"
    false None = Some (0 + 0.000 + 0.0 + 0.0 + 0.0 + 0.0) /\
  llpa_total 650 93 900000 "Cash-Out Refinance" "Condo" "Second Home"
    true (Some 99) = Some (0 + 5.125 + 0.750 + 3.375 + 2.750 + 1.875).
Proof. split; reflexivity. Qed.

(** Down every column of the three tables the adjustment grows as the
    credit score bucket gets worse. *)
Lemma credit_columns_monotone :
  forallb (fun t => forallb (fun '(worse, better) => forallb (fun lb =>
             Qle_bool (entry t better lb) (entry t worse lb)) ltv_buckets)
           score_order)
    [Llpa.PURCHASE_CREDIT_SCORE_LTV; Llpa.LIMITED_CASHOUT_CREDIT_SCORE_LTV;
     Llpa.CASHOUT_CREDIT_SCORE_LTV; []] = true.
Proof. vm_compute. reflexivity. Qed.

(** X3.  A higher credit score never costs more.  For
    [cs1 <= cs2] and everything else equal, the credit score / LTV
    adjustment at [cs2] is at most the one at [cs1], and so is the
    Total LLPA; the two totals differ by exactly the difference of the
    two credit score adjustments. *)
Theorem total_llpa_monotone_in_credit_score
  cs1 cs2 ltv la purpose pt occ is_arm cltv :
  (cs1 <= cs2)%Z ->
  exists c1 c2 t1 t2,
    Llpa.get_credit_score_ltv_adjustment cs1 ltv purpose = Some c1 /\
    Llpa.get_credit_score_ltv_adjustment cs2 ltv purpose = Some c2 /\
    c2 <= c1 /\
    llpa_total cs1 ltv la purpose pt occ is_arm cltv = Some t1 /\
    llpa_total cs2 ltv la purpose pt occ is_arm cltv = Some t2 /\
    t2 <= t1 /\ t1 - t2 == c1 - c2.
Proof.
  intros H. rewrite !credit_adjustment_entry, !llpa_total_eval.
  do 4 eexists. split; [reflexivity|]. split; [reflexivity|].
  pose proof (forallb_In _ _ _
    (forallb_In _ _ _
      (forallb_In _ _ _ credit_columns_monotone (credit_table_cases purpose))
      (score_order_in cs1 cs2 H)) (purpose_bucket_in purpose ltv)) as M.
  cbv beta in M. apply Qle_bool_iff in M.
  split; [exact M|]. split; [reflexivity|]. split; [reflexivity|].
  rewrite !py_sum_five. split; [lra|ring].
Qed.

Lemma total_llpa_monotone_in_credit_score_witness :
  exists c1 c2 t1 t2,
    Llpa.get_credit_score_ltv_adjustment 650 78 "Purchase" = Some c1 /\
    Llpa.get_credit_score_ltv_adjustment 745 78 "Purchase" = Some c2 /\
    c2 <= c1 /\
    llpa_total 650 78 400000 "Purchase" "Condo" "Primary Residence" false None
      = Some t1 /\
    llpa_total 745 78 400000 "Purchase" "Condo" "Primary Residence" false None
      = Some t2 /\
    t2 <= t1 /\ t1 - t2 == c1 - c2.
Proof.
  apply (total_llpa_monotone_in_credit_score 650 745 78 400000 "Purchase"
           "Condo" "Primary Residence" false None).
  lia.
Defined.

(** For the same borrower a purchase is priced at most as a rate/term
    refinance, entry by entry. *)
Lemma purchase_below_limited :
  forallb (fun sb => forallb (fun lb =>
             Qle_bool (entry Llpa.PURCHASE_CREDIT_SCORE_LTV sb lb)
                      (entry Llpa.LIMITED_CASHOUT_CREDIT_SCORE_LTV sb lb))
           ltv_buckets) score_buckets = true.
Proof. vm_compute. reflexivity. Qed.

(** A cash-out refinance against a rate/term refinance: credit score,
    property type and occupancy together, each at its own bucket. *)
Lemma limited_below_cashout :
  forallb (fun sb => forallb (fun '(lb, lbc) => forallb (fun rp => forallb (fun ro =>
      Qle_bool
        (entry Llpa.LIMITED_CASHOUT_CREDIT_SCORE_LTV sb lb
           + get_default lb 0.0 rp + get_default lb 0.0 ro)
        (entry Llpa.CASHOUT_CREDIT_SCORE_LTV sb lbc
           + get_default lbc 0.0 rp + get_default lbc 0.0 ro))
      [Llpa.INVESTMENT_PROPERTY_ADJUSTMENT; Llpa.SECOND_HOME_ADJUSTMENT; []])
      [Llpa.CONDO_ADJUSTMENT; Llpa.MULTI_UNIT_ADJUSTMENT;
       Llpa.MANUFACTURED_ADJUSTMENT; []])
      ltv_cashout_pairs) score_buckets = true.
Proof. vm_compute. reflexivity. Qed.

(** X4.  For the same borrower, property and loan, the Total LLPA of
    a purchase is at most that of a rate/term refinance, which is at
    most that of a cash-out refinance. *)
Theorem total_llpa_ordered_by_purpose cs ltv la pt occ is_arm cltv :
  exists tp tr tc,
    llpa_total cs ltv la "Purchase" pt occ is_arm cltv = Some tp /\
    llpa_total cs ltv la "Rate/Term Refinance" pt occ is_arm cltv = Some tr /\
    llpa_total cs ltv la "Cash-Out Refinance" pt occ is_arm cltv = Some tc /\
    tp <= tr /\ tr <= tc.
Proof.
  rewrite !llpa_total_eval.
  do 3 eexists. split; [reflexivity|]. split; [reflexivity|]. split; [reflexivity|].
  rewrite !py_sum_five.
  change (purpose_bucket "Purchase" ltv) with (Llpa.get_ltv_bucket ltv).
  change (purpose_bucket "Rate/Term Refinance" ltv) with (Llpa.get_ltv_bucket ltv).
  change (purpose_bucket "Cash-Out Refinance" ltv) with (Llpa.get_ltv_bucket_cashout ltv).
  change (credit_table "Purchase") with Llpa.PURCHASE_CREDIT_SCORE_LTV.
  change (credit_table "Rate/Term Refinance") with Llpa.LIMITED_CASHOUT_CREDIT_SCORE_LTV.
  change (credit_table "Cash-Out Refinance") with Llpa.CASHOUT_CREDIT_SCORE_LTV.
  pose proof (forallb_In _ _ _
    (forallb_In _ _ _ purchase_below_limited (llpa_score_bucket_in cs))
    (llpa_ltv_bucket_in ltv)) as A.
  pose proof (forallb_In _ _ _
    (forallb_In _ _ _
      (forallb_In _ _ _
        (forallb_In _ _ _ limited_below_cashout (llpa_score_bucket_in cs))
        (ltv_cashout_pair_in ltv)) (property_row_cases pt))
    (occupancy_row_cases occ)) as B.
  cbv beta in A, B. apply Qle_bool_iff in A. apply Qle_bool_iff in B.
  split; lra.
Qed.

(** X5.  Passing a CLTV to [calculate_total_llpa] changes the Total
    LLPA by exactly [get_subordinate_financing_adjustment ltv cltv]:
    by nothing when [cltv <= ltv], and by between [0.625] and [1.875]
    points when [cltv > ltv]. *)
Theorem subordinate_financing_surcharge cs ltv la purpose pt occ is_arm cltv :
  exists t0 t,
    llpa_total cs ltv la purpose pt occ is_arm None = Some t0 /\
    llpa_total cs ltv la purpose pt occ is_arm (Some cltv) = Some t /\
    t - t0 == Llpa.get_subordinate_financing_adjustment ltv cltv /\
    (cltv <= ltv -> t == t0) /\
    (ltv < cltv -> t0 + 0.625 <= t /\ t <= t0 + 1.875).
Proof.
  rewrite !llpa_total_eval.
  do 2 eexists. split; [reflexivity|]. split; [reflexivity|].
  rewrite !py_sum_five.
  pose proof (llpa_ltv_bucket_in ltv) as Hl.
  assert (E0 : Llpa.get_subordinate_financing_adjustment ltv ltv == 0).
  { unfold Llpa.get_subordinate_financing_adjustment.
    assert (H : Qle_bool ltv ltv = true) by (apply Qle_bool_iff, Qle_refl).
    rewrite H. reflexivity. }
  split; [rewrite E0; ring|].
  unfold Llpa.get_subordinate_financing_adjustment in *.
  destruct (Qle_bool cltv ltv) eqn:E.
  - apply Qle_bool_iff in E. split; [intros _; lra|]. intros H. lra.
  - assert (ltv < cltv).
    { apply Qnot_le_lt. intros H. apply Qle_bool_iff in H. congruence. }
    destruct (row_entry_bounds Llpa.SUBORDINATE_FINANCING_ADJUSTMENT 0.625 1.875 _
                ltac:(simpl; tauto) Hl).
    split; [intros; lra|]. intros _. split; lra.
Qed.

(** X6.  Up to the conforming limit of 806500 the ARM flag does not
    change the Total LLPA and the high balance adjustment is [0].
    Above the limit the total of an ARM exceeds that of the fixed-rate
    loan by between [0.75] and [1.75] points, and the fixed-rate high
    balance adjustment is at least [0.5]. *)
Theorem arm_high_balance_surcharge cs ltv la purpose pt occ cltv :
  exists tf ta,
    llpa_total cs ltv la purpose pt occ false cltv = Some tf /\
    llpa_total cs ltv la purpose pt occ true cltv = Some ta /\
    (la <= 806500 -> ta == tf /\
       Llpa.get_high_balance_adjustment la ltv true == 0) /\
    (806500 < la -> tf + 0.75 <= ta /\ ta <= tf + 1.75 /\
       0.5 <= Llpa.get_high_balance_adjustment la ltv false).
Proof.
  rewrite !llpa_total_eval.
  do 2 eexists. split; [reflexivity|]. split; [reflexivity|].
  rewrite !py_sum_five.
  pose proof (llpa_ltv_bucket_in ltv) as Hl.
  assert (D : forallb (fun lb =>
             Qle_bool (get_default lb 0.0 Llpa.HIGH_BALANCE_FIXED + 0.75)
                      (get_default lb 0.0 Llpa.HIGH_BALANCE_ARM) &&
             Qle_bool (get_default lb 0.0 Llpa.HIGH_BALANCE_ARM)
                      (get_default lb 0.0 Llpa.HIGH_BALANCE_FIXED + 1.75) &&
             Qle_bool 0.5 (get_default lb 0.0 Llpa.HIGH_BALANCE_FIXED))
           ltv_buckets = true) by (vm_compute; reflexivity).
  pose proof (forallb_In _ _ _ D Hl) as B. cbv beta in B.
  apply andb_true_iff in B. destruct B as [B B3].
  apply andb_true_iff in B. destruct B as [B1 B2].
  apply Qle_bool_iff in B1. apply Qle_bool_iff in B2. apply Qle_bool_iff in B3.
  unfold Llpa.get_high_balance_adjustment, Llpa.CONFORMING_LIMIT_2025.
  destruct (Qle_bool la 806500) eqn:E.
  - apply Qle_bool_iff in E. split.
    + intros _. split; [lra | reflexivity].
    + intros H. lra.
  - assert (806500 < la).
    { apply Qnot_le_lt. intros H. apply Qle_bool_iff in H. congruence. }
    split; [intros; lra|]. intros _. repeat split; lra.
Qed.

End LlpaMore.


(* ================================================================== *)
(** * The available rate and the FHA premium *)
(* ================================================================== *)

Section RateCalculatorMore.
Import PyDict.
Local Open Scope string_scope.
Local Open Scope Q_scope.

Lemma rc_row_entries_bounds :
  forallb (fun '(row, hi) =>
             forallb (fun lb => Qle_bool 0 (get_default lb 0.0 row) &&
                                Qle_bool (get_default lb 0.0 row) hi) ltv_buckets)
    [(RateCalculator.PURCHASE_CONDO, 0.75);
     (RateCalculator.PURCHASE_2_TO_4_UNIT, 0.625);
     (RateCalculator.PURCHASE_INVESTMENT, 4.125);
     (RateCalculator.PURCHASE_SECOND_HOME, 4.125);
     (RateCalculator.PURCHASE_HIGH_BALANCE_FIXED, 1)] = true.
Proof. vm_compute. reflexivity. Qed.

Lemma rc_row_entry_bounds row hi ltv :
  In (row, hi)
    [(RateCalculator.PURCHASE_CONDO, 0.75);
     (RateCalculator.PURCHASE_2_TO_4_UNIT, 0.625);
     (RateCalculator.PURCHASE_INVESTMENT, 4.125);
     (RateCalculator.PURCHASE_SECOND_HOME, 4.125);
     (RateCalculator.PURCHASE_HIGH_BALANCE_FIXED, 1)] ->
  0 <= get_default (RateCalculator.get_ltv_bucket ltv) 0.0 row <= hi.
Proof.
  intros Hr.
  pose proof (forallb_In _ _ _ (forallb_In _ _ _ rc_row_entries_bounds Hr)
                (rc_ltv_bucket_in ltv)) as H.
  cbv beta in H. apply andb_true_iff in H. destruct H as [H1 H2].
  split; now apply Qle_bool_iff.
Qed.

Lemma rc_credit_bounds cs ltv purpose :
  0 <= rc_credit_score_ltv cs ltv purpose <= 3.875.
Proof.
  assert (D : forallb (fun t => forallb (fun sb => forallb (fun lb =>
               Qle_bool 0 (entry t sb lb) && Qle_bool (entry t sb lb) 3.875)
             ltv_buckets) score_buckets)
            [RateCalculator.PURCHASE_CREDIT_SCORE_LTV;
             RateCalculator.LIMITED_CASHOUT_CREDIT_SCORE_LTV] = true)
    by (vm_compute; reflexivity).
  unfold rc_credit_score_ltv.
  assert (Ht : In (if purpose =? "Purchase"
                   then RateCalculator.PURCHASE_CREDIT_SCORE_LTV
                   else RateCalculator.LIMITED_CASHOUT_CREDIT_SCORE_LTV)
                 [RateCalculator.PURCHASE_CREDIT_SCORE_LTV;
                  RateCalculator.LIMITED_CASHOUT_CREDIT_SCORE_LTV])
    by (destruct (purpose =? "Purchase"); simpl; tauto).
  pose proof (forallb_In _ _ _
    (forallb_In _ _ _ (forallb_In _ _ _ D Ht) (rc_score_bucket_in cs))
    (rc_ltv_bucket_in ltv)) as H.
  cbv beta in H. apply andb_true_iff in H. destruct H as [H1 H2].
  split; now apply Qle_bool_iff.
Qed.

Lemma rc_property_bounds pt ltv : 0 <= rc_property_type pt ltv <= 0.75.
Proof.
  unfold rc_property_type. destruct (pt =? "Condo").
  - apply (rc_row_entry_bounds _ 0.75). simpl; tauto.
  - destruct (mem pt _).
    + destruct (rc_row_entry_bounds RateCalculator.PURCHASE_2_TO_4_UNIT 0.625 ltv
                  ltac:(simpl; tauto)).
      split; lra.
    + split; unfold Qle; simpl; lia.
Qed.

Lemma rc_occupancy_bounds occ ltv : 0 <= rc_occupancy occ ltv <= 4.125.
Proof.
  unfold rc_occupancy. destruct (occ =? "Investment Property").
  - apply (rc_row_entry_bounds _ 4.125). simpl; tauto.
  - destruct (occ =? "Second Home").
    + apply (rc_row_entry_bounds _ 4.125). simpl; tauto.
    + split; unfold Qle; simpl; lia.
Qed.

Lemma rc_high_balance_bounds la ltv : 0 <= rc_high_balance la ltv <= 1.
Proof.
  unfold rc_high_balance. destruct (Qgt_bool la _).
  - apply (rc_row_entry_bounds _ 1). simpl; tauto.
  - split; unfold Qle; simpl; lia.
Qed.

Lemma conventional_total_bounds cs ltv la purpose pt occ :
  exists t, conventional_total cs ltv la purpose pt occ = Some t /\ 0 <= t <= 9.75.
Proof.
  rewrite conventional_total_eq. eexists. split; [reflexivity|].
  pose proof (rc_credit_bounds cs ltv purpose).
  pose proof (rc_property_bounds pt ltv).
  pose proof (rc_occupancy_bounds occ ltv).
  pose proof (rc_high_balance_bounds la ltv).
  unfold py_sum. simpl. split; lra.
Qed.

(** X7.  [calculate_available_rate] never raises.  The conventional
    Total LLPA and the [total_llpa] it returns lie between [0] and
    [9.75] points, so the final rate lies between
    [base_rate + state_adjustment] and that sum plus [9.75];
    [final_rate_decimal] is the final rate divided by 100, and the base
    rate and the state adjustment are returned as given. *)
Theorem calculate_available_rate_bounds base cs ltv la lt pt occ st :
  (exists t, conventional_total cs ltv la "Rate/Term Refinance" pt occ = Some t /\
             0 <= t <= 9.75) /\
  exists r,
    RateCalculator.calculate_available_rate base cs ltv la lt pt occ st = Some r /\
    0 <= RateCalculator.total_llpa r <= 9.75 /\
    base + st <= RateCalculator.final_rate r /\
    RateCalculator.final_rate r <= base + st + 9.75 /\
    RateCalculator.final_rate_decimal r * 100 == RateCalculator.final_rate r /\
    RateCalculator.base_rate r = base /\
    RateCalculator.state_adjustment r = st.
Proof.
  split; [apply conventional_total_bounds|].
  destruct (conventional_total_bounds cs ltv la "Rate/Term Refinance" pt occ)
    as [t [Et Ht]].
  rewrite conventional_total_eq in Et. injection Et as Et.
  unfold RateCalculator.calculate_available_rate.
  destruct (RateCalculator.upper lt =? "FHA").
  - eexists. split; [reflexivity|]. cbn.
    repeat split; try reflexivity; try lra; try (unfold Qle; simpl; lia).
    field.
  - rewrite conventional_llpa_breakdown.
    eexists. split; [reflexivity|]. cbn [RateCalculator.total_llpa
      RateCalculator.final_rate RateCalculator.final_rate_decimal
      RateCalculator.base_rate RateCalculator.state_adjustment].
    replace (get_default "Total LLPA" 0.0 _) with t by (rewrite <- Et; reflexivity).
    repeat split; try reflexivity; try lra. field.
Qed.

(** The upper bound is attained. *)
Example calculate_available_rate_highest :
  option_map RateCalculator.total_llpa
    (RateCalculator.calculate_available_rate 6.5 600 83 900000 "Conventional"
       "Condo" "Second Home" 0.25)
  = Some (0 + 3.875 + 0.750 + 4.125 + 1.000).
Proof. reflexivity. Qed.

(** X8.  [get_fha_mip] of llpa.py and [get_fha_mip_info] of
    rate_calculator.py return the same dictionary.  The upfront rate is
    1.75 and the upfront amount that percentage of the loan amount, the
    total loan is the loan amount times 1.0175, twelve monthly premiums
    make the annual premium, the annual rate lies between [0.15] and
    [0.75], and the duration is ["11 years"] for an LTV of at most 90
    and ["Life of loan"] above.  For a non-negative loan amount the
    monthly premium is non-negative and the total loan is at least the
    loan amount. *)
Theorem fha_mip_info_spec ltv la term :
  let m := RateCalculator.get_fha_mip_info ltv la term in
  Llpa.get_fha_mip ltv la term = m /\
  upfront_mip_rate m == 1.75 /\
  upfront_mip_amount m == la * upfront_mip_rate m / 100 /\
  total_loan_with_ufmip m == la * 1.0175 /\
  monthly_mip m * 12 == la * annual_mip_rate m / 100 /\
  0.15 <= annual_mip_rate m <= 0.75 /\
  (ltv <= 90 -> mip_duration m = "11 years") /\
  (90 < ltv -> mip_duration m = "Life of loan") /\
  (0 <= la -> 0 <= monthly_mip m /\ la <= total_loan_with_ufmip m).
Proof.
  intros m. unfold m, RateCalculator.get_fha_mip_info, Llpa.get_fha_mip.
  cbn [upfront_mip_rate upfront_mip_amount total_loan_with_ufmip monthly_mip
       annual_mip_rate mip_duration].
  split; [reflexivity|]. split; [reflexivity|]. split; [field|]. split; [field|].
  split; [field|]. split.
  { destruct (15 <? term)%Z, (Qle_bool la 726200), (Qle_bool ltv 90);
      split; lra. }
  split.
  { intros H. apply Qle_bool_iff in H. now rewrite H. }
  split.
  { intros H. destruct (Qle_bool ltv 90) eqn:E; [|reflexivity].
    apply Qle_bool_iff in E. lra. }
  intros H. split; [|lra].
  destruct (15 <? term)%Z, (Qle_bool la 726200), (Qle_bool ltv 90);
    (apply Qle_shift_div_l; [reflexivity|]);
    (apply Qle_shift_div_l; [reflexivity|]); lra.
Qed.

(** X9.  The annual MIP rate of [get_fha_mip_info] is monotone: a
    loan with an LTV, an amount and a term at least as high has an
    annual rate at least as high. *)
Theorem fha_annual_mip_monotone ltv1 ltv2 la1 la2 term1 term2 :
  ltv1 <= ltv2 -> la1 <= la2 -> (term1 <= term2)%Z ->
  annual_mip_rate (RateCalculator.get_fha_mip_info ltv1 la1 term1) <=
  annual_mip_rate (RateCalculator.get_fha_mip_info ltv2 la2 term2).
Proof.
  intros Hl Ha Ht. unfold RateCalculator.get_fha_mip_info. cbn [annual_mip_rate].
  destruct (Z.ltb_spec 15 term1), (Z.ltb_spec 15 term2); try lia;
  destruct (Qle_bool la1 726200) eqn:A1, (Qle_bool la2 726200) eqn:A2;
  destruct (Qle_bool ltv1 90) eqn:L1, (Qle_bool ltv2 90) eqn:L2;
  try (unfold Qle; simpl; lia);
  exfalso;
  repeat match goal with
  | H : Qle_bool _ _ = true |- _ => apply Qle_bool_iff in H
  | H : Qle_bool ?a ?b = false |- _ =>
      assert (b < a) by (apply Qnot_le_lt; intros C; apply Qle_bool_iff in C; congruence);
      clear H
  end; lra.
Qed.

Lemma fha_annual_mip_monotone_witness :
  annual_mip_rate (RateCalculator.get_fha_mip_info 85 300000 15) <=
  annual_mip_rate (RateCalculator.get_fha_mip_info 96.5 800000 30).
Proof.
  apply fha_annual_mip_monotone; [unfold Qle; simpl; lia | unfold Qle; simpl; lia | lia].
Defined.

End RateCalculatorMore.


(* ================================================================== *)
(** * The pricing grid *)
(* ================================================================== *)

Section SortingFacts.
Import PyDict.
Import RateCalculator.
Local Open Scope Q_scope.

Context {A : Type}.

Lemma insert_desc_perm (x : Q * A) l : Permutation (insert_desc x l) (x :: l).
Proof.
  induction l as [|y l IH]; simpl; [reflexivity|].
  destruct (Qgt_bool (fst y) (fst x)); [|reflexivity].
  rewrite IH. apply perm_swap.
Qed.

Lemma sorted_desc_perm (l : list (Q * A)) : Permutation (sorted_desc l) l.
Proof.
  induction l as [|x l IH]; simpl; [reflexivity|].
  rewrite insert_desc_perm. now constructor.
Qed.

Lemma Qgt_bool_spec a b : if Qgt_bool a b then b < a else a <= b.
Proof.
  unfold Qgt_bool. destruct (Qle_bool a b) eqn:E; simpl.
  - now apply Qle_bool_iff.
  - apply Qnot_le_lt. intros H. apply Qle_bool_iff in H. congruence.
Qed.

Lemma insert_desc_sorted (x : Q * A) l :
  StronglySorted key_desc l -> StronglySorted key_desc (insert_desc x l).
Proof.
  induction l as [|y l IH]; intros Hs; simpl.
  - constructor; constructor.
  - inversion Hs as [|? ? Hs' Hy]; subst.
    pose proof (Qgt_bool_spec (fst y) (fst x)) as C.
    destruct (Qgt_bool (fst y) (fst x)).
    + constructor; [now apply IH|].
      apply (Permutation_Forall (Permutation_sym (insert_desc_perm x l))).
      constructor; [unfold key_desc; lra | assumption].
    + constructor; [assumption|].
      constructor; [exact C|].
      eapply Forall_impl; [|exact Hy]. unfold key_desc. intros z Hz. lra.
Qed.

Lemma sorted_desc_sorted (l : list (Q * A)) : StronglySorted key_desc (sorted_desc l).
Proof.
  induction l as [|x l IH]; simpl; [constructor|]. now apply insert_desc_sorted.
Qed.

(** Items with equal keys keep their order: the sort is stable. *)
Lemma insert_desc_stable (x : Q * A) l :
  StronglySorted key_desc l ->
  forall k, filter (fun i => Qeq_bool (fst i) k) (insert_desc x l)
          = filter (fun i => Qeq_bool (fst i) k) (x :: l).
Proof.
  induction l as [|y l IH]; intros Hs k; simpl; [reflexivity|].
  inversion Hs as [|? ? Hs' Hy]; subst.
  pose proof (Qgt_bool_spec (fst y) (fst x)) as C.
  destruct (Qgt_bool (fst y) (fst x)); [|reflexivity].
  simpl. rewrite (IH Hs' k). simpl.
  destruct (Qeq_bool (fst x) k) eqn:Ex, (Qeq_bool (fst y) k) eqn:Ey; try reflexivity.
  apply Qeq_bool_eq in Ex. apply Qeq_bool_eq in Ey. lra.
Qed.

Lemma sorted_desc_stable (l : list (Q * A)) k :
  filter (fun i => Qeq_bool (fst i) k) (sorted_desc l)
  = filter (fun i => Qeq_bool (fst i) k) l.
Proof.
  induction l as [|x l IH]; simpl; [reflexivity|].
  rewrite insert_desc_stable by apply sorted_desc_sorted.
  simpl. now rewrite IH.
Qed.

Lemma py_min_by_in (key : A -> Q) x l : In (py_min_by key x l) (x :: l).
Proof.
  revert x. induction l as [|y l IH]; intros x; simpl; [auto|].
  destruct (IH (if Qgt_bool (key x) (key y) then y else x)) as [H|H].
  - destruct (Qgt_bool (key x) (key y)); rewrite <- H; auto.
  - auto.
Qed.

Lemma py_min_by_le_head (key : A -> Q) x l : key (py_min_by key x l) <= key x.
Proof.
  revert x. induction l as [|y l IH]; intros x; simpl; [apply Qle_refl|].
  pose proof (Qgt_bool_spec (key x) (key y)) as C.
  pose proof (IH (if Qgt_bool (key x) (key y) then y else x)) as H.
  destruct (Qgt_bool (key x) (key y)); lra.
Qed.

Lemma py_min_by_le (key : A -> Q) x l y :
  In y (x :: l) -> key (py_min_by key x l) <= key y.
Proof.
  revert x. induction l as [|z l IH]; intros x Hy.
  - destruct Hy as [<-|[]]. apply Qle_refl.
  - cbn [py_min_by].
    pose proof (Qgt_bool_spec (key x) (key z)) as C.
    pose proof (py_min_by_le_head key (if Qgt_bool (key x) (key z) then z else x) l) as Hh.
    destruct Hy as [<-|[<-|Hy]].
    + destruct (Qgt_bool (key x) (key z)); lra.
    + destruct (Qgt_bool (key x) (key z)); lra.
    + apply IH. right. exact Hy.
Qed.

End SortingFacts.

Section GridFacts.
Import PyDict.
Import RateCalculator.
Local Open Scope string_scope.
Local Open Scope Q_scope.

Variable float_of_string : string -> option Q.
Variable format_3f : Q -> string.
Variable format_comma_0f : Q -> string.

Lemma keyed_items_some grid :
  Forall (fun kv => float_of_string (fst kv) <> None) grid ->
  exists items,
    keyed_items float_of_string grid = Some items /\
    List.length items = List.length grid /\
    map (fun i : Q * (string * Q) => (Some (fst i), snd (snd i))) items
      = map (fun kv => (float_of_string (fst kv), snd kv)) grid.
Proof.
  induction grid as [|[k v] grid IH]; intros H.
  - exists []. auto.
  - inversion H as [|? ? Hk Hg]; subst. destruct (IH Hg) as [items [E [E1 E2]]].
    cbn [keyed_items fst] in *. rewrite E.
    destruct (float_of_string k) as [q|] eqn:Eq; [|contradiction].
    exists ((q, (k, v)) :: items). cbn. rewrite E1, E2, Eq. auto.
Qed.

Lemma keyed_items_none grid :
  Exists (fun kv => float_of_string (fst kv) = None) grid ->
  keyed_items float_of_string grid = None.
Proof.
  induction grid as [|[k v] grid IH]; intros H; inversion H; subst; cbn in *.
  - now rewrite H1.
  - rewrite (IH H1). now destruct (float_of_string k).
Qed.

Lemma keyed_items_inv grid items :
  keyed_items float_of_string grid = Some items ->
  Forall (fun kv => float_of_string (fst kv) <> None) grid.
Proof.
  revert items. induction grid as [|[k v] grid IH]; intros items H; [constructor|].
  cbn in H. destruct (float_of_string k) eqn:Ek; [|discriminate].
  destruct (keyed_items float_of_string grid) eqn:Eg; [|discriminate].
  constructor; [cbn; congruence | eapply IH; reflexivity].
Qed.

Lemma grid_llpa_eq cs ltv la lt pt occ :
  (if upper lt =? "CONVENTIONAL" then
     match calculate_conventional_llpa cs ltv la "Rate/Term Refinance" pt occ with
     | Some adjustments => Some (get_default "Total LLPA" 0.0 adjustments)
     | None => None
     end
   else Some 0.0) = Some (grid_llpa cs ltv la lt pt occ).
Proof.
  unfold grid_llpa. destruct (upper lt =? "CONVENTIONAL"); [|reflexivity].
  rewrite conventional_llpa_breakdown. reflexivity.
Qed.

(** The list returned for a grid that is not empty. *)
Lemma available_rates_eval g grid base cs ltv la lt pt occ :
  get_available_rates_with_points float_of_string format_3f (g :: grid) base cs
    ltv la lt pt occ
  = option_map (fun items => map (grid_row format_3f (grid_llpa cs ltv la lt pt occ) la)
                               (sorted_desc items))
      (keyed_items float_of_string (g :: grid)).
Proof.
  unfold get_available_rates_with_points. rewrite grid_llpa_eq.
  destruct (keyed_items float_of_string (g :: grid)); reflexivity.
Qed.

Lemma sorted_rows llpa la (items : list (Q * (string * Q))) :
  StronglySorted key_desc items ->
  StronglySorted rate_desc (map (grid_row format_3f llpa la) items).
Proof.
  induction 1 as [|[k [s b]] l Hs IH Hf]; cbn; constructor; [assumption|].
  apply Forall_map. eapply Forall_impl; [|exact Hf].
  intros [k' [s' b']]. unfold key_desc, rate_desc. cbn. auto.
Qed.

Lemma available_rates_sorted grid base cs ltv la lt pt occ rates :
  get_available_rates_with_points float_of_string format_3f grid base cs
    ltv la lt pt occ = Some rates ->
  StronglySorted rate_desc rates.
Proof.
  destruct grid as [|g grid].
  - intros H. injection H as <-. constructor.
  - rewrite available_rates_eval.
    destruct (keyed_items float_of_string (g :: grid)); [|discriminate].
    intros H. injection H as <-. apply sorted_rows, sorted_desc_sorted.
Qed.

(** X10.  When every key of the pricing grid reads as a number,
    [get_available_rates_with_points] returns one row per entry of the
    grid, by falling rate; the rates and base points of the rows are
    those of the grid, rearranged.  In every row [llpa_points] is the
    LLPA of the borrower (the conventional Total LLPA for a
    Conventional loan type, [0] for every other), [total_points] is
    base points plus LLPA points, [total_cost] is that percentage of
    the loan amount, [rate_str] is the formatted rate followed by a
    percent sign, [is_par] holds exactly when the base points are below
    [0.001] in absolute value, [has_credit] exactly when the total
    points are negative and [has_cost] exactly when they are
    positive. *)
Theorem get_available_rates_with_points_spec grid base cs ltv la lt pt occ :
  Forall (fun kv => float_of_string (fst kv) <> None) grid ->
  exists rows,
    get_available_rates_with_points float_of_string format_3f grid base cs
      ltv la lt pt occ = Some rows /\
    List.length rows = List.length grid /\
    StronglySorted rate_desc rows /\
    Permutation (map (fun r => (Some (rate r), base_points r)) rows)
                (map (fun kv => (float_of_string (fst kv), snd kv)) grid) /\
    Forall (fun r =>
              llpa_points r = grid_llpa cs ltv la lt pt occ /\
              total_points r = base_points r + llpa_points r /\
              total_cost r = total_points r * la / 100 /\
              rate_str r = format_3f (rate r) ++ "%" /\
              (is_par r = true <-> Qabs (base_points r) < 0.001) /\
              (has_credit r = true <-> total_points r < 0) /\
              (has_cost r = true <-> 0 < total_points r)) rows.
Proof.
  intros Hk. destruct grid as [|g grid].
  { exists []. repeat split; constructor. }
  destruct (keyed_items_some _ Hk) as [items [E [E1 E2]]].
  rewrite available_rates_eval, E. cbn [option_map].
  eexists. split; [reflexivity|].
  split.
  { now rewrite length_map, (Permutation_length (sorted_desc_perm items)). }
  split; [apply sorted_rows, sorted_desc_sorted|].
  split.
  { rewrite map_map, <- E2.
    erewrite map_ext; [apply Permutation_map, sorted_desc_perm|].
    intros [k [s0 b]]. reflexivity. }
  apply Forall_map, Forall_forall. intros [k [s0 b]] _. cbn.
  repeat split; try reflexivity.
  - intros H. pose proof (Qgt_bool_spec 0.001 (Qabs b)) as C. now rewrite H in C.
  - intros H. now apply Qgt_bool_true.
  - intros H. pose proof (Qgt_bool_spec 0 (b + grid_llpa cs ltv la lt pt occ)) as C.
    now rewrite H in C.
  - intros H. now apply Qgt_bool_true.
  - intros H. pose proof (Qgt_bool_spec (b + grid_llpa cs ltv la lt pt occ) 0) as C.
    now rewrite H in C.
  - intros H. now apply Qgt_bool_true.
Qed.

Lemma available_rates_nonempty grid base cs ltv la lt pt occ rates :
  get_available_rates_with_points float_of_string format_3f grid base cs
    ltv la lt pt occ = Some rates ->
  (rates = [] <-> grid = []).
Proof.
  destruct grid as [|g grid].
  - intros H. injection H as <-. tauto.
  - rewrite available_rates_eval.
    destruct (keyed_items float_of_string (g :: grid)) as [items|] eqn:E; [|discriminate].
    intros H. injection H as <-. split; [|discriminate].
    intros H. apply (f_equal (@List.length _)) in H.
    rewrite length_map, (Permutation_length (sorted_desc_perm items)) in H.
    destruct (keyed_items_some _ (keyed_items_inv _ _ E)) as [items' [E' [L _]]].
    rewrite E in E'. injection E' as <-. rewrite L in H. discriminate.
Qed.

(** X11.  [get_best_rate_for_closing_cost], for the list [rates] of
    [get_available_rates_with_points]: with no rates the answer is
    [None].  Otherwise the answer describes one of the rows.  It is
    within budget exactly when some row costs at most the target, and
    then the chosen row costs at most the target and has the lowest
    rate among the rows that do; when no row is affordable every row
    costs more than the target and the chosen row has the highest rate
    of all. *)
Theorem get_best_rate_for_closing_cost_spec
  grid target base cs ltv la lt pt occ rates :
  get_available_rates_with_points float_of_string format_3f grid base cs
    ltv la lt pt occ = Some rates ->
  (rates = [] ->
     get_best_rate_for_closing_cost float_of_string format_3f format_comma_0f
       grid target base cs ltv la lt pt occ = Some None) /\
  (rates <> [] ->
     exists b r,
       get_best_rate_for_closing_cost float_of_string format_3f format_comma_0f
         grid target base cs ltv la lt pt occ = Some (Some b) /\
       In r rates /\
       best_rate b = rate r /\ best_points b = total_points r /\
       best_cost b = total_cost r /\
       (within_budget b = true <->
          exists r', In r' rates /\ total_cost r' <= target) /\
       (within_budget b = true ->
          total_cost r <= target /\
          forall r', In r' rates -> total_cost r' <= target -> rate r <= rate r') /\
       (within_budget b = false ->
          forall r', In r' rates -> target < total_cost r' /\ rate r' <= rate r)).
Proof.
  intros H. pose proof (available_rates_sorted _ _ _ _ _ _ _ _ _ H) as Hs.
  unfold get_best_rate_for_closing_cost. rewrite H.
  destruct rates as [|r0 rates']; [split; [reflexivity|congruence]|].
  split; [discriminate|]. intros _.
  set (aff := filter (fun r => Qle_bool (total_cost r) target) (r0 :: rates')).
  assert (Haff : forall r', In r' aff <-> In r' (r0 :: rates') /\ total_cost r' <= target).
  { intros r'. unfold aff. rewrite filter_In, Qle_bool_iff. tauto. }
  destruct aff as [|a aff'] eqn:Ea.
  - assert (Hnone : forall r', In r' (r0 :: rates') -> target < total_cost r').
    { intros r' Hr. apply Qnot_le_lt. intros C.
      destruct (proj2 (Haff r') (conj Hr C)). }
    exists (mk_budget_rate (rate r0) (total_points r0) (total_cost r0) false
              "No rates available within budget. Showing highest rate (most credit)."),
           r0.
    split; [reflexivity|]. split; [left; reflexivity|].
    cbn [best_rate best_points best_cost within_budget].
    split; [reflexivity|]. split; [reflexivity|]. split; [reflexivity|].
    split; [|split].
    + split; [discriminate|].
      intros [r' [Hr Hc]]. specialize (Hnone r' Hr). lra.
    + discriminate.
    + intros _ r' Hr. split; [now apply Hnone|].
      inversion Hs as [|? ? Hs' Hf]; subst. destruct Hr as [<-|Hin]; [apply Qle_refl|].
      rewrite Forall_forall in Hf. now apply Hf.
  - pose proof (py_min_by_in rate a aff') as Hin.
    apply Haff in Hin. destruct Hin as [Hin Hc].
    eexists. exists (py_min_by rate a aff').
    split; [reflexivity|]. split; [exact Hin|].
    cbn [best_rate best_points best_cost within_budget].
    split; [reflexivity|]. split; [reflexivity|]. split; [reflexivity|].
    split; [|split].
    + split; [|reflexivity]. intros _. exists (py_min_by rate a aff'). auto.
    + intros _. split; [exact Hc|].
      intros r' Hr Hc'. apply py_min_by_le. apply Haff. auto.
    + discriminate.
Qed.

Lemma find_first_sorted (f : rate_row -> bool) rates g :
  StronglySorted rate_desc rates ->
  find f rates = Some g ->
  In g rates /\ f g = true /\
  forall r, In r rates -> f r = true -> rate r <= rate g.
Proof.
  induction 1 as [|x l Hs IH Hf]; [discriminate|].
  cbn [find]. destruct (f x) eqn:Ex.
  - intros E. injection E as <-. split; [left; reflexivity|]. split; [assumption|].
    intros r [<-|Hr] _; [apply Qle_refl|].
    rewrite Forall_forall in Hf. now apply Hf.
  - intros E. destruct (IH E) as [H1 [H2 H3]].
    split; [right; assumption|]. split; [assumption|].
    intros r [<-|Hr] Hfr; [congruence|]. now apply H3.
Qed.

(** X12.  [get_par_rate_for_borrower], for the list [rates] of
    [get_available_rates_with_points]: with no rates the answer is
    [None].  Otherwise it returns all rates together with one row whose
    total points are the closest to zero of all rows, reporting its
    rate, its total points and its LLPA points; [grid_par_rate] is
    missing exactly when no row is par, and otherwise it is the highest
    rate among the par rows. *)
Theorem get_par_rate_for_borrower_spec grid base cs ltv la lt pt occ rates :
  get_available_rates_with_points float_of_string format_3f grid base cs
    ltv la lt pt occ = Some rates ->
  (rates = [] ->
     get_par_rate_for_borrower float_of_string format_3f grid base cs ltv la
       lt pt occ = Some None) /\
  (rates <> [] ->
     exists p r,
       get_par_rate_for_borrower float_of_string format_3f grid base cs ltv la
         lt pt occ = Some (Some p) /\
       all_rates p = rates /\
       In r rates /\
       borrower_par_rate p = rate r /\
       borrower_par_points p = total_points r /\
       llpa_adjustment p = llpa_points r /\
       (forall r', In r' rates ->
          Qabs (total_points r) <= Qabs (total_points r')) /\
       (grid_par_rate p = None <->
          forall r', In r' rates -> is_par r' = false) /\
       (forall g, grid_par_rate p = Some g ->
          exists r', In r' rates /\ is_par r' = true /\ rate r' = g /\
            forall r'', In r'' rates -> is_par r'' = true -> rate r'' <= g)).
Proof.
  intros H. pose proof (available_rates_sorted _ _ _ _ _ _ _ _ _ H) as Hs.
  unfold get_par_rate_for_borrower. rewrite H.
  destruct rates as [|r0 rates']; [split; [reflexivity|congruence]|].
  split; [discriminate|]. intros _.
  eexists. exists (py_min_by (fun x => Qabs (total_points x)) r0 rates').
  split; [reflexivity|]. cbn [all_rates borrower_par_rate borrower_par_points
    llpa_adjustment grid_par_rate].
  split; [reflexivity|]. split; [apply py_min_by_in|].
  repeat (split; [reflexivity|]).
  split; [intros r' Hr; now apply (py_min_by_le (fun x => Qabs (total_points x)))|].
  split.
  - destruct (find is_par (r0 :: rates')) as [g|] eqn:Ef; cbn [option_map].
    + split; [discriminate|]. intros Hall.
      destruct (find_first_sorted _ _ _ Hs Ef) as [Hin [Hp _]].
      rewrite (Hall g Hin) in Hp. discriminate.
    + split; [|reflexivity]. intros _ r' Hr.
      exact (find_none _ _ Ef r' Hr).
  - intros g Hg.
    destruct (find is_par (r0 :: rates')) as [x|] eqn:Ef; [|discriminate].
    cbn in Hg. injection Hg as <-.
    destruct (find_first_sorted _ _ _ Hs Ef) as [Hin [Hp Hmax]].
    exists x. auto.
Qed.

(** X13.  Edge cases of the three grid functions.  On an empty grid
    [get_available_rates_with_points] returns the empty list and the
    two others return [None].  On a grid with a key that does not read
    as a number all three raise.  On a grid that is not empty and whose
    keys all read as numbers, [get_par_rate_for_borrower] and
    [get_best_rate_for_closing_cost] both return a dictionary. *)
Theorem pricing_grid_edge_cases target base cs ltv la lt pt occ :
  (get_available_rates_with_points float_of_string format_3f [] base cs
     ltv la lt pt occ = Some [] /\
   get_par_rate_for_borrower float_of_string format_3f [] base cs ltv la
     lt pt occ = Some None /\
   get_best_rate_for_closing_cost float_of_string format_3f format_comma_0f
     [] target base cs ltv la lt pt occ = Some None) /\
  (forall grid,
     grid <> [] ->
     Exists (fun kv => float_of_string (fst kv) = None) grid ->
     get_available_rates_with_points float_of_string format_3f grid base cs
       ltv la lt pt occ = None /\
     get_par_rate_for_borrower float_of_string format_3f grid base cs ltv la
       lt pt occ = None /\
     get_best_rate_for_closing_cost float_of_string format_3f format_comma_0f
       grid target base cs ltv la lt pt occ = None) /\
  (forall grid,
     grid <> [] ->
     Forall (fun kv => float_of_string (fst kv) <> None) grid ->
     (exists p, get_par_rate_for_borrower float_of_string format_3f grid base
                  cs ltv la lt pt occ = Some (Some p)) /\
     (exists b, get_best_rate_for_closing_cost float_of_string format_3f
                  format_comma_0f grid target base cs ltv la lt pt occ
                = Some (Some b))).
Proof.
  split; [repeat split|]. split.
  - intros [|g grid] Hne Hex; [congruence|].
    assert (E : get_available_rates_with_points float_of_string format_3f
                  (g :: grid) base cs ltv la lt pt occ = None).
    { rewrite available_rates_eval, (keyed_items_none _ Hex). reflexivity. }
    unfold get_par_rate_for_borrower, get_best_rate_for_closing_cost.
    rewrite E. auto.
  - intros [|g grid] Hne Hall; [congruence|].
    destruct (keyed_items_some _ Hall) as [items [E [L _]]].
    unfold get_par_rate_for_borrower, get_best_rate_for_closing_cost.
    rewrite available_rates_eval, E. cbn [option_map].
    destruct (sorted_desc items) as [|i0 rest] eqn:Es.
    { apply (f_equal (@List.length _)) in Es.
      rewrite (Permutation_length (sorted_desc_perm items)), L in Es. discriminate. }
    cbn [map]. split; [eexists; reflexivity|].
    destruct (filter _ _); eexists; reflexivity.
Qed.

Lemma available_rates_llpa grid base cs ltv la lt pt occ rows :
  get_available_rates_with_points float_of_string format_3f grid base cs
    ltv la lt pt occ = Some rows ->
  forall row, In row rows -> llpa_points row = grid_llpa cs ltv la lt pt occ.
Proof.
  destruct grid as [|g grid].
  - intros H. injection H as <-. intros row [].
  - rewrite available_rates_eval.
    destruct (keyed_items float_of_string (g :: grid)); [|discriminate].
    intros H. injection H as <-. intros row Hr.
    apply in_map_iff in Hr. destruct Hr as [[k [s0 b]] [<- _]]. reflexivity.
Qed.

(** X14.  The LLPA of the grid rows against the LLPA of
    [calculate_available_rate], which always returns.  For a loan type
    that upper-cases to CONVENTIONAL both are the conventional Total
    LLPA; for FHA both are [0]; for every other loan type the rows of
    [get_available_rates_with_points] carry no LLPA points while
    [calculate_available_rate] still adds the conventional Total
    LLPA. *)
Theorem grid_llpa_against_available_rate
  grid base cs ltv la lt pt occ st :
  exists r t,
    calculate_available_rate base cs ltv la lt pt occ st = Some r /\
    conventional_total cs ltv la "Rate/Term Refinance" pt occ = Some t /\
    forall rows,
      get_available_rates_with_points float_of_string format_3f grid base cs
        ltv la lt pt occ = Some rows ->
      (upper lt = "CONVENTIONAL" ->
         total_llpa r = t /\
         forall row, In row rows -> llpa_points row = t) /\
      (upper lt = "FHA" ->
         total_llpa r = 0.0 /\
         forall row, In row rows -> llpa_points row = 0.0) /\
      (upper lt <> "CONVENTIONAL" -> upper lt <> "FHA" ->
         total_llpa r = t /\
         forall row, In row rows -> llpa_points row = 0.0).
Proof.
  rewrite conventional_total_eq.
  unfold calculate_available_rate. rewrite conventional_llpa_breakdown.
  destruct (upper lt =? "FHA") eqn:EF.
  - apply String.eqb_eq in EF.
    eexists. eexists. split; [reflexivity|]. split; [reflexivity|].
    intros rows H. pose proof (available_rates_llpa _ _ _ _ _ _ _ _ _ H) as L.
    unfold grid_llpa in L. rewrite EF in L. cbn [String.eqb Ascii.eqb Bool.eqb] in L.
    split; [intros C; rewrite EF in C; discriminate|].
    split; [intros _; split; [reflexivity|exact L]|].
    intros _ C. contradiction.
  - apply String.eqb_neq in EF.
    eexists. eexists. split; [reflexivity|]. split; [reflexivity|].
    intros rows H. pose proof (available_rates_llpa _ _ _ _ _ _ _ _ _ H) as L.
    unfold grid_llpa in L.
    split; [|split].
    + intros C. rewrite C in L. split; [reflexivity|exact L].
    + intros C. contradiction.
    + intros C _. apply String.eqb_neq in C. rewrite C in L.
      split; [reflexivity|exact L].
Qed.

End GridFacts.

Section GridExamples.
Import PyDict.
Import RateCalculator.
Local Open Scope string_scope.
Local Open Scope Q_scope.

(** The sample grid for a borrower with a Total LLPA of 2.125: the
    rows come out by falling rate. *)
Example sample_grid_rows :
  option_map (map (fun r => (rate r, total_points r, total_cost r)))
    (get_available_rates_with_points sample_float_of_string (fun _ => EmptyString)
       sample_grid 6.5 700 85 300000 "Conventional" "Single Family"
       "Primary Residence")
  = Some [(6.5, 0 + (0 + 2.125 + 0.0 + 0.0 + 0.0), (0 + (0 + 2.125 + 0.0 + 0.0 + 0.0)) * 300000 / 100);
          (6.25, 0.5 + (0 + 2.125 + 0.0 + 0.0 + 0.0), (0.5 + (0 + 2.125 + 0.0 + 0.0 + 0.0)) * 300000 / 100);
          (6, 1.25 + (0 + 2.125 + 0.0 + 0.0 + 0.0), (1.25 + (0 + 2.125 + 0.0 + 0.0 + 0.0)) * 300000 / 100)].
Proof. reflexivity. Qed.

Lemma get_available_rates_with_points_spec_witness :
  exists rows,
    get_available_rates_with_points sample_float_of_string (fun _ => EmptyString)
      sample_grid 6.5 700 85 300000 "Conventional" "Single Family"
      "Primary Residence" = Some rows /\
    List.length rows = 3%nat /\
    StronglySorted rate_desc rows.
Proof.
  destruct (get_available_rates_with_points_spec sample_float_of_string
              (fun _ => EmptyString) sample_grid 6.5 700 85 300000 "Conventional"
              "Single Family" "Primary Residence")
    as [rows [E [L [S _]]]].
  - repeat constructor; discriminate.
  - exists rows. auto.
Defined.

Lemma get_best_rate_for_closing_cost_spec_witness :
  exists b,
    get_best_rate_for_closing_cost sample_float_of_string (fun _ => EmptyString)
      (fun _ => EmptyString) sample_grid 8000 6.5 700 85 300000 "Conventional"
      "Single Family" "Primary Residence" = Some (Some b) /\
    (within_budget b = true -> best_cost b <= 8000).
Proof.
  destruct (get_best_rate_for_closing_cost_spec sample_float_of_string
              (fun _ => EmptyString) (fun _ => EmptyString) sample_grid 8000 6.5 700 85 300000
              "Conventional" "Single Family" "Primary Residence" _ eq_refl)
    as [_ H].
  destruct H as [b [r [E [_ [_ [_ [Ec [_ [Hw _]]]]]]]]]; [discriminate|].
  exists b. split; [exact E|]. intros W. rewrite Ec. now apply Hw.
Defined.

Lemma get_par_rate_for_borrower_spec_witness :
  exists p,
    get_par_rate_for_borrower sample_float_of_string (fun _ => EmptyString)
      sample_grid 6.5 700 85 300000 "Conventional" "Single Family"
      "Primary Residence" = Some (Some p) /\
    List.length (all_rates p) = 3%nat.
Proof.
  destruct (get_par_rate_for_borrower_spec sample_float_of_string
              (fun _ => EmptyString) sample_grid 6.5 700 85 300000
              "Conventional" "Single Family" "Primary Residence" _ eq_refl)
    as [_ H].
  destruct H as [p [r [E [Ea _]]]]; [discriminate|].
  exists p. split; [exact E|]. rewrite Ea. reflexivity.
Defined.

(** The budget of 8000 buys the rate of 6.25; the borrower's par rate
    is 6.5, the par rate of the grid. *)
Example sample_grid_choices :
  option_map (option_map (fun b => (best_rate b, within_budget b)))
    (get_best_rate_for_closing_cost sample_float_of_string (fun _ => EmptyString)
       (fun _ => EmptyString) sample_grid 8000 6.5 700 85 300000 "Conventional"
       "Single Family" "Primary Residence") = Some (Some (6.25, true)) /\
  option_map (option_map (fun p => (borrower_par_rate p, grid_par_rate p)))
    (get_par_rate_for_borrower sample_float_of_string (fun _ => EmptyString)
       sample_grid 6.5 700 85 300000 "Conventional" "Single Family"
       "Primary Residence") = Some (Some (6.5, Some 6.5)).
Proof. split; reflexivity. Qed.

(** A VA loan: the grid rows carry no LLPA, the available rate carries
    the conventional one. *)
Example va_loan_llpa :
  option_map (map llpa_points)
    (get_available_rates_with_points sample_float_of_string (fun _ => EmptyString)
       sample_grid 6.5 700 85 300000 "VA" "Single Family" "Primary Residence")
  = Some [0.0; 0.0; 0.0] /\
  option_map total_llpa
    (calculate_available_rate 6.5 700 85 300000 "VA" "Single Family"
       "Primary Residence" 0)
  = Some (0 + 2.125 + 0.0 + 0.0 + 0.0).
Proof. split; reflexivity. Qed.

End GridExamples.


(* ================================================================== *)
(** * Lambda, the approximations and the trigger rate *)
(* ================================================================== *)

Section ThresholdMore.
Import Threshold.
Local Open Scope R_scope.

Ltac thr_eval :=
  cbn [bind try_except lit nneg nabs nadd nsub nmul np_sqrt np_exp
       np_real_lambertw np_isnan np_nan nlt ngt val kind_of join
       fneg fabs fadd fsub fmul fisnan].

(** X15.  [calculate_lambda] on finite inputs.  For
    [i0 * Gamma < 100] and [i0 * Gamma <> 0] it returns
    [mu + i0 / (exp (i0 * Gamma) - 1) + pi]; for [i0 * Gamma >= 100]
    it returns [mu + pi]; for [i0 = 0] it returns NaN and for [i0 > 0]
    with [Gamma = 0] it returns positive infinity, in both cases
    without raising. *)
Theorem calculate_lambda_spec kmu ki kG kpi mu i0 G pi :
  (i0 * G < 100 -> i0 * G <> 0 ->
     calculate_lambda (mk_num kmu (Fin mu)) (mk_num ki (Fin i0))
       (mk_num kG (Fin G)) (mk_num kpi (Fin pi))
     = Ok (mk_num Np (Fin (mu + i0 / (exp (i0 * G) - 1) + pi)))) /\
  (100 <= i0 * G ->
     calculate_lambda (mk_num kmu (Fin mu)) (mk_num ki (Fin i0))
       (mk_num kG (Fin G)) (mk_num kpi (Fin pi))
     = Ok (mk_num (join kmu kpi) (Fin (mu + pi)))) /\
  (i0 = 0 ->
     calculate_lambda (mk_num kmu (Fin mu)) (mk_num ki (Fin i0))
       (mk_num kG (Fin G)) (mk_num kpi (Fin pi))
     = Ok (mk_num Np NaN)) /\
  (0 < i0 -> G = 0 ->
     calculate_lambda (mk_num kmu (Fin mu)) (mk_num ki (Fin i0))
       (mk_num kG (Fin G)) (mk_num kpi (Fin pi))
     = Ok (mk_num Np PInf)).
Proof.
  unfold calculate_lambda. rewrite nlt_product.
  repeat split.
  - intros H Hn. destruct (Rlt_dec (i0 * G) 100); [|contradiction].
    rewrite ndiv_np by (thr_eval; apply join_Np_r). thr_eval.
    rewrite fexp_Fin by lra. thr_eval.
    assert (exp (i0 * G) <> 1).
    { intros E. rewrite <- exp_0 in E. apply exp_inv in E. contradiction. }
    rewrite fdiv_Fin by lra. thr_eval.
    destruct kmu, kpi; reflexivity.
  - intros H. destruct (Rlt_dec (i0 * G) 100); [lra|]. reflexivity.
  - intros ->. destruct (Rlt_dec (0 * G) 100); [|lra].
    rewrite ndiv_np by (thr_eval; apply join_Np_r). thr_eval.
    rewrite fexp_Fin by lra. thr_eval.
    unfold fdiv, inf_signed.
    replace (0 * G) with 0 by ring. rewrite exp_0.
    destruct (Req_dec_T (1 + - (1)) 0); [|lra].
    destruct (Rlt_dec 0 0); [lra|]. destruct kmu, kpi; reflexivity.
  - intros Hi ->. destruct (Rlt_dec (i0 * 0) 100); [|lra].
    rewrite ndiv_np by (thr_eval; apply join_Np_r). thr_eval.
    rewrite fexp_Fin by lra. thr_eval.
    unfold fdiv, inf_signed.
    replace (i0 * 0) with 0 by ring. rewrite exp_0.
    destruct (Req_dec_T (1 + - (1)) 0); [|lra].
    destruct (Rlt_dec 0 i0); [|lra]. destruct kmu, kpi; reflexivity.
Qed.


Lemma calculate_lambda_below_cap kmu ki kG kpi mu i0 G pi :
  i0 * G < 100 -> i0 * G <> 0 ->
  calculate_lambda (mk_num kmu (Fin mu)) (mk_num ki (Fin i0))
    (mk_num kG (Fin G)) (mk_num kpi (Fin pi))
  = Ok (mk_num Np (Fin (mu + i0 / (exp (i0 * G) - 1) + pi))).
Proof.
  intros H Hn. unfold calculate_lambda. rewrite nlt_product.
  destruct (Rlt_dec (i0 * G) 100); [|contradiction].
  rewrite ndiv_np by (thr_eval; apply join_Np_r). thr_eval.
  rewrite fexp_Fin by lra. thr_eval.
  assert (exp (i0 * G) <> 1).
  { intros E. rewrite <- exp_0 in E. apply exp_inv in E. contradiction. }
  rewrite fdiv_Fin by lra. thr_eval.
  destruct kmu, kpi; reflexivity.
Qed.

Lemma calculate_lambda_at_cap kmu ki kG kpi mu i0 G pi :
  100 <= i0 * G ->
  calculate_lambda (mk_num kmu (Fin mu)) (mk_num ki (Fin i0))
    (mk_num kG (Fin G)) (mk_num kpi (Fin pi))
  = Ok (mk_num (join kmu kpi) (Fin (mu + pi))).
Proof.
  intros H. unfold calculate_lambda. rewrite nlt_product.
  destruct (Rlt_dec (i0 * G) 100); [lra|]. reflexivity.
Qed.

Lemma principal_term_positive i0 G :
  0 < i0 -> 0 < G -> 0 < i0 / (exp (i0 * G) - 1).
Proof.
  intros Hi HG.
  assert (0 < i0 * G) by (apply Rmult_lt_0_compat; assumption).
  pose proof (exp_increasing 0 (i0 * G) H) as E. rewrite exp_0 in E.
  apply Rdiv_lt_0_compat; lra.
Qed.

Lemma principal_term_decreasing i0 G1 G2 :
  0 < i0 -> 0 < G1 -> G1 < G2 ->
  i0 / (exp (i0 * G2) - 1) < i0 / (exp (i0 * G1) - 1).
Proof.
  intros Hi H1 H2.
  assert (P1 : 0 < i0 * G1) by (apply Rmult_lt_0_compat; assumption).
  assert (P2 : i0 * G1 < i0 * G2) by (apply Rmult_lt_compat_l; assumption).
  pose proof (exp_increasing 0 (i0 * G1) P1) as E1. rewrite exp_0 in E1.
  pose proof (exp_increasing _ _ P2) as E2.
  unfold Rdiv. apply Rmult_lt_compat_l; [assumption|].
  apply Rinv_lt_contravar; [|lra].
  apply Rmult_lt_0_compat; lra.
Qed.

(** X16.  For a positive rate [i0] and remaining years
    [0 < G1 < G2], [calculate_lambda] returns finite values [l1] and
    [l2] with [mu + pi <= l2 <= l1]: a longer remaining life never
    raises lambda.  The decrease is strict when [i0 * G1 < 100], and
    lambda stays strictly above [mu + pi] while [i0 * G2 < 100]. *)
Theorem calculate_lambda_decreasing_in_years
  kmu ki kG1 kG2 kpi mu i0 G1 G2 pi :
  0 < i0 -> 0 < G1 -> G1 < G2 ->
  exists k1 l1 k2 l2,
    calculate_lambda (mk_num kmu (Fin mu)) (mk_num ki (Fin i0))
      (mk_num kG1 (Fin G1)) (mk_num kpi (Fin pi)) = Ok (mk_num k1 (Fin l1)) /\
    calculate_lambda (mk_num kmu (Fin mu)) (mk_num ki (Fin i0))
      (mk_num kG2 (Fin G2)) (mk_num kpi (Fin pi)) = Ok (mk_num k2 (Fin l2)) /\
    mu + pi <= l2 /\ l2 <= l1 /\
    (i0 * G1 < 100 -> l2 < l1) /\
    (i0 * G2 < 100 -> mu + pi < l2).
Proof.
  intros Hi H1 H2.
  assert (HG2 : 0 < G2) by lra.
  assert (P1 : 0 < i0 * G1) by (apply Rmult_lt_0_compat; assumption).
  assert (P2 : i0 * G1 < i0 * G2) by (apply Rmult_lt_compat_l; assumption).
  pose proof (principal_term_positive i0 G1 Hi H1) as T1.
  pose proof (principal_term_positive i0 G2 Hi HG2) as T2.
  pose proof (principal_term_decreasing i0 G1 G2 Hi H1 H2) as T12.
  destruct (Rlt_dec (i0 * G2) 100) as [A2|A2].
  - do 4 eexists. split; [apply calculate_lambda_below_cap; lra|].
    split; [apply calculate_lambda_below_cap; lra|].
    repeat split; intros; lra.
  - destruct (Rlt_dec (i0 * G1) 100) as [A1|A1].
    + do 4 eexists. split; [apply calculate_lambda_below_cap; lra|].
      split; [apply calculate_lambda_at_cap; lra|].
      repeat split; intros; lra.
    + do 4 eexists. split; [apply calculate_lambda_at_cap; lra|].
      split; [apply calculate_lambda_at_cap; lra|].
      repeat split; intros; lra.
Qed.

Lemma calculate_lambda_decreasing_in_years_witness :
  exists k1 l1 k2 l2,
    calculate_lambda (lit 0.1) (lit 0.06) (lit 15) (lit 0.03)
      = Ok (mk_num k1 (Fin l1)) /\
    calculate_lambda (lit 0.1) (lit 0.06) (lit 25) (lit 0.03)
      = Ok (mk_num k2 (Fin l2)) /\
    0.1 + 0.03 <= l2 /\ l2 <= l1 /\
    (0.06 * 15 < 100 -> l2 < l1) /\
    (0.06 * 25 < 100 -> 0.1 + 0.03 < l2).
Proof.
  apply (calculate_lambda_decreasing_in_years Py Py Py Py Py 0.1 0.06 15 25 0.03);
    lra.
Defined.

Lemma fsqrt_negative x : x < 0 -> fsqrt (Fin x) = NaN.
Proof. intros H. unfold fsqrt. destruct (Rlt_dec x 0); [reflexivity|lra]. Qed.

(** X17.  [calculate_square_root_approximation] for [M > 0],
    [tau < 1] and [rho + lambda >= 0].  For [kappa >= 0] it returns
    [- (sigma * sqrt (kappa / (M * (1 - tau))) * sqrt (2 * (rho + lambda)))],
    whose square is [2 * sigma^2] times the absolute value of the NPV
    threshold of [calculate_npv_threshold], and which is at most [0]
    when [sigma >= 0].  For [kappa < 0] it returns NaN without
    raising. *)
Theorem square_root_approximation_spec kM kr kl ks kk kt m r l s k t :
  0 < m -> t < 1 -> 0 <= r + l ->
  (0 <= k ->
   exists xa kn xn,
     calculate_square_root_approximation
       (mk_num kM (Fin m)) (mk_num kr (Fin r)) (mk_num kl (Fin l))
       (mk_num ks (Fin s)) (mk_num kk (Fin k)) (mk_num kt (Fin t))
     = Ok (mk_num Np (Fin xa)) /\
     calculate_npv_threshold
       (mk_num kM (Fin m)) (mk_num kr (Fin r)) (mk_num kl (Fin l))
       (mk_num kk (Fin k)) (mk_num kt (Fin t))
     = Ok (mk_num kn (Fin xn)) /\
     xa = - (s * sqrt (k / (m * (1 - t))) * sqrt (2 * (r + l))) /\
     xa * xa = 2 * (s * s) * Rabs xn /\
     (0 <= s -> xa <= 0)) /\
  (k < 0 ->
   exists x,
     calculate_square_root_approximation
       (mk_num kM (Fin m)) (mk_num kr (Fin r)) (mk_num kl (Fin l))
       (mk_num ks (Fin s)) (mk_num kk (Fin k)) (mk_num kt (Fin t))
     = Ok x /\ np_isnan x = true).
Proof.
  intros Hm Ht Hrl.
  assert (Hd : 0 < m * (1 - t)) by (apply Rmult_lt_0_compat; lra).
  split.
  - intros Hk.
    assert (Hq : 0 <= k / (m * (1 - t))) by (apply Rle_mult_inv_pos; assumption).
    rewrite calculate_square_root_approximation_returns by lra.
    rewrite calculate_npv_threshold_finite by lra.
    thr_eval. rewrite fdiv_Fin by lra.
    unfold nneg, nmul, nadd, np_sqrt, lit. thr_eval.
    rewrite !fsqrt_Fin by (unfold Rminus in *; lra). thr_eval.
    rewrite !join_Np_r.
    do 3 eexists. split; [reflexivity|]. split; [reflexivity|].
    split; [reflexivity|].
    assert (Hxn : - (r + l) * (k / (1 - t)) / m = - ((r + l) * (k / (m * (1 - t)))))
      by (field; lra).
    rewrite Hxn, Rabs_Ropp, Rabs_right
      by (apply Rle_ge, Rmult_le_pos; assumption).
    split.
    + set (a := sqrt (k / (m * (1 - t)))). set (b := sqrt (2 * (r + l))).
      assert (Ea : a * a = k / (m * (1 - t))) by (apply sqrt_sqrt; assumption).
      assert (Eb : b * b = 2 * (r + l)) by (apply sqrt_sqrt; lra).
      replace (- (s * a * b) * - (s * a * b)) with (s * s * (a * a) * (b * b)) by ring.
      rewrite Ea, Eb. ring.
    + intros Hs.
      pose proof (sqrt_pos (k / (m * (1 - t)))).
      pose proof (sqrt_pos (2 * (r + l))).
      assert (0 <= s * sqrt (k / (m * (1 - t))) * sqrt (2 * (r + l))).
      { apply Rmult_le_pos; [apply Rmult_le_pos|]; assumption. }
      lra.
  - intros Hk.
    assert (Hq : k / (m * (1 - t)) < 0).
    { assert (H0 : 0 < (- k) / (m * (1 - t))) by (apply Rdiv_lt_0_compat; lra).
      assert (E : (- k) / (m * (1 - t)) = - (k / (m * (1 - t)))) by (field; lra).
      lra. }
    rewrite calculate_square_root_approximation_returns by lra.
    eexists. split; [reflexivity|].
    unfold np_isnan, nneg, nmul, nadd, np_sqrt, lit. thr_eval.
    rewrite fdiv_Fin by lra.
    rewrite fsqrt_negative by (unfold Rminus in *; lra).
    reflexivity.
Qed.

Lemma square_root_approximation_spec_witness :
  (0 <= 6000 ->
   exists xa kn xn,
     calculate_square_root_approximation (lit 400000) (lit 0.05) (lit 0.1)
       (lit 0.0109) (lit 6000) (lit 0.28) = Ok (mk_num Np (Fin xa)) /\
     calculate_npv_threshold (lit 400000) (lit 0.05) (lit 0.1)
       (lit 6000) (lit 0.28) = Ok (mk_num kn (Fin xn)) /\
     xa = - (0.0109 * sqrt (6000 / (400000 * (1 - 0.28))) *
             sqrt (2 * (0.05 + 0.1))) /\
     xa * xa = 2 * (0.0109 * 0.0109) * Rabs xn /\
     (0 <= 0.0109 -> xa <= 0)) /\
  (6000 < 0 ->
   exists x,
     calculate_square_root_approximation (lit 400000) (lit 0.05) (lit 0.1)
       (lit 0.0109) (lit 6000) (lit 0.28) = Ok x /\ np_isnan x = true).
Proof.
  apply (square_root_approximation_spec Py Py Py Py Py Py
           400000 0.05 0.1 0.0109 6000 0.28); lra.
Defined.

(** The exact threshold and its basis-point entry in the dictionary
    of [calculate_trigger_rate], for the [lambda] that
    [calculate_lambda] returns. *)
Lemma calculate_trigger_rate_threshold
  kc kM kG kr ks kt kfc kpts kmu kpi c m G rho s t fc pts mu pi kl l :
  c <= 1 -> 0 < m -> 0 < s -> 0 <= t < 1 -> 0 < rho + l -> 0 < fc + pts * m ->
  calculate_lambda (mk_num kmu (Fin mu)) (mk_num kc (Fin c))
    (mk_num kG (Fin G)) (mk_num kpi (Fin pi)) = Ok (mk_num kl (Fin l)) ->
  let psi := sqrt (2 * (rho + l)) / s in
  let x := 1 / psi * gap (1 + psi * (rho + l) * ((fc + pts * m) / (1 - t)) / m) in
  exists res,
    calculate_trigger_rate (mk_num kc (Fin c)) (mk_num kM (Fin m))
      (mk_num kG (Fin G)) (mk_num kr (Fin rho)) (mk_num ks (Fin s))
      (mk_num kt (Fin t)) (mk_num kfc (Fin fc)) (mk_num kpts (Fin pts))
      (mk_num kmu (Fin mu)) (mk_num kpi (Fin pi)) = Ok res /\
    x_star res = mk_num Np (Fin x) /\
    optimal_threshold_bps res = Some (mk_num Np (Fin (- x * 10000))) /\
    lambda res = mk_num kl (Fin l) /\
    val (kappa res) = Fin (fc + pts * m).
Proof.
  intros Hc Hm Hs [Ht0 Ht1] Hrl Hk El psi x.
  rewrite calculate_trigger_rate_decimal by assumption.
  unfold trigger_rate_of_decimal. rewrite El. cbn [bind].
  change (calculate_kappa (mk_num kM (Fin m)) (mk_num kpts (Fin pts))
            (mk_num kfc (Fin fc)) (mk_num kt (Fin t)))
    with (mk_num (join kfc (join kpts kM)) (Fin (fc + pts * m))).
  rewrite (calculate_optimal_threshold_valid kM kr kl ks
             (join kfc (join kpts kM)) kt m rho l s (fc + pts * m) t)
    by (assumption || lra).
  cbn [bind].
  rewrite calculate_square_root_approximation_returns by lra. cbn [bind].
  rewrite calculate_npv_threshold_finite by lra. cbn [bind].
  cbn [np_isnan val fisnan negb].
  eexists. split; [reflexivity|].
  cbn [x_star optimal_threshold_bps lambda kappa].
  repeat split; reflexivity.
Qed.

(** C3.  The code at two balances, everything else held fixed (a rate
    of 6%, 25 years left, [rho = 0.05], [sigma = 0.0109], [tau = 0.28],
    a fixed cost of 2000 and no points, so [kappa = 2000] at both).
    [calculate_optimal_threshold] returns a positive [x_star] that is
    smaller at the larger balance, as the claim says of [|x_star|]; but
    the statement [x_star_bp = -x_star * 10000], commented in the source
    with "x_star is negative, we want positive bps drop", then yields a
    negative number of basis points that is larger at the larger
    balance.  The first part calls [calculate_optimal_threshold] with
    [lambda = 0.1], the second goes through [calculate_trigger_rate]. *)
Lemma threshold_bps_increasing_in_balance :
  (exists x1 psi1 phi1 C1 x2 psi2 phi2 C2,
     calculate_optimal_threshold (lit 100000) (lit 0.05) (lit 0.1)
       (lit 0.0109) (lit 2000) (lit 0.28)
     = Ok (mk_num Np (Fin x1), psi1, phi1, C1) /\
     calculate_optimal_threshold (lit 200000) (lit 0.05) (lit 0.1)
       (lit 0.0109) (lit 2000) (lit 0.28)
     = Ok (mk_num Np (Fin x2), psi2, phi2, C2) /\
     0 < x2 < x1 /\
     val (nmul (nneg (mk_num Np (Fin x1))) (lit 10000))
       = Fin (- x1 * 10000) /\
     val (nmul (nneg (mk_num Np (Fin x2))) (lit 10000))
       = Fin (- x2 * 10000) /\
     - x1 * 10000 < - x2 * 10000 < 0) /\
  (exists res1 res2 x1 x2,
     calculate_trigger_rate (lit 0.06) (lit 100000) (lit 25) (lit 0.05)
       (lit 0.0109) (lit 0.28) (lit 2000) (lit 0) (lit 0.10) (lit 0.03)
     = Ok res1 /\
     calculate_trigger_rate (lit 0.06) (lit 200000) (lit 25) (lit 0.05)
       (lit 0.0109) (lit 0.28) (lit 2000) (lit 0) (lit 0.10) (lit 0.03)
     = Ok res2 /\
     lambda res1 = lambda res2 /\
     val (kappa res1) = Fin 2000 /\ val (kappa res2) = Fin 2000 /\
     x_star res1 = mk_num Np (Fin x1) /\ x_star res2 = mk_num Np (Fin x2) /\
     0 < x2 < x1 /\
     optimal_threshold_bps res1 = Some (mk_num Np (Fin (- x1 * 10000))) /\
     optimal_threshold_bps res2 = Some (mk_num Np (Fin (- x2 * 10000))) /\
     - x1 * 10000 < - x2 * 10000 < 0).
Proof.
  split.
  - pose proof (threshold_decreasing_in_M 0.05 0.1 0.0109 2000 0.28
                  100000 200000) as Hx. cbv zeta in Hx.
    do 8 eexists. split; [|split].
    + apply calculate_optimal_threshold_valid; lra.
    + apply calculate_optimal_threshold_valid; lra.
    + repeat split; try reflexivity; lra.
  - destruct (calculate_lambda_finite Py Py Py Py 0.10 0.06 25 0.03)
      as (kl & l & El & Hl); try lra.
    destruct (calculate_trigger_rate_threshold Py Py Py Py Py Py Py Py Py Py
                0.06 100000 25 0.05 0.0109 0.28 2000 0 0.10 0.03 kl l)
      as (res1 & E1 & X1 & B1 & L1 & K1); try lra; try exact El.
    destruct (calculate_trigger_rate_threshold Py Py Py Py Py Py Py Py Py Py
                0.06 200000 25 0.05 0.0109 0.28 2000 0 0.10 0.03 kl l)
      as (res2 & E2 & X2 & B2 & L2 & K2); try lra; try exact El.
    replace (2000 + 0 * 100000) with 2000 in * by lra.
    replace (2000 + 0 * 200000) with 2000 in * by lra.
    pose proof (threshold_decreasing_in_M 0.05 l 0.0109 2000 0.28
                  100000 200000) as Hx. cbv zeta in Hx.
    do 4 eexists.
    split; [exact E1|]. split; [exact E2|].
    split; [now rewrite L1, L2|].
    split; [exact K1|]. split; [exact K2|].
    split; [exact X1|]. split; [exact X2|].
    split; [apply Hx; lra|].
    split; [exact B1|]. split; [exact B2|].
    assert (Hx' := Hx ltac:(lra) ltac:(lra) ltac:(lra) ltac:(lra) ltac:(lra) ltac:(lra)).
    lra.
Qed.

Variable format_0f : num -> string.

(** X18.  [calculate_trigger_rate] on valid inputs: a current rate
    in (0, 1], positive balance, remaining years, discount rate and
    volatility, a tax rate in [0, 1), non-negative costs, points,
    moving probability and inflation, and a positive refinancing cost.
    The call returns with a finite [x_star > 0]; the threshold in basis
    points is [- x_star * 10000]; the trigger rate is
    [current_rate - x_star], strictly below the current rate, and
    [trigger_rate_pct] is 100 times it unless the trigger rate is
    exactly [0], where it is [None]; [is_ready_to_refinance] on this
    trigger rate is ready exactly for available rates strictly below
    [current_rate - x_star]; the NPV threshold in basis points is
    positive and at most [x_star * 10000]; [kappa] is
    [fixed_cost + points * balance] and [current_rate_pct] is 100 times
    the current rate. *)
Theorem calculate_trigger_rate_valid
  kc kM kG kr ks kt kfc kpts kmu kpi c m G rho s t fc pts mu pi :
  0 < c <= 1 -> 0 < m -> 0 < G -> 0 < rho -> 0 < s -> 0 <= t < 1 ->
  0 <= fc -> 0 <= pts -> 0 < fc + pts * m -> 0 <= mu -> 0 <= pi ->
  exists res x,
    calculate_trigger_rate (mk_num kc (Fin c)) (mk_num kM (Fin m))
      (mk_num kG (Fin G)) (mk_num kr (Fin rho)) (mk_num ks (Fin s))
      (mk_num kt (Fin t)) (mk_num kfc (Fin fc)) (mk_num kpts (Fin pts))
      (mk_num kmu (Fin mu)) (mk_num kpi (Fin pi)) = Ok res /\
    x_star res = mk_num Np (Fin x) /\ 0 < x /\
    (exists bps, optimal_threshold_bps res = Some bps /\
                 val bps = Fin (- x * 10000)) /\
    (exists tr y, trigger_rate res = Some tr /\ val tr = Fin y /\
                  y = c - x /\ y < c /\
                  (y <> 0 -> exists tp, trigger_rate_pct res = Some tp /\
                                        val tp = Fin (y * 100)) /\
                  (y = 0 -> trigger_rate_pct res = None) /\
                  forall ka a,
                    is_ready (is_ready_to_refinance format_0f (trigger_rate res)
                                (Some (mk_num ka (Fin a)))) = true
                    <-> a < c - x) /\
    (exists b, val (npv_threshold_bps res) = Fin b /\ 0 < b <= x * 10000) /\
    val (kappa res) = Fin (fc + pts * m) /\
    val (current_rate_pct res) = Fin (c * 100).
Proof.
  intros [Hc Hc1] Hm HG Hrho Hs [Ht0 Ht1] Hfc Hpts Hk Hmu Hpi.
  rewrite calculate_trigger_rate_decimal by assumption.
  unfold trigger_rate_of_decimal.
  destruct (calculate_lambda_finite kmu kc kG kpi mu c G pi Hc HG)
    as (kl & l & El & Hl).
  rewrite El. cbn [bind].
  change (calculate_kappa (mk_num kM (Fin m)) (mk_num kpts (Fin pts))
            (mk_num kfc (Fin fc)) (mk_num kt (Fin t)))
    with (mk_num (join kfc (join kpts kM)) (Fin (fc + pts * m))).
  assert (Hrl : 0 < rho + l) by lra.
  rewrite (calculate_optimal_threshold_valid kM kr kl ks
             (join kfc (join kpts kM)) kt m rho l s (fc + pts * m) t)
    by (assumption || lra).
  cbn [bind].
  rewrite calculate_square_root_approximation_returns by lra. cbn [bind].
  rewrite calculate_npv_threshold_finite by lra. cbn [bind].
  destruct (threshold_magnitudes m rho l s (fc + pts * m) t)
    as [[Hxn Hxs] [Hle Hlt]]; try assumption; try lra.
  set (psi := sqrt (2 * (rho + l)) / s) in *.
  set (phi := 1 + psi * (rho + l) * ((fc + pts * m) / (1 - t)) / m) in *.
  set (x := 1 / psi * gap phi) in *.
  set (xn := - (rho + l) * ((fc + pts * m) / (1 - t)) / m) in *.
  apply proj2 in Hlt. specialize (Hlt Hk).
  rewrite (Rabs_left1 xn Hxn) in Hle, Hlt.
  rewrite (Rabs_right x) in Hle, Hlt by lra.
  assert (Hx : 0 < x).
  { destruct Hxs as [Hxs|Hxs]; [assumption|]. exfalso. lra. }
  assert (Hxn' : xn < 0).
  { unfold xn.
    assert (0 < (rho + l) * ((fc + pts * m) / (1 - t)) / m).
    { apply Rdiv_lt_0_compat; [|assumption].
      apply Rmult_lt_0_compat; [assumption|]. apply Rdiv_lt_0_compat; lra. }
    replace (- (rho + l) * ((fc + pts * m) / (1 - t)) / m)
      with (- ((rho + l) * ((fc + pts * m) / (1 - t)) / m)) by (field; lra).
    lra. }
  cbn [np_isnan val fisnan negb].
  assert (Ea : Rabs x = x) by (apply Rabs_right; lra).
  eexists. exists x. split; [reflexivity|].
  cbn [x_star optimal_threshold_bps trigger_rate trigger_rate_pct
       npv_threshold_bps kappa current_rate_pct truthy].
  split; [reflexivity|]. split; [assumption|].
  split; [eexists; split; reflexivity|].
  split.
  { exists (nsub (mk_num kc (Fin c)) (nabs (mk_num Np (Fin x)))), (c - x).
    split; [reflexivity|].
    unfold nsub, nabs. cbn [val kind_of fsub fadd fneg fabs fis_zero].
    rewrite Ea.
    split; [reflexivity|]. split; [reflexivity|]. split; [lra|].
    split; [|split].
    - intros Hy. destruct (Req_dec_T (c + - x) 0); [lra|].
      cbn [negb option_map]. eexists. split; reflexivity.
    - intros Hy. destruct (Req_dec_T (c + - x) 0); [reflexivity|lra].
    - intros ka a. unfold is_ready_to_refinance, ngt, fgt, flt, nsub, lit.
      cbn [val kind_of fsub fadd fneg].
      destruct (Rlt_dec 0 (c + - x + - a)); cbn [is_ready]; split; intros;
        try reflexivity; try discriminate; lra. }
  split.
  { exists (- xn * 10000). split; [reflexivity|]. lra. }
  split; reflexivity.
Qed.

End ThresholdMore.

Section ThresholdExamples.
Import Threshold.
Local Open Scope R_scope.

(** The loan of the example at the end of the module. *)
Lemma calculate_trigger_rate_valid_witness :
  exists res x,
    calculate_trigger_rate (lit 0.06) (lit 400000) (lit 25) (lit 0.05)
      (lit 0.0109) (lit 0.28) (lit 2000) (lit 0.01) (lit 0.10) (lit 0.03)
    = Ok res /\
    x_star res = mk_num Np (Fin x) /\ 0 < x /\
    (exists bps, optimal_threshold_bps res = Some bps /\
                 val bps = Fin (- x * 10000)) /\
    (exists tr y, trigger_rate res = Some tr /\ val tr = Fin y /\
                  y = 0.06 - x /\ y < 0.06 /\
                  (y <> 0 -> exists tp, trigger_rate_pct res = Some tp /\
                                        val tp = Fin (y * 100)) /\
                  (y = 0 -> trigger_rate_pct res = None) /\
                  forall ka a,
                    is_ready (is_ready_to_refinance (fun _ => EmptyString)
                                (trigger_rate res)
                                (Some (mk_num ka (Fin a)))) = true
                    <-> a < 0.06 - x) /\
    (exists b, val (npv_threshold_bps res) = Fin b /\ 0 < b <= x * 10000) /\
    val (kappa res) = Fin (2000 + 0.01 * 400000) /\
    val (current_rate_pct res) = Fin (0.06 * 100).
Proof.
  apply (calculate_trigger_rate_valid (fun _ => EmptyString)
           Py Py Py Py Py Py Py Py Py Py
           0.06 400000 25 0.05 0.0109 0.28 2000 0.01 0.10 0.03); lra.
Defined.

End ThresholdExamples.


(* ================================================================== *)
(** * Amortization schedules *)
(* ================================================================== *)

Section ScheduleFacts.
Import Amortization.
Local Open Scope Q_scope.

Lemma inject_Z_pos n : (1 <= n)%Z -> 0 < inject_Z n.
Proof. intros H. change 0 with (inject_Z 0). rewrite <- Zlt_Qlt. lia. Qed.

Lemma Qpower_succ q k : ~ q == 0 -> Qpower q (k + 1) == Qpower q k * q.
Proof. intros H. rewrite Qpower_plus by assumption. now rewrite Qpower_1_r. Qed.

Lemma payment_closed_form P r n :
  0 < r -> (1 <= n)%Z ->
  P * r / (1 - Qpower (1 + r) (- n))
  == P * r * Qpower (1 + r) n / (Qpower (1 + r) n - 1).
Proof.
  intros Hr Hn.
  assert (H1 : 1 < Qpower (1 + r) n) by (apply Qpower_1_lt; [lra | lia]).
  rewrite Qpower_opp. field. split; lra.
Qed.

Lemma remaining_balance_start P r n :
  0 < r -> (1 <= n)%Z -> remaining_balance P r n 0 == P.
Proof.
  intros Hr Hn. unfold remaining_balance.
  assert (H1 : 1 < Qpower (1 + r) n) by (apply Qpower_1_lt; [lra | lia]).
  rewrite Qpower_0_r. field. lra.
Qed.

Lemma remaining_balance_end P r n :
  0 < r -> (1 <= n)%Z -> remaining_balance P r n n == 0.
Proof.
  intros Hr Hn. unfold remaining_balance.
  assert (H1 : 1 < Qpower (1 + r) n) by (apply Qpower_1_lt; [lra | lia]).
  field. lra.
Qed.

Lemma remaining_balance_bounds P r n k :
  0 < P -> 0 < r -> (0 < k < n)%Z ->
  0 < remaining_balance P r n k /\ remaining_balance P r n k < P.
Proof.
  intros HP Hr Hk. unfold remaining_balance.
  assert (H1 : 1 < Qpower (1 + r) n) by (apply Qpower_1_lt; [lra | lia]).
  assert (H2 : Qpower (1 + r) k < Qpower (1 + r) n)
    by (apply Qpower_lt_compat_l; [lia | lra]).
  assert (H3 : 1 < Qpower (1 + r) k) by (apply Qpower_1_lt; [lra | lia]).
  split.
  - apply Qlt_shift_div_l; [lra|]. nra.
  - apply Qlt_shift_div_r; [lra|]. nra.
Qed.

Lemma remaining_balance_positive P r n k :
  0 < P -> 0 < r -> (0 <= k < n)%Z -> 0 < remaining_balance P r n k.
Proof.
  intros HP Hr Hk. unfold remaining_balance.
  assert (H1 : 1 < Qpower (1 + r) n) by (apply Qpower_1_lt; [lra | lia]).
  assert (H2 : Qpower (1 + r) k < Qpower (1 + r) n)
    by (apply Qpower_lt_compat_l; [lia | lra]).
  apply Qlt_shift_div_l; [lra|]. nra.
Qed.

Lemma remaining_balance_step P r n k pmt :
  0 < r -> (1 <= n)%Z ->
  pmt == P * r / (1 - Qpower (1 + r) (- n)) ->
  remaining_balance P r n k - (pmt - r * remaining_balance P r n k)
  == remaining_balance P r n (k + 1).
Proof.
  intros Hr Hn Hp.
  assert (H1 : 1 < Qpower (1 + r) n) by (apply Qpower_1_lt; [lra | lia]).
  rewrite Hp, payment_closed_form by assumption.
  unfold remaining_balance. rewrite Qpower_succ by lra. field. lra.
Qed.

Lemma amortize_month_positive_rate P r n pmt k b :
  0 < P -> 0 < r -> (1 <= n)%Z ->
  pmt == P * r / (1 - Qpower (1 + r) (- n)) ->
  (0 <= k < n)%Z ->
  b == remaining_balance P r n k ->
  amortize_month n r pmt (k + 1) b == remaining_balance P r n (k + 1).
Proof.
  intros HP Hr Hn Hp Hk Hb. unfold amortize_month.
  assert (Ht : (k + 1 <=? n)%Z = true) by (apply Z.leb_le; lia).
  rewrite Ht. cbn [andb].
  pose proof (remaining_balance_positive P r n k HP Hr Hk) as Hpos.
  rewrite Qgt_bool_true by lra.
  assert (Hval : b - (pmt - r * b) == remaining_balance P r n (k + 1)).
  { rewrite Hb. now apply remaining_balance_step. }
  assert (Hnn : 0 <= remaining_balance P r n (k + 1)).
  { destruct (Z.eq_dec (k + 1) n) as [E|E].
    - rewrite E, remaining_balance_end by assumption. lra.
    - apply Qlt_le_weak, remaining_balance_positive; try assumption. lia. }
  rewrite max0_nonneg by lra. exact Hval.
Qed.

(** A loan whose balance is read by [bal] and updated by
    [amortize_month n r pmt] follows [remaining_balance]. *)
Lemma positive_rate_balance_run e (bal : loop_state -> Q) n r pmt P k s0 :
  (forall t s, bal (loop_body e t s) = amortize_month n r pmt t (bal s)) ->
  0 < P -> 0 < r -> (1 <= n)%Z ->
  pmt == P * r / (1 - Qpower (1 + r) (- n)) ->
  (Z.of_nat k <= n)%Z ->
  bal s0 == P ->
  bal (run_months e k 1 s0) == remaining_balance P r n (Z.of_nat k).
Proof.
  intros Hstep HP Hr Hn Hp Hk H0.
  induction k as [|k IH].
  - simpl. rewrite H0. symmetry. now apply remaining_balance_start.
  - replace (S k) with (k + 1)%nat at 1 by lia.
    rewrite run_months_app. cbn [run_months].
    rewrite Hstep.
    replace (1 + Z.of_nat k)%Z with (Z.of_nat k + 1)%Z by lia.
    replace (Z.of_nat (S k)) with (Z.of_nat k + 1)%Z by lia.
    apply (amortize_month_positive_rate P); try assumption; try lia.
    apply IH. lia.
Qed.


(** X19.  In [compute_enpv_full], a loan with a positive balance,
    a positive rate and a term of [n >= 1] months is paid off by its
    level payment exactly at the end of its term: after month [m <= n]
    the recorded balance is
    [P * ((1 + r)^n - (1 + r)^m) / ((1 + r)^n - 1)] for the monthly rate
    [r], strictly between [0] and the principal before month [n] and
    [0] at month [n].  This holds for the old loan and for the new
    loan. *)
Theorem positive_rate_loan_amortization
  (current_balance current_rate new_rate remaining_years_old new_term_years
     closing_costs : Q) (finance_costs_in_loan : bool)
  (invest_rate discount_rate cpr tau_rate : Q) (include_tax : bool) :
  let n_old := py_round (remaining_years_old * 12) in
  let n_new := py_round (new_term_years * 12) in
  let new_principal :=
    if finance_costs_in_loan then current_balance + closing_costs
    else current_balance in
  0 < current_balance -> 0 < new_principal ->
  0 < current_rate -> 0 < new_rate -> (1 <= n_old)%Z -> (1 <= n_new)%Z ->
  exists (hist : list rec) (p_old p_new : Q),
    compute_enpv_full current_balance current_rate new_rate remaining_years_old
      new_term_years closing_costs finance_costs_in_loan invest_rate
      discount_rate cpr tau_rate include_tax
    = Some (hist, p_old, p_new, n_old) /\
    (forall m, (1 <= m <= n_old)%Z ->
       exists rcd,
         nth_error hist (Z.to_nat m - 1) = Some rcd /\ month rcd = m /\
         rec_bal_old rcd
           == remaining_balance current_balance (current_rate / 12) n_old m /\
         ((m < n_old)%Z ->
            0 < rec_bal_old rcd /\ rec_bal_old rcd < current_balance) /\
         (m = n_old -> rec_bal_old rcd == 0)) /\
    (forall m, (1 <= m <= n_new)%Z ->
       exists rcd,
         nth_error hist (Z.to_nat m - 1) = Some rcd /\ month rcd = m /\
         rec_bal_new rcd
           == remaining_balance new_principal (new_rate / 12) n_new m /\
         ((m < n_new)%Z ->
            0 < rec_bal_new rcd /\ rec_bal_new rcd < new_principal) /\
         (m = n_new -> rec_bal_new rcd == 0)).
Proof.
  intros n_old n_new P' HP HP' Hcr Hnr Hno Hnn.
  set (P := current_balance) in *.
  unfold compute_enpv_full. fold n_old n_new P'.
  assert (Hro : 0 < current_rate / 12) by (apply Qlt_shift_div_l; lra).
  assert (Hrn : 0 < new_rate / 12) by (apply Qlt_shift_div_l; lra).
  rewrite (payment_positive_rate_value P _ _ Hro Hno).
  rewrite (payment_positive_rate_value P' _ _ Hrn Hnn).
  set (po := P * (current_rate / 12) / _).
  set (pn := P' * (new_rate / 12) / _).
  set (e := mk_env n_old n_new n_old (current_rate / 12) (new_rate / 12)
              (invest_rate / 12) po pn tau_rate include_tax).
  set (s0 := mk_state P P' 0 0 0 0 []).
  set (horizon := Z.to_nat (Z.max n_old n_new)).
  exists (history (run_months e horizon 1 s0)), po, pn.
  split; [reflexivity|]. split.
  - intros m Hm.
    destruct (record_at_month e horizon s0 (Z.to_nat m))
      as [r [Hnth [Hmo [Ho _]]]]; [reflexivity | unfold horizon; lia |].
    exists r. split; [exact Hnth|]. split; [rewrite Hmo; lia|].
    assert (Hb : rec_bal_old r == remaining_balance P (current_rate / 12) n_old m).
    { rewrite Ho.
      rewrite (positive_rate_balance_run e bal_old n_old (current_rate / 12) po P);
        try assumption; try reflexivity; try lia.
      - now rewrite Z2Nat.id by lia.
      - intros t s. apply loop_body_bal_old. }
    split; [exact Hb|]. split.
    + intros Hlt. rewrite Hb. apply remaining_balance_bounds; try assumption. lia.
    + intros ->. rewrite Hb. now apply remaining_balance_end.
  - intros m Hm.
    destruct (record_at_month e horizon s0 (Z.to_nat m))
      as [r [Hnth [Hmo [_ Hn]]]]; [reflexivity | unfold horizon; lia |].
    exists r. split; [exact Hnth|]. split; [rewrite Hmo; lia|].
    assert (Hb : rec_bal_new r == remaining_balance P' (new_rate / 12) n_new m).
    { rewrite Hn.
      rewrite (positive_rate_balance_run e bal_new n_new (new_rate / 12) pn P');
        try assumption; try reflexivity; try lia.
      - now rewrite Z2Nat.id by lia.
      - intros t s. apply loop_body_bal_new. }
    split; [exact Hb|]. split.
    + intros Hlt. rewrite Hb. apply remaining_balance_bounds; try assumption. lia.
    + intros ->. rewrite Hb. now apply remaining_balance_end.
Qed.

(** A four-month loan of 1000 at 12% refinanced into six months at 6%. *)
Lemma positive_rate_loan_amortization_witness :
  exists (hist : list rec) (p_old p_new : Q),
    compute_enpv_full 1000 0.12 0.06 (1 # 3) (1 # 2) 0 false 0.05 0.05 0.1 0.28
      true
    = Some (hist, p_old, p_new, py_round ((1 # 3) * 12)) /\
    exists rcd, nth_error hist 3 = Some rcd /\ rec_bal_old rcd == 0.
Proof.
  assert (H1 : 0 < 1000) by reflexivity.
  assert (H2 : 0 < 0.12) by reflexivity.
  assert (H3 : 0 < 0.06) by reflexivity.
  assert (H4 : (1 <= py_round ((1 # 3) * 12))%Z) by (vm_compute; discriminate).
  assert (H5 : (1 <= py_round ((1 # 2) * 12))%Z) by (vm_compute; discriminate).
  destruct (positive_rate_loan_amortization 1000 0.12 0.06 (1 # 3) (1 # 2) 0
              false 0.05 0.05 0.1 0.28 true H1 H1 H2 H3 H4 H5)
    as [h [po [pn [E [Ho _]]]]].
  exists h, po, pn. split; [exact E|].
  assert (H6 : (1 <= 4 <= py_round ((1 # 3) * 12))%Z)
    by (vm_compute; split; discriminate).
  destruct (Ho 4%Z H6) as [rcd [Hn [_ [_ [_ Hz]]]]].
  exists rcd. split; [exact Hn|]. apply Hz. vm_compute. reflexivity.
Defined.

Example positive_rate_four_months :
  option_map (fun '(h, _, _, _) => map (fun r => Qred (rec_bal_old r)) h)
    (compute_enpv_full 1000 0.12 0.06 (1 # 3) (1 # 3) 0 false 0 0 0 0 false)
  = Some [Qred (remaining_balance 1000 0.01 4 1);
          Qred (remaining_balance 1000 0.01 4 2);
          Qred (remaining_balance 1000 0.01 4 3); 0].
Proof. vm_compute. reflexivity. Qed.


Lemma max0_ge_0 x : 0 <= max0 x.
Proof.
  unfold max0. destruct (Qle_bool x 0) eqn:E; [apply Qle_refl|].
  apply Qlt_le_weak, Qnot_le_lt. intros C. apply Qle_bool_iff in C. congruence.
Qed.

(** What one pass through the loop appends to [history]. *)
Lemma loop_body_record e t s :
  exists r,
    history (loop_body e t s) = history s ++ [r] /\
    cum_sav (loop_body e t s) = cum_sav s + pmt_sav_t r /\
    month r = t /\
    rec_cum_sav r = cum_sav s + pmt_sav_t r /\
    0 <= rec_bal_old r /\ 0 <= rec_bal_new r /\
    pmt_sav_t r = p_old r - p_new r /\
    balance_adv r = rec_bal_old r - rec_bal_new r /\
    ((n_old e < t)%Z -> p_old r = 0 /\ rec_bal_old r = 0) /\
    ((n_new e < t)%Z -> p_new r = 0 /\ rec_bal_new r = 0).
Proof.
  unfold loop_body.
  destruct (Z.leb_spec t (n_old e)); destruct (Qgt_bool (bal_old s) 0);
  destruct (Z.leb_spec t (n_new e)); destruct (Qgt_bool (bal_new s) 0);
  cbn [andb];
  destruct (t <? gamma_month e)%Z; destruct (t =? gamma_month e)%Z;
  eexists; cbn [history cum_sav month rec_cum_sav rec_bal_old rec_bal_new
                pmt_sav_t balance_adv p_old p_new];
  (split; [reflexivity|]); (split; [reflexivity|]); (split; [reflexivity|]);
  (split; [reflexivity|]);
  (split; [try apply max0_ge_0; apply Qle_refl|]);
  (split; [try apply max0_ge_0; apply Qle_refl|]);
  (split; [reflexivity|]); (split; [reflexivity|]);
  split; intros; try lia; split; reflexivity.
Qed.

(** The records a run of the loop appends: their months, the facts
    each of them satisfies and the running total of the savings. *)
Lemma run_months_records e count first s :
  exists recs,
    history (run_months e count first s) = history s ++ recs /\
    map month recs = map (fun i => (first + Z.of_nat i)%Z) (seq 0 count) /\
    (forall r, In r recs ->
       0 <= rec_bal_old r /\ 0 <= rec_bal_new r /\
       pmt_sav_t r = p_old r - p_new r /\
       balance_adv r = rec_bal_old r - rec_bal_new r /\
       ((n_old e < month r)%Z -> p_old r = 0 /\ rec_bal_old r = 0) /\
       ((n_new e < month r)%Z -> p_new r = 0 /\ rec_bal_new r = 0)) /\
    (forall i r, nth_error recs i = Some r ->
       rec_cum_sav r
       = fold_left Qplus (map pmt_sav_t (firstn (S i) recs)) (cum_sav s)).
Proof.
  revert first s. induction count as [|k IH]; intros first s.
  - exists []. cbn. rewrite app_nil_r. repeat split; try contradiction.
    intros [|i] r H; discriminate.
  - cbn [run_months].
    destruct (IH (first + 1)%Z (loop_body e first s)) as [recs [H1 [H2 [H3 H4]]]].
    destruct (loop_body_record e first s)
      as [r [Hh [Hc [Hm [Hcs [Ho [Hn [Hs [Hb [Hao Han]]]]]]]]]].
    exists (r :: recs). split; [|split; [|split]].
    + rewrite H1, Hh, <- app_assoc. reflexivity.
    + cbn [map seq]. rewrite Hm, H2, <- seq_shift, map_map. f_equal.
      * f_equal. lia.
      * apply map_ext. intros i. lia.
    + intros r' [<-|Hin].
      * rewrite Hm. repeat split; try assumption; intros; 
          try (apply Hao; assumption); try (apply Han; assumption).
      * apply H3. exact Hin.
    + intros [|i] r' Hnth.
      * injection Hnth as <-. cbn. exact Hcs.
      * cbn in Hnth. rewrite (H4 i r' Hnth), Hc. reflexivity.
Qed.

(** X20.  The history of [compute_enpv_full], whenever it returns.
    The fourth component is the term of the old loan in months; there
    is one record per month of the longer of the two terms, numbered
    from 1.  In every record both balances are non-negative, the
    payment saving is the old payment less the new one, the balance
    advantage is the old balance less the new one, and after the end of
    a loan's term its payment and its balance are [0].  The cumulative
    saving of a record is the sum of the payment savings up to its
    month. *)
Theorem compute_enpv_full_history
  (current_balance current_rate new_rate remaining_years_old new_term_years
     closing_costs : Q) (finance_costs_in_loan : bool)
  (invest_rate discount_rate cpr tau_rate : Q) (include_tax : bool)
  (hist : list rec) (p_old_v p_new_v : Q) (g : Z) :
  let n_old := py_round (remaining_years_old * 12) in
  let n_new := py_round (new_term_years * 12) in
  compute_enpv_full current_balance current_rate new_rate remaining_years_old
    new_term_years closing_costs finance_costs_in_loan invest_rate
    discount_rate cpr tau_rate include_tax
  = Some (hist, p_old_v, p_new_v, g) ->
  g = n_old /\
  List.length hist = Z.to_nat (Z.max n_old n_new) /\
  map month hist
  = map (fun i => (1 + Z.of_nat i)%Z) (seq 0 (Z.to_nat (Z.max n_old n_new))) /\
  (forall r, In r hist ->
     0 <= rec_bal_old r /\ 0 <= rec_bal_new r /\
     pmt_sav_t r = p_old r - p_new r /\
     balance_adv r = rec_bal_old r - rec_bal_new r /\
     ((n_old < month r)%Z -> p_old r = 0 /\ rec_bal_old r = 0) /\
     ((n_new < month r)%Z -> p_new r = 0 /\ rec_bal_new r = 0)) /\
  (forall i r, nth_error hist i = Some r ->
     rec_cum_sav r = py_sum (map pmt_sav_t (firstn (S i) hist))).
Proof.
  intros n_old n_new. unfold compute_enpv_full. fold n_old n_new.
  destruct (payment current_balance (current_rate / 12) n_old) as [po|];
    [|discriminate].
  destruct (payment _ (new_rate / 12) n_new) as [pn|]; [|discriminate].
  intros E. injection E as <- <- <- <-.
  match goal with
  | |- context [run_months ?e ?c 1 ?s0] =>
      destruct (run_months_records e c 1 s0) as [recs [H1 [H2 [H3 H4]]]]
  end.
  cbn [history app n_old n_new] in H1. cbn [Amortization.n_old Amortization.n_new cum_sav] in H3, H4.
  rewrite H1.
  split; [reflexivity|]. split.
  { rewrite <- (length_map month), H2, length_map, length_seq. reflexivity. }
  split; [exact H2|]. split; [exact H3|]. exact H4.
Qed.

(** The history of a two-month loan refinanced into three months. *)
Lemma compute_enpv_full_history_witness :
  match compute_enpv_full 1000 0.12 0.06 (1 # 6) (1 # 4) 0 false 0.05 0.05 0.1
          0.28 true with
  | Some (hist, _, _, g) =>
      g = 2%Z /\ List.length hist = 3%nat /\
      map month hist = [1; 2; 3]%Z
  | None => False
  end.
Proof.
  destruct (compute_enpv_full 1000 0.12 0.06 (1 # 6) (1 # 4) 0 false 0.05 0.05
              0.1 0.28 true) as [[[[h po] pn] g]|] eqn:E.
  - destruct (compute_enpv_full_history _ _ _ _ _ _ _ _ _ _ _ _ _ _ _ _ E)
      as [Hg [Hl [Hm _]]].
    split; [exact Hg|]. split; [exact Hl|]. exact Hm.
  - vm_compute in E. discriminate.
Defined.

Lemma payment_zero_months P r : payment P r 0 = None.
Proof.
  unfold payment, py_pow, py_div. destruct (Qeq_bool r 0); [reflexivity|].
  rewrite andb_false_r. reflexivity.
Qed.

Lemma payment_nonzero_months P r n :
  0 <= r -> n <> 0%Z -> exists p, payment P r n = Some p.
Proof.
  intros Hr Hn. destruct (Qlt_le_dec 0 r) as [Hpos|Hle].
  - destruct (Z_lt_le_dec 0 n) as [Hn1|Hn1].
    + eexists. apply payment_positive_rate_value; [assumption | lia].
    + rewrite payment_positive_rate by assumption.
      eexists. apply py_div_some.
      assert (1 < Qpower (1 + r) (- n)) by (apply Qpower_1_lt; [lra | lia]).
      lra.
  - assert (Hz : r == 0) by lra.
    rewrite (payment_zero_rate _ _ _ Hz). eexists. apply py_div_some.
    intros E. apply Hn. unfold Qeq in E. simpl in E. lia.
Qed.

Lemma py_round_near_zero x : - (1 # 2) <= x -> x <= 1 # 2 -> py_round x = 0%Z.
Proof.
  intros Hlo Hhi. unfold py_round.
  pose proof (Qfloor_le x) as F1. pose proof (Qlt_floor x) as F2.
  assert (B : (-1 <= Qfloor x <= 0)%Z).
  { split.
    - assert (H : inject_Z (-1) < inject_Z (Qfloor x + 1)).
      { apply Qlt_trans with (- (1 # 2)); [reflexivity|].
        apply Qle_lt_trans with x; assumption. }
      rewrite <- Zlt_Qlt in H. lia.
    - assert (H : inject_Z (Qfloor x) < inject_Z 1).
      { apply Qle_lt_trans with x; [assumption|].
        apply Qle_lt_trans with (1 # 2); [assumption|reflexivity]. }
      rewrite <- Zlt_Qlt in H. lia. }
  assert (C : Qfloor x = (-1)%Z \/ Qfloor x = 0%Z) by lia.
  destruct C as [C|C]; rewrite C in *; cbn [Z.even Z.add].
  - change (inject_Z (-1)) with (- (1)) in *.
    destruct (Qcompare_spec (x - - (1)) (1 # 2)) as [E|E|E]; try reflexivity.
    exfalso. lra.
  - change (inject_Z 0) with 0 in *.
    destruct (Qcompare_spec (x - 0) (1 # 2)) as [E|E|E]; try reflexivity.
    exfalso. lra.
Qed.

(** X21.  Division by zero in the amortization, for non-negative
    rates.  [payment] raises for a term of [0] months whatever the
    rate.  [compute_enpv_full] raises exactly when one of the two terms
    rounds to [0] months; in particular it raises when the remaining
    years times twelve lie between [-1/2] and [1/2], a half rounding to
    the even number [0]. *)
Theorem compute_enpv_full_raises
  (current_balance current_rate new_rate remaining_years_old new_term_years
     closing_costs : Q) (finance_costs_in_loan : bool)
  (invest_rate discount_rate cpr tau_rate : Q) (include_tax : bool) :
  0 <= current_rate -> 0 <= new_rate ->
  (forall P r, payment P r 0 = None) /\
  (compute_enpv_full current_balance current_rate new_rate remaining_years_old
     new_term_years closing_costs finance_costs_in_loan invest_rate
     discount_rate cpr tau_rate include_tax = None
   <-> py_round (remaining_years_old * 12) = 0%Z \/
       py_round (new_term_years * 12) = 0%Z) /\
  (- (1 # 2) <= remaining_years_old * 12 <= 1 # 2 ->
   compute_enpv_full current_balance current_rate new_rate remaining_years_old
     new_term_years closing_costs finance_costs_in_loan invest_rate
     discount_rate cpr tau_rate include_tax = None).
Proof.
  intros Hcr Hnr.
  assert (Hro : 0 <= current_rate / 12) by (apply Qle_shift_div_l; lra).
  assert (Hrn : 0 <= new_rate / 12) by (apply Qle_shift_div_l; lra).
  split; [exact payment_zero_months|].
  assert (Hiff :
    compute_enpv_full current_balance current_rate new_rate remaining_years_old
      new_term_years closing_costs finance_costs_in_loan invest_rate
      discount_rate cpr tau_rate include_tax = None
    <-> py_round (remaining_years_old * 12) = 0%Z \/
        py_round (new_term_years * 12) = 0%Z).
  { unfold compute_enpv_full.
    set (n_old := py_round (remaining_years_old * 12)).
    set (n_new := py_round (new_term_years * 12)).
    set (P' := if finance_costs_in_loan then _ else _).
    split.
    - intros E.
      destruct (Z.eq_dec n_old 0) as [|Ho]; [now left|].
      destruct (Z.eq_dec n_new 0) as [|Hn]; [now right|].
      exfalso.
      destruct (payment_nonzero_months current_balance _ n_old Hro Ho) as [po Epo].
      destruct (payment_nonzero_months P' _ n_new Hrn Hn) as [pn Epn].
      rewrite Epo, Epn in E. discriminate.
    - intros [Ho|Hn].
      + rewrite Ho, payment_zero_months. reflexivity.
      + rewrite Hn, payment_zero_months.
        destruct (payment current_balance _ n_old); reflexivity. }
  split; [exact Hiff|].
  intros [Hlo Hhi]. apply Hiff. left. now apply py_round_near_zero.
Qed.

(** A remaining term of half a month. *)
Lemma compute_enpv_full_raises_witness :
  compute_enpv_full 1000 0.12 0.06 (1 # 24) 30 0 false 0.05 0.05 0.1 0.28 true
  = None.
Proof.
  refine (proj2 (proj2 (compute_enpv_full_raises 1000 0.12 0.06 (1 # 24) 30 0
                          false 0.05 0.05 0.1 0.28 true _ _)) _).
  - vm_compute. discriminate.
  - vm_compute. discriminate.
  - split; vm_compute; discriminate.
Defined.

Lemma growth_bound r (k : nat) :
  0 <= r ->
  Qpower (1 + r) (Z.of_nat k) - 1
  <= inject_Z (Z.of_nat k) * r * Qpower (1 + r) (Z.of_nat k).
Proof.
  intros Hr. induction k as [|k IH].
  - change (Qpower (1 + r) (Z.of_nat 0)) with 1.
    change (inject_Z (Z.of_nat 0)) with 0. lra.
  - replace (Z.of_nat (S k)) with (Z.of_nat k + 1)%Z by lia.
    rewrite Qpower_succ by lra. rewrite inject_Z_plus.
    change (inject_Z 1) with 1.
    assert (H1 : 1 <= Qpower (1 + r) (Z.of_nat k))
      by (apply Qpower_1_le; [lra | lia]).
    assert (H0 : 0 <= inject_Z (Z.of_nat k))
      by (change 0 with (inject_Z 0); rewrite <- Zle_Qle; lia).
    set (q := Qpower (1 + r) (Z.of_nat k)) in *.
    set (c := inject_Z (Z.of_nat k)) in *.
    assert (0 <= c * r * q * r) by (repeat apply Qmult_le_0_compat; lra).
    assert (0 <= r * (q - 1)) by (apply Qmult_le_0_compat; lra).
    assert (0 <= r * q * r) by (repeat apply Qmult_le_0_compat; lra).
    lra.
Qed.

(** X22.  For a non-negative principal, a positive monthly rate [r]
    and [n >= 1] months, [payment] returns a payment that covers the
    interest of the first month ([P * r]), is at most the principal
    with one month of interest ([P * (1 + r)]), and repays at least the
    principal over the term ([P <= payment * n]); a longer term never
    raises the payment. *)
Theorem payment_bounds P r n :
  0 <= P -> 0 < r -> (1 <= n)%Z ->
  exists p,
    payment P r n = Some p /\
    P * r <= p /\ p <= P * (1 + r) /\ P <= p * inject_Z n /\
    (forall n2, (n <= n2)%Z ->
       exists p2, payment P r n2 = Some p2 /\ p2 <= p).
Proof.
  intros HP Hr Hn.
  rewrite (payment_positive_rate_value P r n Hr Hn).
  eexists. split; [reflexivity|].
  assert (H1 : 1 < Qpower (1 + r) n) by (apply Qpower_1_lt; [lra | lia]).
  assert (Hq : 1 + r <= Qpower (1 + r) n).
  { rewrite <- (Qpower_1_r (1 + r)) at 1. apply Qpower_le_compat_l; [lia | lra]. }
  destruct (discount_factor_lt_1 r n Hr Hn) as [D0 D1].
  assert (HPr : 0 <= P * r) by (apply Qmult_le_0_compat; lra).
  split; [|split; [|split]].
  - apply Qle_shift_div_l; [lra|].
    assert (0 <= P * r * Qpower (1 + r) (- n))
      by (apply Qmult_le_0_compat; lra).
    lra.
  - rewrite payment_closed_form by assumption.
    apply Qle_shift_div_r; [lra|].
    assert (0 <= P * (Qpower (1 + r) n - (1 + r)))
      by (apply Qmult_le_0_compat; lra).
    lra.
  - rewrite payment_closed_form by assumption.
    pose proof (growth_bound r (Z.to_nat n) (Qlt_le_weak _ _ Hr)) as G.
    rewrite Z2Nat.id in G by lia.
    set (q := Qpower (1 + r) n) in *.
    setoid_replace (P * r * q / (q - 1) * inject_Z n)
      with (P * (inject_Z n * r * q) / (q - 1)) by (field; lra).
    apply Qle_shift_div_l; [lra|].
    assert (0 <= P * (inject_Z n * r * q - (q - 1)))
      by (apply Qmult_le_0_compat; lra).
    lra.
  - intros n2 Hn2.
    rewrite (payment_positive_rate_value P r n2 Hr) by lia.
    eexists. split; [reflexivity|].
    destruct (discount_factor_lt_1 r n2 Hr) as [E0 E1]; [lia|].
    assert (Hm : Qpower (1 + r) (- n2) <= Qpower (1 + r) (- n))
      by (apply Qpower_le_compat_l; [lia | lra]).
    set (a := Qpower (1 + r) (- n)) in *.
    set (b := Qpower (1 + r) (- n2)) in *.
    apply Qle_shift_div_r; [lra|].
    setoid_replace (P * r / (1 - a) * (1 - b))
      with (P * r * (1 - b) / (1 - a)) by (field; lra).
    apply Qle_shift_div_l; [lra|].
    assert (0 <= P * r * (a - b)) by (apply Qmult_le_0_compat; lra).
    lra.
Qed.

(** A thirty-year loan of 300000 at 6%. *)
Lemma payment_bounds_witness :
  exists p,
    payment 300000 (1 # 200) 360 = Some p /\
    300000 * (1 # 200) <= p /\ p <= 300000 * (1 + (1 # 200)) /\
    300000 <= p * inject_Z 360.
Proof.
  destruct (payment_bounds 300000 (1 # 200) 360) as [p [E [H1 [H2 [H3 _]]]]].
  - vm_compute. discriminate.
  - reflexivity.
  - lia.
  - exists p. repeat split; assumption.
Defined.

(** X23.  [calc_monthly_payment] of [render_net_benefit_timeline],
    which takes the annual rate, returns what [payment] of
    [render_enpv_analysis] returns on the monthly rate, including the
    cases where they raise. *)
Theorem calc_monthly_payment_agrees principal annual_rate months :
  calc_monthly_payment principal annual_rate months
  = payment principal (annual_rate / 12) months.
Proof.
  unfold calc_monthly_payment, payment.
  destruct (Qeq_bool annual_rate 0) eqn:E.
  - apply Qeq_bool_true_iff in E.
    assert (E' : annual_rate / 12 == 0) by (rewrite E; reflexivity).
    apply Qeq_bool_true_iff in E'. now rewrite E'.
  - rewrite Qeq_bool_false; [reflexivity|].
    intros C. assert (H : annual_rate == 0).
    { setoid_replace annual_rate with (annual_rate / 12 * 12) by field.
      rewrite C. reflexivity. }
    apply Qeq_bool_true_iff in H. congruence.
Qed.

End ScheduleFacts.


(* ================================================================== *)
(** * The ENPV *)
(* ================================================================== *)

Section EnpvMore.
Import Enpv.
Local Open Scope R_scope.

Lemma mortality_loop_closed SMM pv count first s :
  let s' := mortality_loop SMM pv count first s in
  mortality s' =
    mortality s ++ map (fun i => survival s * (1 - SMM) ^ i * SMM) (seq 0 count) /\
  npv_times_mortality s' =
    npv_times_mortality s ++
    map (fun i => nth (first + i) pv 0 * (survival s * (1 - SMM) ^ i * SMM))
      (seq 0 count).
Proof.
  revert first s. induction count as [|k IH]; intros first s; cbn [mortality_loop].
  - cbn. now rewrite !app_nil_r.
  - destruct (IH (S first) (mortality_body SMM pv first s)) as [H1 H2].
    cbn zeta in *. rewrite H1, H2. unfold mortality_body.
    cbn [survival mortality npv_times_mortality].
    rewrite <- !app_assoc. cbn [seq map app].
    rewrite <- seq_shift, !map_map. split.
    + f_equal. f_equal; [cbn; ring|]. apply map_ext. intros i. cbn. ring.
    + f_equal. f_equal.
      * rewrite Nat.add_0_r. cbn. ring.
      * apply map_ext. intros i. rewrite Nat.add_succ_r. cbn. ring.
Qed.

Lemma last_set_last l v : last (set_last l v) 0 = v.
Proof. unfold set_last. apply last_last. Qed.

Lemma py_sum_cons x l : py_sum (x :: l) = x + py_sum l.
Proof.
  unfold py_sum. cbn [fold_left]. rewrite Rplus_0_l.
  revert x. induction l as [|y l IH]; intros x; cbn [fold_left].
  - ring.
  - rewrite IH, (IH (0 + y)). ring.
Qed.

Lemma py_sum_nil : py_sum [] = 0.
Proof. reflexivity. Qed.

(** The state after [S n] months and the residual step, and the sum of
    the weighted gains, for a monthly rate [SMM]. *)
Lemma residual_state SMM pv n :
  let s := mortality_loop SMM pv (S n) 0 (mk_mortality_state 1 [] []) in
  let s' := fold_residual pv s in
  survival s = (1 - SMM) ^ S n /\
  (1 / 1000 < (1 - SMM) ^ S n ->
     mortality s' =
       map (month_weight SMM) (seq 0 n) ++
       [month_weight SMM n + (1 - SMM) ^ S n] /\
     py_sum (npv_times_mortality s') =
       weighted_gains SMM pv n +
       last pv 0 * (month_weight SMM n + (1 - SMM) ^ S n)) /\
  ((1 - SMM) ^ S n <= 1 / 1000 ->
     mortality s' = map (month_weight SMM) (seq 0 (S n)) /\
     py_sum (npv_times_mortality s') = weighted_gains SMM pv (S n)).
Proof.
  intros s s'.
  destruct (mortality_loop_invariant SMM pv (S n) 0 (mk_mortality_state 1 [] []))
    as [H1 _].
  destruct (mortality_loop_closed SMM pv (S n) 0 (mk_mortality_state 1 [] []))
    as [H2 H3].
  fold s in H1, H2, H3.
  change (survival (mk_mortality_state 1 [] [])) with 1 in H1, H2, H3.
  change (mortality (mk_mortality_state 1 [] [])) with (@nil R) in H2.
  change (npv_times_mortality (mk_mortality_state 1 [] [])) with (@nil R) in H3.
  rewrite app_nil_l in H2, H3.
  assert (Hs : survival s = (1 - SMM) ^ S n) by (rewrite H1; ring).
  assert (Hm : mortality s = map (month_weight SMM) (seq 0 (S n))) by exact H2.
  assert (Hn : npv_times_mortality s =
               map (fun t => nth t pv 0 * month_weight SMM t) (seq 0 (S n)))
    by exact H3.
  clear H1 H2 H3.
  split; [exact Hs|].
  unfold s', fold_residual. rewrite Hs.
  destruct (Rlt_dec (1 / 1000) ((1 - SMM) ^ S n)) as [Hgt|Hle].
  - split; [intros _|intros H; lra].
    unfold mortality at 1, npv_times_mortality at 1.
    rewrite Hm, Hn.
    rewrite !seq_S, !map_app. rewrite !Nat.add_0_l.
    change (map (month_weight SMM) [n]) with [month_weight SMM n].
    change (map (fun t => nth t pv 0 * month_weight SMM t) [n])
      with [nth n pv 0 * month_weight SMM n].
    unfold set_last. rewrite !removelast_last, !last_last.
    split; [reflexivity|].
    rewrite py_sum_app. reflexivity.
  - split; [intros H; lra|intros _].
    split; [exact Hm|]. rewrite Hn. reflexivity.
Qed.

Lemma enpv_with_mortality_eval cpr pv :
  cpr < 1 ->
  let SMM := 1 - Rpower (1 - cpr) (1 / 12) in
  let pv' := extend_to_360 pv in
  enpv_with_mortality cpr pv =
    Some (fold_residual pv'
            (mortality_loop SMM pv' (S 359) 0 (mk_mortality_state 1 [] [])),
          py_sum (npv_times_mortality
                    (fold_residual pv'
                       (mortality_loop SMM pv' (S 359) 0
                          (mk_mortality_state 1 [] []))))) /\
  (1 - SMM) ^ S 359 = (1 - cpr) ^ 30.
Proof.
  intros Hc SMM pv'. split.
  - unfold enpv_with_mortality. rewrite (SMM_of_cpr_value _ Hc). reflexivity.
  - unfold SMM. replace (1 - (1 - Rpower (1 - cpr) (1 / 12)))
      with (Rpower (1 - cpr) (1 / 12)) by ring.
    apply (twelfth_root_360 (1 - cpr)). lra.
Qed.

Lemma last_extend_to_360 pv : last (extend_to_360 pv) 0 = last pv 0.
Proof.
  unfold extend_to_360. generalize (360 - List.length pv)%nat as k.
  intros k. induction k as [|k IH].
  - cbn. now rewrite app_nil_r.
  - replace (S k) with (k + 1)%nat by lia.
    rewrite repeat_app, app_assoc. cbn [repeat]. apply last_last.
Qed.

Lemma in_extend_to_360 pv g :
  pv <> [] -> In g (extend_to_360 pv) -> In g pv.
Proof.
  intros Hne H. unfold extend_to_360 in H. apply in_app_or in H.
  destruct H as [H|H]; [assumption|].
  apply repeat_spec in H. subst g.
  rewrite (app_removelast_last 0 Hne) at 2.
  rewrite (app_removelast_last 0 Hne) at 1.
  rewrite last_last. apply in_or_app. right. left. reflexivity.
Qed.

Lemma length_extend_to_360 pv : (360 <= List.length (extend_to_360 pv))%nat.
Proof.
  unfold extend_to_360. rewrite length_app, repeat_length.
  generalize (List.length pv). intros n. lia.
Qed.

Lemma nth_0_extend_to_360 pv : nth 0 (extend_to_360 pv) 0 = nth 0 pv 0.
Proof.
  unfold extend_to_360. destruct pv as [|g pv]; [|reflexivity].
  cbn [app last nth]. apply nth_repeat.
Qed.

Lemma py_sum_zero {A} (f : A -> R) l :
  (forall x, In x l -> f x = 0) -> py_sum (map f l) = 0.
Proof.
  induction l as [|x l IH]; intros H; [reflexivity|].
  cbn [map]. rewrite py_sum_cons, IH by (intros; apply H; now right).
  rewrite (H x) by now left. ring.
Qed.

Lemma py_sum_bounds {A} (g w : A -> R) lo hi l :
  (forall x, In x l -> lo <= g x <= hi /\ 0 <= w x) ->
  lo * py_sum (map w l) <= py_sum (map (fun x => g x * w x) l) <=
  hi * py_sum (map w l) /\ 0 <= py_sum (map w l).
Proof.
  induction l as [|x l IH]; intros H.
  - cbn [map]. rewrite py_sum_nil. lra.
  - cbn [map]. rewrite !py_sum_cons.
    destruct IH as [[I1 I2] I3]; [intros; apply H; now right|].
    destruct (H x) as [[G1 G2] W]; [now left|].
    split; [split|]; nra.
Qed.

Lemma SMM_range cpr :
  0 <= cpr < 1 -> 0 <= 1 - Rpower (1 - cpr) (1 / 12) < 1.
Proof.
  intros [H0 H1]. unfold Rpower.
  assert (L : ln (1 - cpr) <= 0).
  { destruct (Req_dec cpr 0) as [->|Hn].
    - replace (1 - 0) with 1 by ring. rewrite ln_1. lra.
    - left. rewrite <- ln_1. apply ln_increasing; lra. }
  pose proof (exp_pos (1 / 12 * ln (1 - cpr))) as P.
  assert (E : exp (1 / 12 * ln (1 - cpr)) <= 1).
  { assert (Hx : 1 / 12 * ln (1 - cpr) <= 0) by lra.
    destruct Hx as [Hx|Hx].
    - pose proof (exp_increasing _ _ Hx) as I. rewrite exp_0 in I. lra.
    - rewrite Hx, exp_0. lra. }
  lra.
Qed.

Lemma month_weight_nonneg SMM t : 0 <= SMM <= 1 -> 0 <= month_weight SMM t.
Proof.
  intros [H0 H1]. unfold month_weight.
  assert (0 <= (1 - SMM) ^ t) by (apply pow_le; lra).
  nra.
Qed.

(** The result of the block for a CPR below 1: the weights, their sum
    and the ENPV. *)
Lemma enpv_weights_bounds_aux cpr pv :
  cpr < 1 ->
  exists s enpv,
    enpv_with_mortality cpr pv = Some (s, enpv) /\
    py_sum (mortality s) =
      (if Rlt_dec (1 / 1000) ((1 - cpr) ^ 30) then 1 else 1 - (1 - cpr) ^ 30) /\
    (1 / 1000 < (1 - cpr) ^ 30 ->
       mortality s =
         map (month_weight (1 - Rpower (1 - cpr) (1 / 12))) (seq 0 359) ++
         [month_weight (1 - Rpower (1 - cpr) (1 / 12)) 359 + (1 - cpr) ^ 30] /\
       enpv = weighted_gains (1 - Rpower (1 - cpr) (1 / 12))
                (extend_to_360 pv) 359 +
              last pv 0 *
              (month_weight (1 - Rpower (1 - cpr) (1 / 12)) 359 +
               (1 - cpr) ^ 30)) /\
    ((1 - cpr) ^ 30 <= 1 / 1000 ->
       mortality s =
         map (month_weight (1 - Rpower (1 - cpr) (1 / 12))) (seq 0 360) /\
       enpv = weighted_gains (1 - Rpower (1 - cpr) (1 / 12))
                (extend_to_360 pv) 360).
Proof.
  intros Hc.
  destruct (enpv_with_mortality_eval cpr pv Hc) as [E Hq].
  destruct (residual_state (1 - Rpower (1 - cpr) (1 / 12)) (extend_to_360 pv) 359)
    as [_ [R1 R2]].
  rewrite Hq in R1, R2. rewrite last_extend_to_360 in R1.
  destruct (mortality_weights_sum cpr pv Hc) as [s0 [e0 [E0 [_ [_ Hsum]]]]].
  exists s0, e0. split; [exact E0|]. split; [exact Hsum|].
  assert (Es : Some (s0, e0) = 
    Some (fold_residual (extend_to_360 pv)
            (mortality_loop (1 - Rpower (1 - cpr) (1 / 12)) (extend_to_360 pv)
               (S 359) 0 (mk_mortality_state 1 [] [])),
          py_sum (npv_times_mortality
                    (fold_residual (extend_to_360 pv)
                       (mortality_loop (1 - Rpower (1 - cpr) (1 / 12))
                          (extend_to_360 pv) (S 359) 0
                          (mk_mortality_state 1 [] []))))))
    by (rewrite <- E0; exact E).
  injection Es as -> ->. split; assumption.
Qed.

(** X24.  The mortality weights and the ENPV for a CPR below 1, with
    [SMM = 1 - (1 - CPR)^(1/12)] and the gains extended to 360 months
    by their last value.  The weight of month [t] is
    [(1 - SMM)^t * SMM].  When the survival after 360 months,
    [(1 - CPR)^30], exceeds [0.001], it is added to the weight of the
    last month, whose gain is then the last discounted gain of the
    list; otherwise it is dropped.  The ENPV is the sum of the gains
    times these weights. *)
Theorem enpv_weights_and_value (cpr : R) (net_gain_pv : list R) :
  cpr < 1 ->
  let SMM := 1 - Rpower (1 - cpr) (1 / 12) in
  let gains := extend_to_360 net_gain_pv in
  exists s enpv,
    enpv_with_mortality cpr net_gain_pv = Some (s, enpv) /\
    (1 / 1000 < (1 - cpr) ^ 30 ->
       mortality s =
         map (month_weight SMM) (seq 0 359) ++
         [month_weight SMM 359 + (1 - cpr) ^ 30] /\
       enpv = weighted_gains SMM gains 359 +
              last net_gain_pv 0 * (month_weight SMM 359 + (1 - cpr) ^ 30)) /\
    ((1 - cpr) ^ 30 <= 1 / 1000 ->
       mortality s = map (month_weight SMM) (seq 0 360) /\
       enpv = weighted_gains SMM gains 360).
Proof.
  intros Hc SMM gains.
  destruct (enpv_weights_bounds_aux cpr net_gain_pv Hc)
    as [s [enpv [E [_ [R1 R2]]]]].
  exists s, enpv. split; [exact E|]. split; assumption.
Qed.

Lemma enpv_weights_and_value_witness :
  exists s enpv,
    enpv_with_mortality (1 / 10) [100; 200] = Some (s, enpv) /\
    List.length (mortality s) = 360%nat.
Proof.
  assert (H : 1 / 10 < 1) by lra.
  destruct (enpv_weights_and_value (1 / 10) [100; 200] H) as [s [enpv [E [R1 R2]]]].
  exists s, enpv. split; [exact E|].
  destruct (Rlt_le_dec (1 / 1000) ((1 - 1 / 10) ^ 30)) as [C|C].
  - destruct (R1 C) as [M _]. rewrite M.
    rewrite length_app, length_map, length_seq. reflexivity.
  - destruct (R2 C) as [M _]. rewrite M.
    rewrite length_map, length_seq. reflexivity.
Defined.

Lemma weighted_gains_no_prepayment pv n : weighted_gains 0 pv n = 0.
Proof.
  unfold weighted_gains. apply py_sum_zero. intros t _.
  unfold month_weight. ring.
Qed.

Lemma weighted_gains_full_prepayment pv n :
  weighted_gains 1 pv (S n) = nth 0 pv 0.
Proof.
  unfold weighted_gains. cbn [seq map]. rewrite py_sum_cons.
  rewrite <- seq_shift, map_map, py_sum_zero.
  - unfold month_weight. cbn [pow]. ring.
  - intros t _. unfold month_weight. cbn [pow]. ring.
Qed.

(** X25.  The ENPV at the ends of the CPR range.  With a CPR of [0]
    nobody prepays: the ENPV is the last discounted gain ([0] for an
    empty list) and the survival stays [1].  With a CPR of [1]
    everybody prepays in the first month: the ENPV is the first
    discounted gain ([0] for an empty list) and the survival is [0].
    Above [1] the monthly rate is not a real number and no ENPV is
    produced. *)
Theorem enpv_cpr_edge_cases (net_gain_pv : list R) :
  (exists s enpv,
     enpv_with_mortality 0 net_gain_pv = Some (s, enpv) /\
     enpv = last net_gain_pv 0 /\ survival s = 1) /\
  (exists s enpv,
     enpv_with_mortality 1 net_gain_pv = Some (s, enpv) /\
     enpv = nth 0 net_gain_pv 0 /\ survival s = 0) /\
  (forall cpr, 1 < cpr -> enpv_with_mortality cpr net_gain_pv = None).
Proof.
  split; [|split].
  - assert (H0 : SMM_of_cpr 0 = Some 0).
    { rewrite SMM_of_cpr_value by lra. f_equal.
      unfold Rpower. replace (1 - 0) with 1 by ring.
      rewrite ln_1, Rmult_0_r, exp_0. ring. }
    unfold enpv_with_mortality. rewrite H0.
    change 360%nat with (S 359) at 1 2.
    destruct (residual_state 0 (extend_to_360 net_gain_pv) 359) as [Hs [R1 _]].
    assert (P1 : (1 - 0) ^ S 359 = 1) by (replace (1 - 0) with 1 by ring; apply pow1).
    rewrite P1 in Hs, R1.
    destruct R1 as [_ R1]; [lra|].
    eexists. eexists. split; [reflexivity|]. split.
    + rewrite R1, weighted_gains_no_prepayment, last_extend_to_360.
      unfold month_weight. ring.
    + unfold fold_residual. rewrite Hs.
      destruct (Rlt_dec (1 / 1000) 1); [reflexivity|lra].
  - assert (H1 : SMM_of_cpr 1 = Some 1).
    { unfold SMM_of_cpr, float_pow.
      destruct (Rlt_dec (1 - 1) 0); [lra|].
      destruct (Req_dec_T (1 - 1) 0); [|lra].
      destruct (Rlt_dec (1 / 12) 0); [lra|].
      destruct (Req_dec_T (1 / 12) 0); [lra|]. f_equal. ring. }
    unfold enpv_with_mortality. rewrite H1.
    change 360%nat with (S 359) at 1 2.
    destruct (residual_state 1 (extend_to_360 net_gain_pv) 359) as [Hs [_ R2]].
    assert (P0 : (1 - 1) ^ S 359 = 0).
    { replace (1 - 1) with 0 by ring. apply pow_i. lia. }
    rewrite P0 in Hs, R2.
    destruct R2 as [_ R2]; [lra|].
    eexists. eexists. split; [reflexivity|]. split.
    + rewrite R2, weighted_gains_full_prepayment. apply nth_0_extend_to_360.
    + unfold fold_residual. rewrite Hs.
      destruct (Rlt_dec (1 / 1000) 0); [lra|exact Hs].
  - intros cpr Hc. unfold enpv_with_mortality, SMM_of_cpr, float_pow.
    destruct (Rlt_dec (1 - cpr) 0); [reflexivity|lra].
Qed.

(** X26.  For a CPR in [0, 1) and a non-empty list of discounted
    gains that all lie between [lo] and [hi], the ENPV lies between
    [lo] and [hi] times the sum of the mortality weights, which is
    non-negative; when the survival after 360 months exceeds [0.001]
    the weights sum to 1 and the ENPV itself lies between [lo] and
    [hi]. *)
Theorem enpv_between_bounds (cpr lo hi : R) (net_gain_pv : list R) :
  0 <= cpr < 1 -> net_gain_pv <> [] ->
  (forall g, In g net_gain_pv -> lo <= g <= hi) ->
  exists s enpv,
    enpv_with_mortality cpr net_gain_pv = Some (s, enpv) /\
    lo * py_sum (mortality s) <= enpv <= hi * py_sum (mortality s) /\
    0 <= py_sum (mortality s) /\
    (1 / 1000 < (1 - cpr) ^ 30 -> lo <= enpv <= hi).
Proof.
  intros Hc Hne Hb.
  assert (Hc1 : cpr < 1) by lra.
  destruct (enpv_weights_bounds_aux cpr net_gain_pv Hc1)
    as [s [enpv [E [Hsum [R1 R2]]]]].
  pose proof (SMM_range cpr Hc) as HS.
  set (SMM := 1 - Rpower (1 - cpr) (1 / 12)) in *.
  set (gains := extend_to_360 net_gain_pv) in *.
  assert (Hg : forall t, (t < 360)%nat -> lo <= nth t gains 0 <= hi).
  { intros t Ht. apply Hb, in_extend_to_360; [assumption|].
    apply nth_In.
    exact (Nat.lt_le_trans _ _ _ Ht (length_extend_to_360 net_gain_pv)). }
  assert (Hl : lo <= last net_gain_pv 0 <= hi).
  { apply Hb. rewrite (app_removelast_last 0 Hne) at 2.
    apply in_or_app. right. left. reflexivity. }
  assert (Hw : forall t, 0 <= month_weight SMM t)
    by (intros t; apply month_weight_nonneg; lra).
  assert (Hp : 0 <= (1 - cpr) ^ 30) by (apply pow_le; lra).
  exists s, enpv. split; [exact E|].
  assert (Main :
    lo * py_sum (mortality s) <= enpv <= hi * py_sum (mortality s) /\
    0 <= py_sum (mortality s)).
  { destruct (Rlt_le_dec (1 / 1000) ((1 - cpr) ^ 30)) as [C|C].
    - destruct (R1 C) as [M V]. rewrite M, V, py_sum_app.
      destruct (py_sum_bounds (fun t => nth t gains 0) (month_weight SMM) lo hi
                  (seq 0 359)) as [[B1 B2] B3].
      { intros t Ht. apply in_seq in Ht. split; [apply Hg; lia|apply Hw]. }
      unfold weighted_gains.
      pose proof (Hw 359%nat) as W.
      set (a := month_weight SMM 359 + (1 - cpr) ^ 30).
      assert (0 <= a) by (unfold a; lra).
      split; [split|]; nra.
    - destruct (R2 C) as [M V]. rewrite M, V.
      destruct (py_sum_bounds (fun t => nth t gains 0) (month_weight SMM) lo hi
                  (seq 0 360)) as [[B1 B2] B3].
      { intros t Ht. apply in_seq in Ht. split; [apply Hg; lia|apply Hw]. }
      unfold weighted_gains. split; [split|]; assumption. }
  destruct Main as [[M1 M2] M3].
  split; [split; assumption|]. split; [assumption|].
  intros C. destruct (Rlt_dec (1 / 1000) ((1 - cpr) ^ 30)); [|lra].
  rewrite Hsum in M1, M2. lra.
Qed.

Lemma enpv_between_bounds_witness :
  exists s enpv,
    enpv_with_mortality (1 / 10) [100; 200] = Some (s, enpv) /\
    100 * py_sum (mortality s) <= enpv <= 200 * py_sum (mortality s).
Proof.
  destruct (enpv_between_bounds (1 / 10) 100 200 [100; 200])
    as [s [enpv [E [B _]]]].
  - lra.
  - discriminate.
  - intros g [<-|[<-|[]]]; lra.
  - exists s, enpv. split; assumption.
Defined.

End EnpvMore.
